(** * log-lib: a shallow embedding of [src/logger.ts] and its properties

    The development follows the latest revision of the logger (the one with
    [LOG_LEVELS], [currentLogLevel], the [stacktrace] column and the optional
    [mysql] configuration).  JavaScript values are modelled as a small
    universe of primitives plus heap references, so that object identity,
    cyclic [cause] graphs and prototype defaults of [Error] are visible.
    Module-level variables ([conn], [dbInitialized], [currentLogLevel]) live
    in an explicit [World]; every function of the source is a computation
    in a state / exception / writer monad whose written output is the list of
    externally visible effects (console lines, file reads, network traffic). *)

From Stdlib Require Import ZArith String Ascii List Lia.
From stdpp Require Import base gmap sets list strings pretty.

Local Open Scope string_scope.
Local Open Scope Z_scope.
Local Open Scope list_scope.
Local Open Scope stdpp_scope.

(** ** JavaScript strings *)

Module JsString.

Definition nl : string := String "010"%char EmptyString.
Definition esc : string := String "027"%char EmptyString.

(** [s.slice(0, n)] *)
Definition slice0 (n : nat) (s : string) : string := substring 0 n s.

(** [s.slice(a, b)] for [0 <= a <= b] *)
Definition slice (a b : nat) (s : string) : string := substring a (b - a) s.

(** [hay.includes(needle)] *)
Definition includes (needle hay : string) : bool :=
  match String.index 0 needle hay with
  | Some _ => true
  | None => false
  end.

(** [s.startsWith(p)] *)
Definition startsWith (p s : string) : bool := String.prefix p s.

(** [s.split(c)] for a one-character separator; never the empty list. *)
Fixpoint split (c : ascii) (s : string) : list string :=
  match s with
  | EmptyString => [EmptyString]
  | String a r =>
      if Ascii.eqb a c then EmptyString :: split c r
      else match split c r with
           | x :: xs => String a x :: xs
           | [] => [String a EmptyString]
           end
  end.

Definition lines (s : string) : list string := split "010"%char s.

(** [l.join(sep)] *)
Definition join (sep : string) (l : list string) : string := String.concat sep l.

(** [' '.repeat(n)] *)
Fixpoint repeat (s : string) (n : nat) : string :=
  match n with
  | O => EmptyString
  | S k => s +:+ repeat s k
  end.

(** [s.padStart(w, ' ')] *)
Definition padStart (w : nat) (s : string) : string :=
  repeat " " (w - String.length s) +:+ s.

(** strips one trailing carriage return: the [\r?] of [split(/\r?\n/)] *)
Fixpoint chomp_cr (s : string) : string :=
  match s with
  | EmptyString => EmptyString
  | String c EmptyString => if Ascii.eqb c "013"%char then EmptyString else s
  | String c r => String c (chomp_cr r)
  end.

(** [s.split(/\r?\n/)]: every piece that is followed by a newline loses a
    carriage return in front of that newline; the last piece is kept. *)
Fixpoint map_init {A} (f : A -> A) (l : list A) : list A :=
  match l with
  | [] => []
  | [x] => [x]
  | x :: r => f x :: map_init f r
  end.

Definition split_crlf (s : string) : list string := map_init chomp_cr (lines s).

Definition is_digit (c : ascii) : bool :=
  let n := nat_of_ascii c in (48 <=? n)%nat && (n <=? 57)%nat.

(** Length of a match of [\[\d+m] at the head of [s] (the part of
    [/\x1b\[\d+m/] after the escape character). *)
Fixpoint digits_m (seen : bool) (s : string) : option nat :=
  match s with
  | EmptyString => None
  | String c r =>
      if is_digit c then S <$> digits_m true r
      else if Ascii.eqb c "m"%char && seen then Some 1%nat
      else None
  end.

Definition ansi_tail (s : string) : option nat :=
  match s with
  | String "["%char r => S <$> digits_m false r
  | _ => None
  end.

(** [s.replace(/\x1b\[\d+m/g, '')]: [skip] counts the characters of the
    current match that are still to be dropped. *)
Fixpoint strip_go (skip : nat) (s : string) : string :=
  match s with
  | EmptyString => EmptyString
  | String c r =>
      match skip with
      | S k => strip_go k r
      | O =>
          if Ascii.eqb c "027"%char then
            match ansi_tail r with
            | Some n => strip_go n r
            | None => String c (strip_go 0 r)
            end
          else String c (strip_go 0 r)
      end
  end.

Definition stripAnsi (s : string) : string := strip_go 0 s.

(** [a || b] on strings: the empty string is falsy. *)
Definition nonempty (s : string) : bool :=
  match s with EmptyString => false | _ => true end.

End JsString.

(** ** JavaScript values and the object heap *)

Abbreviation loc := positive.

(** Primitives and references.  Numbers are restricted to the integers
    that JavaScript holds exactly and prints in full (below 2^53 in absolute
    value: ports, line and column numbers, ranks, list indices); no claim
    depends on fractions, on NaN or on larger numbers.  Functions, symbols and
    bigints are left out. *)
Inductive JsVal : Type :=
| VUndef
| VNull
| VBool (b : bool)
| VNum (n : Z)
| VStr (s : string)
| VObj (l : loc).

#[global] Instance JsVal_eq_dec : EqDecision JsVal.
Proof. solve_decision. Defined.

Inductive ObjKind : Type := PlainObject | ErrorObject | ArrayObject.

#[global] Instance ObjKind_eq_dec : EqDecision ObjKind.
Proof. solve_decision. Defined.

(** An object: its class ([instanceof Error] is [kind = ErrorObject]), its
    own data properties, and which of them are not enumerable (the [length]
    of an array; [message], [stack] and [cause] as the [Error] constructor
    installs them). *)
Record Obj : Type := mkObj {
  kind : ObjKind;
  props : gmap string JsVal;
  hidden : gset string
}.

(** [String(n)] for an integer in that range: its decimal numeral. *)
Definition numberToString (n : Z) : string := pretty n.

Arguments numberToString : simpl never.

Abbreviation Heap := (gmap positive Obj).

Module Js.

(** Truthiness, as tested by [if (v)], [!v], [a || b], [a && b]. *)
Definition truthy (v : JsVal) : bool :=
  match v with
  | VUndef | VNull => false
  | VBool b => b
  | VNum n => negb (n =? 0)%Z
  | VStr s => JsString.nonempty s
  | VObj _ => true
  end.

Definition typeof (v : JsVal) : string :=
  match v with
  | VUndef => "undefined"
  | VNull => "object"
  | VBool _ => "boolean"
  | VNum _ => "number"
  | VStr _ => "string"
  | VObj _ => "object"
  end.

(** What [Error.prototype] supplies when an error instance has no own
    property of that name. *)
Definition proto_get (k : ObjKind) (p : string) : JsVal :=
  match k with
  | ErrorObject =>
      if String.eqb p "name" then VStr "Error"
      else if String.eqb p "message" then VStr ""
      else VUndef
  | _ => VUndef
  end.

(** [v.p] for a non-nullish [v].  Primitives have none of the properties
    the logger reads. *)
Definition get (h : Heap) (v : JsVal) (p : string) : JsVal :=
  match v with
  | VObj l =>
      match h !! l with
      | Some o =>
          match props o !! p with
          | Some x => x
          | None => proto_get (kind o) p
          end
      | None => VUndef
      end
  | _ => VUndef
  end.

(** [v instanceof Error] *)
Definition instanceofError (h : Heap) (v : JsVal) : bool :=
  match v with
  | VObj l =>
      match h !! l with
      | Some o => bool_decide (kind o = ErrorObject)
      | None => false
      end
  | _ => false
  end.

(** The properties copied by object spread [{...v}]: the own enumerable
    properties of an object, the characters of a string under their
    indices, and nothing for any other primitive. *)
Definition spread (h : Heap) (v : JsVal) : gmap string JsVal :=
  match v with
  | VObj l =>
      match h !! l with
      | Some o => filter (fun kv => kv.1 ∉ hidden o) (props o)
      | None => ∅
      end
  | VStr s =>
      list_to_map
        (imap (fun i c => (numberToString (Z.of_nat i), VStr (String c EmptyString)))
              (list_ascii_of_string s))
  | _ => ∅
  end.

End Js.

Arguments Js.get : simpl never.

(** ** Computations: outcomes, effects, module state *)

(** A JavaScript completion: normal, or abrupt with a thrown value. *)
Inductive Outcome (A : Type) : Type :=
| Ret (a : A)
| Throw (e : JsVal).
Arguments Ret {A} a.
Arguments Throw {A} e.

(** The options object handed to [createConnectionPool]; a pool handle is
    identified with the options it was created from. *)
Record Pool : Type := mkPool {
  connectionString : string;
  bigIntMode : string;
  poolSize : option Z;
  maxUses : option Z;
  idleTimeoutMilliseconds : option Z;
  queueTimeoutMilliseconds : option Z;
  onError : bool
}.

(** The statements the logger sends. *)
Inductive Query : Type :=
| CreateDatabase (database : string)
| CreateTable
| ShowColumns
| AlterAddStacktrace
| Insert (level msg meta stack : string).

(** Externally visible effects, in the order they happen. *)
Inductive Event : Type :=
| ConsoleLog (args : list JsVal)
| ConsoleError (args : list JsVal)
| FsExistsSync (path : string)
| FsReadFileSync (path : string)
| NetCreatePool (p : Pool)
| NetQuery (p : Pool) (q : Query)
| NetDispose (p : Pool)
| ProcessOn (event : string)
| SetTimeoutExit (code delay : Z).

Definition is_console (e : Event) : bool :=
  match e with ConsoleLog _ | ConsoleError _ => true | _ => false end.

Definition is_console_log (e : Event) : bool :=
  match e with ConsoleLog _ => true | _ => false end.

Definition is_fs (e : Event) : bool :=
  match e with FsExistsSync _ | FsReadFileSync _ => true | _ => false end.

Definition is_net (e : Event) : bool :=
  match e with NetCreatePool _ | NetQuery _ _ | NetDispose _ => true | _ => false end.

Definition is_insert (e : Event) : bool :=
  match e with NetQuery _ (Insert _ _ _ _) => true | _ => false end.

(** Modelled from the spec: the [LoggerConfig] declaration of [./types] that
    belongs to this revision is not among the sources (the one present is
    the older one with a mandatory [mysql]).  The fields are those
    [createLogger] and [initializeConnection] read: optional store
    connection parameters and an optional minimum level. *)
Record MysqlConfig : Type := mkMysql {
  host : string;
  port : Z;
  user : string;
  password : string;
  database : option string
}.

Record LoggerConfig : Type := mkConfig {
  mysql : option MysqlConfig;
  logLevel : option string
}.

(** A suspended activation of the async function [initializeConnection]:
    the [await] it is parked at. *)
Inductive InitTask : Type :=
| AwaitCreateDatabase (cfg : MysqlConfig) (db : string) (tempConn : Pool)
| AwaitDispose (cfg : MysqlConfig) (db : string)
| AwaitCreateTable
| AwaitShowColumns
| AwaitAlterTable.

(** How an awaited promise settles; a fulfilled query carries its row count. *)
Inductive Settled : Type :=
| Fulfilled (rows : nat)
| Rejected (e : JsVal).

(** What [LOG_LEVELS[key]] can evaluate to, and so what [currentLogLevel]
    can hold: the rank of a level, or, for a key that the object literal
    lacks and [Object.prototype] has ([constructor], [toString], ...), the
    function or object inherited under that key.  An inherited value is not
    nullish, and a [<] with it on either side is false. *)
Inductive LevelValue : Type :=
| Rank (n : Z)
| Inherited (key : string).

(** The module-level variables of [logger.ts], the object heap, and the
    asynchronous work that is in flight. *)
Record World : Type := mkWorld {
  heap : gmap positive Obj;
  conn : option Pool;
  dbInitialized : bool;
  currentLogLevel : LevelValue;
  tasks : list InitTask;
  inflight : nat
}.

Definition set_heap (h : gmap positive Obj) (w : World) : World :=
  mkWorld h (conn w) (dbInitialized w) (currentLogLevel w) (tasks w) (inflight w).
Definition set_conn (c : option Pool) (w : World) : World :=
  mkWorld (heap w) c (dbInitialized w) (currentLogLevel w) (tasks w) (inflight w).
Definition set_dbInitialized (b : bool) (w : World) : World :=
  mkWorld (heap w) (conn w) b (currentLogLevel w) (tasks w) (inflight w).
Definition set_currentLogLevel (n : LevelValue) (w : World) : World :=
  mkWorld (heap w) (conn w) (dbInitialized w) n (tasks w) (inflight w).
Definition set_tasks (t : list InitTask) (w : World) : World :=
  mkWorld (heap w) (conn w) (dbInitialized w) (currentLogLevel w) t (inflight w).
Definition set_inflight (n : nat) (w : World) : World :=
  mkWorld (heap w) (conn w) (dbInitialized w) (currentLogLevel w) (tasks w) n.

(** The state of the module when it has just been loaded:
    [conn = null], [dbInitialized = false], [currentLogLevel = LOG_LEVELS.info]. *)
Definition initial (h : gmap positive Obj) : World :=
  mkWorld h None false (Rank 1) [] 0.

Definition M (A : Type) : Type := World -> Outcome A * World * list Event.

Definition ret {A} (a : A) : M A := fun w => (Ret a, w, []).

Definition throw {A} (e : JsVal) : M A := fun w => (Throw e, w, []).

Definition bind {A B} (m : M A) (k : A -> M B) : M B :=
  fun w =>
    match m w with
    | (Ret a, w1, ev1) =>
        match k a w1 with
        | (o, w2, ev2) => (o, w2, ev1 ++ ev2)
        end
    | (Throw e, w1, ev1) => (Throw e, w1, ev1)
    end.

(** [try { m } catch (e) { handler e }] *)
Definition try_catch {A} (m : M A) (handler : JsVal -> M A) : M A :=
  fun w =>
    match m w with
    | (Ret a, w1, ev1) => (Ret a, w1, ev1)
    | (Throw e, w1, ev1) =>
        match handler e w1 with
        | (o, w2, ev2) => (o, w2, ev1 ++ ev2)
        end
    end.

Definition emit (e : Event) : M unit := fun w => (Ret tt, w, [e]).
Definition get_world : M World := fun w => (Ret w, w, []).
Definition modify (f : World -> World) : M unit := fun w => (Ret tt, f w, []).
Definition lift {A} (o : Outcome A) : M A := fun w => (o, w, []).

Declare Scope js_scope.
Delimit Scope js_scope with js.
Notation "'let!' x ':=' m 'in' k" := (bind m (fun x => k))
  (at level 10, x name, m at level 100, k at level 200) : js_scope.
Notation "'let!' ' p ':=' m 'in' k" := (bind m (fun p => k))
  (at level 10, p strict pattern, m at level 100, k at level 200) : js_scope.
Notation "m ';;' k" := (bind m (fun _ => k))
  (at level 100, k at level 200, right associativity) : js_scope.
Local Open Scope js_scope.

Definition outcome {A} (r : Outcome A * World * list Event) : Outcome A := r.1.1.
Definition world {A} (r : Outcome A * World * list Event) : World := r.1.2.
Definition events {A} (r : Outcome A * World * list Event) : list Event := r.2.

(** [{ ... }]: a fresh object. *)
Definition alloc (o : Obj) : M JsVal :=
  fun w =>
    let l := fresh (dom (heap w)) in
    (Ret (VObj l), set_heap (<[l := o]> (heap w)) w, []).

(** Bind for completions that touch neither state nor the outside. *)
Definition obind {A B} (o : Outcome A) (k : A -> Outcome B) : Outcome B :=
  match o with
  | Ret a => k a
  | Throw e => Throw e
  end.

Fixpoint omap {A B} (f : A -> Outcome B) (l : list A) : Outcome (list B) :=
  match l with
  | [] => Ret []
  | x :: r => obind (f x) (fun y => obind (omap f r) (fun ys => Ret (y :: ys)))
  end.

(** ** The runtime the logger runs on

    Everything the source imports or asks of the platform: the process
    environment, [fast-safe-stringify], [String(...)] on objects, [path],
    [fs], the regular-expression engine for the two path patterns, and the
    synchronous failures of the MySQL client. *)

Inductive Regex : Type :=
| RePaths          (* /\(([^)]+)\)/g *)
| ReAtPaths        (* /at\s+([^\s]+:\d+:\d+)/g *)
| ReFrameParen     (* /\(([^()]+\.ts):(\d+):(\d+)\)/ *)
| ReFrameBare.     (* /\s(at\s)?([^()]+\.ts):(\d+):(\d+)/ *)

Record Runtime : Type := mkRuntime {
  (** [process.env.ENV_ID], [process.env.LOG_LEVEL] *)
  ENV_ID : option string;
  LOG_LEVEL : option string;
  (** [process.cwd()] *)
  cwd : string;
  (** [new Date().toISOString()] *)
  toISOString : string;
  (** [new Error(msg).stack] inside the logger *)
  errorStack : string -> option string;
  (** what the engine throws for a method call on [undefined] or on a value
      that lacks the method *)
  typeError : JsVal;
  (** [jsonStringify(v)]: a string, or [undefined] ([None]), or a throw *)
  jsonStringify : gmap positive Obj -> JsVal -> Outcome (option string);
  (** [String(o)] and template interpolation of an object *)
  toStringObj : gmap positive Obj -> positive -> Outcome string;
  path_relative : string -> string -> string;
  path_join : string -> string -> string;
  existsSync : string -> bool;
  readFileSync : string -> Outcome string;
  (** [s.replace(re, (match, g1) => f g1)] for a global pattern *)
  regex_replace : Regex -> (string -> string) -> string -> string;
  (** [s.match(re)]: the capture groups [m[1], m[2], ...] *)
  regex_match : Regex -> string -> option (list string);
  (** synchronous failure of [createConnectionPool(options)] *)
  createConnectionPool_throws : Pool -> option JsVal;
  (** synchronous failure of [pool.query(q)] and of [pool.dispose()] *)
  query_throws : Pool -> Query -> option JsVal;
  dispose_throws : Pool -> option JsVal
}.

(** [parseInt(s, 10)] on a group matched by [\d+]: the digits read as a
    decimal number (the value on other strings, [NaN] in JavaScript, is
    never asked for).  Line and column numbers stay below 2^53, where
    JavaScript reads them exactly. *)
Fixpoint parseInt_go (acc : Z) (s : string) : Z :=
  match s with
  | EmptyString => acc
  | String c r =>
      if JsString.is_digit c
      then parseInt_go (10 * acc + (Z.of_nat (nat_of_ascii c) - 48)) r
      else acc
  end.

Definition parseInt (s : string) : Z := parseInt_go 0 s.

(** [{file?, line?, column?}] *)
Record Frame : Type := mkFrame {
  file : option string;
  line : option Z;
  column : option Z
}.

Definition noFrame : Frame := mkFrame None None None.

(** [const LOG_LEVELS = { debug: 0, info: 1, warn: 2, error: 3 }]: the own
    properties of the object literal. *)
Definition LOG_LEVELS (key : string) : option Z :=
  if String.eqb key "debug" then Some 0
  else if String.eqb key "info" then Some 1
  else if String.eqb key "warn" then Some 2
  else if String.eqb key "error" then Some 3
  else None.

(** The property names of [Object.prototype], which every object literal
    inherits. *)
Definition Object_prototype : list string :=
  ["constructor"; "hasOwnProperty"; "isPrototypeOf"; "propertyIsEnumerable";
   "toLocaleString"; "toString"; "valueOf"; "__proto__";
   "__defineGetter__"; "__defineSetter__"; "__lookupGetter__"; "__lookupSetter__"].

(** [LOG_LEVELS[key]]: an own property, else an inherited one, else
    [undefined] ([None]). *)
Definition LOG_LEVELS_at (key : string) : option LevelValue :=
  match LOG_LEVELS key with
  | Some n => Some (Rank n)
  | None => if bool_decide (key ∈ Object_prototype) then Some (Inherited key) else None
  end.

(** [a < b] on two such values: numbers compare, anything else converts to
    [NaN] and the comparison is false. *)
Definition level_lt (a b : LevelValue) : bool :=
  match a, b with
  | Rank x, Rank y => x <? y
  | _, _ => false
  end.

Definition str_truthy (o : option string) : bool :=
  match o with Some s => JsString.nonempty s | None => false end.

Definition num_truthy (o : option Z) : bool :=
  match o with Some n => negb (n =? 0) | None => false end.

(** [a || b] on optional strings *)
Definition or_else (a b : option string) : option string :=
  if str_truthy a then a else b.

Definition ansi (code : string) (s : string) : string :=
  JsString.esc +:+ "[" +:+ code +:+ "m" +:+ s +:+ JsString.esc +:+ "[0m".

Definition opt_val (o : option string) : JsVal :=
  match o with Some s => VStr s | None => VUndef end.

(** ** The functions of [logger.ts] *)

Section Logger.

Variable rt : Runtime.

(** [process.env.ENV_ID === 'dev'] *)
Definition is_dev : bool := bool_decide (ENV_ID rt = Some "dev").

(** [String(v)] and [`${v}`] *)
Definition ToString (h : gmap positive Obj) (v : JsVal) : Outcome string :=
  match v with
  | VUndef => Ret "undefined"
  | VNull => Ret "null"
  | VBool b => Ret (if b then "true" else "false")
  | VNum n => Ret (numberToString n)
  | VStr s => Ret s
  | VObj l => toStringObj rt h l
  end.

(** A [stack?: string] argument on which the callee goes on to call
    [.split]: falsy values take the early return, a string is used, and
    any other value makes the method call fail. *)
Definition stackArg (v : JsVal) : Outcome (option string) :=
  if negb (Js.truthy v) then Ret None
  else match v with
       | VStr s => Ret (Some s)
       | _ => Throw (typeError rt)
       end.

(** [const projectRoot = process.cwd()] *)
Definition projectRoot : string := cwd rt.

Definition makePathRelative (filePath : string) : string :=
  if JsString.startsWith projectRoot filePath
  then path_relative rt projectRoot filePath
  else filePath.

Definition cleanStackTrace (stack : string) : string :=
  if negb (JsString.nonempty stack) then ""
  else
    JsString.join JsString.nl
      (map (fun line =>
              regex_replace rt ReAtPaths
                (fun filePath => "at " +:+ makePathRelative filePath)
                (regex_replace rt RePaths
                   (fun filePath => "(" +:+ makePathRelative filePath +:+ ")")
                   line))
           (JsString.lines stack)).

(** The severity filter at the head of [log]. *)
Definition filtered (level : string) (w : World) : bool :=
  let levelKey := JsString.stripAnsi level in
  match LOG_LEVELS_at levelKey with
  | Some messageLevel => level_lt messageLevel (currentLogLevel w)
  | None => false
  end.

Definition log (level : string) (message meta : JsVal)
    (fileLocation : option string) : M unit :=
  let! w := get_world in
  if filtered level w then ret tt
  else
    let time := toISOString rt in
    let hhMMTime := ansi "34" (JsString.slice 11 19 time) in
    let! meta := (if Js.truthy meta then lift (jsonStringify rt (heap w) meta)
                  else ret (Some "")) in
    let! metaText := lift (ToString (heap w) (opt_val meta)) in
    let! messageText := lift (ToString (heap w) message) in
    let '(level, messageText, metaText) :=
      if String.eqb level "error" then (ansi "31" level, messageText, ansi "35" metaText)
      else if String.eqb level "info" then (ansi "32" level, messageText, ansi "35" metaText)
      else if String.eqb level "debug"
           then (ansi "90" level, ansi "90" messageText, ansi "90" metaText)
      else if String.eqb level "warn" then (ansi "33" level, messageText, ansi "35" metaText)
      else (level, messageText, metaText) in
    let location :=
      match fileLocation with
      | Some l => if JsString.nonempty l then " " +:+ ansi "90" l else ""
      | None => ""
      end in
    emit (ConsoleLog
            [VStr (hhMMTime +:+ " [" +:+ level +:+ "]: " +:+ messageText +:+ " "
                   +:+ metaText +:+ location)]).

Definition formatStack (stack : string) (maxLines : nat) : string :=
  if negb (JsString.nonempty stack) then ""
  else
    let cleanedStack := cleanStackTrace stack in
    let lines := JsString.lines cleanedStack in
    let lines :=
      match lines with
      | first :: (_ :: _) as rest =>
          if JsString.startsWith "Error" first then rest else lines
      | _ => lines
      end in
    let limitedLines := take maxLines lines in
    JsString.join JsString.nl (map (fun l => ansi "90" l) limitedLines).

Fixpoint firstFrame (lines : list string) : Frame :=
  match lines with
  | [] => noFrame
  | l :: rest =>
      match regex_match rt ReFrameParen l with
      | Some m => mkFrame (m !! 0%nat) (parseInt <$> m !! 1%nat) (parseInt <$> m !! 2%nat)
      | None =>
          match regex_match rt ReFrameBare l with
          | Some m2 =>
              mkFrame (m2 !! 1%nat) (parseInt <$> m2 !! 2%nat) (parseInt <$> m2 !! 3%nat)
          | None => firstFrame rest
          end
      end
  end.

Definition extractFirstProjectFrame (stack : JsVal) : Outcome Frame :=
  obind (stackArg stack) (fun s =>
    match s with
    | None => Ret noFrame
    | Some stack => Ret (firstFrame (JsString.lines (cleanStackTrace stack)))
    end).

Definition isTsLine (l : string) : bool :=
  JsString.includes ".ts:" l || JsString.includes ".ts)" l.

Definition extractFullTsStacktrace (stack : JsVal) : Outcome string :=
  obind (stackArg stack) (fun s =>
    match s with
    | None => Ret ""
    | Some stack =>
        let lines := JsString.lines (cleanStackTrace stack) in
        Ret (JsString.join JsString.nl (filter (fun l => isTsLine l = true) lines))
    end).

Definition captureCallStack : string :=
  match errorStack rt "" with
  | None => ""
  | Some stack =>
      if negb (JsString.nonempty stack) then ""
      else
        let lines := JsString.lines (cleanStackTrace stack) in
        JsString.join JsString.nl (filter (fun l => isTsLine l = true) (drop 1 lines))
  end.

(** One rendered line of the code frame; [i] is the 0-based index. *)
Definition codeFrameLine (frame : Frame) (ln : Z) (content : list string) (i : Z)
    : Outcome string :=
  let prefix := if i + 1 =? ln then ansi "31" ">" else " " in
  let num := JsString.padStart 4 (numberToString (i + 1)) in
  let codeLine := default "undefined" (content !! Z.to_nat i) in
  obind
    (if (i + 1 =? ln) && num_truthy (column frame) then
       let col := default 0 (column frame) in
       if col - 1 <? 0 then Throw (typeError rt)
       else Ret (codeLine +:+ JsString.nl +:+ "     "
                   +:+ JsString.repeat " " (Z.to_nat (col - 1)) +:+ ansi "31" "^")
     else Ret codeLine)
    (fun codeLine => Ret (prefix +:+ " " +:+ num +:+ " | " +:+ codeLine)).

Definition buildCodeFrame (frame : Frame) : M string :=
  match file frame, line frame with
  | Some f, Some ln =>
      if negb (JsString.nonempty f) then ret ""
      else
        try_catch
          (let filePath :=
             if JsString.startsWith "/" f then f else path_join rt (cwd rt) f in
           emit (FsExistsSync filePath);;
           if negb (existsSync rt filePath) then ret ""
           else
             emit (FsReadFileSync filePath);;
             let! text := lift (readFileSync rt filePath) in
             let content := JsString.split_crlf text in
             let start := Z.max 0 (ln - 3) in
             let end_ := Z.min (Z.of_nat (length content)) (ln + 2) in
             let! lines := lift (omap (codeFrameLine frame ln content)
                                      (seqZ start (end_ - start))) in
             ret (JsString.join JsString.nl lines))
          (fun _ => ret "")
  | _, _ => ret ""
  end.

Definition isProjectTsLine (l : string) : bool :=
  JsString.includes "/src/" l && JsString.includes ".ts" l.

Definition hasProjectTsFrame (stack : string) : bool :=
  existsb isProjectTsLine (JsString.lines stack).

Definition printStackEnhanced (possibleError : JsVal) : M unit :=
  if negb (Js.truthy possibleError) then ret tt
  else
    let! w := get_world in
    match Js.get (heap w) possibleError "stack" with
    | VStr stack =>
        let outputStack :=
          if is_dev && negb (hasProjectTsFrame stack) then
            match errorStack rt "__callsite__" with
            | Some cs =>
                if JsString.nonempty cs then
                  let filtered :=
                    JsString.join JsString.nl
                      (take 5 (filter (fun l => isProjectTsLine l = true)
                                      (JsString.lines cs))) in
                  if JsString.nonempty filtered
                  then stack +:+ JsString.nl +:+ JsString.nl
                         +:+ "Captured callsite (added by logger):" +:+ JsString.nl
                         +:+ filtered
                  else stack
                else stack
            | None => stack
            end
          else stack in
        emit (ConsoleLog [VStr (formatStack outputStack 3)]);;
        if is_dev then
          let! frame := lift (extractFirstProjectFrame (VStr outputStack)) in
          let! codeFrame := buildCodeFrame frame in
          if JsString.nonempty codeFrame then
            emit (ConsoleLog
                    [VStr (JsString.nl +:+ ansi "36" "Code frame:" +:+ JsString.nl
                           +:+ codeFrame +:+ JsString.nl)])
          else ret tt
        else ret tt
    | _ => ret tt
    end.

Definition safeToStringMessage (h : gmap positive Obj) (message : JsVal)
    : Outcome string :=
  match message with
  | VStr s => Ret s
  | VObj _ =>
      let viaJson :=
        match jsonStringify rt h message with
        | Ret (Some s) => Ret (JsString.slice0 2000 s)
        | Ret None | Throw _ => ToString h message
        end in
      match Js.get h message "message" with
      | VStr m => if JsString.nonempty m then Ret m else viaJson
      | _ => viaJson
      end
  | _ => ToString h message
  end.

(** The title pushed for one node of the cause chain. *)
Definition causeTitle (h : gmap positive Obj) (current : JsVal) : Outcome string :=
  if Js.truthy (Js.get h current "name") then
    obind (ToString h (Js.get h current "name")) (fun name =>
    obind (ToString h (Js.get h current "message")) (fun message =>
    Ret (name +:+ ": " +:+ message)))
  else safeToStringMessage h current.

(** The [while] loop of [buildCauseChain]; [None] when [fuel] iterations
    were not enough to leave it. *)
Fixpoint causeLoop (fuel : nat) (h : gmap positive Obj) (err : JsVal)
    (visited : gset positive) (current : JsVal) (chain : list string)
    : option (Outcome (list string)) :=
  match current with
  | VObj l =>
      if decide (l ∈ visited) then Some (Ret chain)
      else
        match fuel with
        | O => None
        | S fuel =>
            let visited := {[l]} ∪ visited in
            if decide (current = err)
            then causeLoop fuel h err visited (Js.get h current "cause") chain
            else
              match causeTitle h current with
              | Ret title =>
                  causeLoop fuel h err visited (Js.get h current "cause")
                    (chain ++ [title])
              | Throw e => Some (Throw e)
              end
        end
  | _ => Some (Ret chain)
  end.

(** The loop is entered with one unit of fuel per allocated object plus
    one; [causeLoop_total] shows that this is always enough, so the
    default is never taken. *)
Definition buildCauseChain (h : gmap positive Obj) (err : JsVal)
    : Outcome (list string) :=
  default (Ret []) (causeLoop (S (size h)) h err ∅ err []).

Definition safeMeta (meta : JsVal) : M JsVal :=
  if negb (Js.truthy meta) then alloc (mkObj PlainObject ∅ ∅)
  else ret meta.

(** [pool.query(q)]: the statement goes out unless the client fails on
    the spot. *)
Definition query (p : Pool) (q : Query) : M unit :=
  match query_throws rt p q with
  | Some e => throw e
  | None => emit (NetQuery p q)
  end.

(** [conn.query(q)] on the module-level handle. *)
Definition conn_query (q : Query) : M unit :=
  let! w := get_world in
  match conn w with
  | Some c => query c q
  | None => throw (typeError rt)
  end.

(** The rejection handler attached to the detached insert. *)
Definition storeInDB_onRejected (e : JsVal) : M unit :=
  if is_dev then emit (ConsoleError [VStr "Failed to persist log to DB"; e])
  else ret tt.

Definition storeInDB (level : string) (message meta : JsVal)
    (stacktrace : option string) : M unit :=
  let! w := get_world in
  if negb (bool_decide (is_Some (conn w))) || negb (dbInitialized w) then ret tt
  else
    try_catch
      (let! msg := lift (safeToStringMessage (heap w) message) in
       let! metaObj := safeMeta meta in
       let! w := get_world in
       let! metaJson := lift (jsonStringify rt (heap w) metaObj) in
       let! metaStr :=
         match metaJson with
         | Some s => ret (JsString.slice0 2000 s)
         | None => throw (typeError rt)
         end in
       let stackStr := if str_truthy stacktrace then default "" stacktrace else "" in
       conn_query (Insert level msg metaStr stackStr);;
       modify (fun w => set_inflight (S (inflight w)) w))
      (fun e => emit (ConsoleError [VStr "Unexpected failure preparing log for DB"; e])).

(** *** Store initialisation *)

Definition tempPool (c : MysqlConfig) : Pool :=
  mkPool ("mysql://" +:+ user c +:+ ":" +:+ password c +:+ "@" +:+ host c +:+ ":"
            +:+ numberToString (port c) +:+ "/?connectionLimit=1&waitForConnections=true")
         "number" None None None None false.

Definition mainPool (c : MysqlConfig) (db : string) : Pool :=
  mkPool ("mysql://" +:+ user c +:+ ":" +:+ password c +:+ "@" +:+ host c +:+ ":"
            +:+ numberToString (port c) +:+ "/" +:+ db
            +:+ "?connectionLimit=3&waitForConnections=true")
         "number" (Some 3) (Some 200) (Some 30000) (Some 60000) true.

Arguments tempPool : simpl never.
Arguments mainPool : simpl never.

(** The [onError] callback of the main pool: the text it prints, if any. *)
Definition pool_onError (message : option string) : list Event :=
  let has (needle : string) :=
    match message with Some m => JsString.includes needle m | None => false end in
  if negb (has "packets out of order") && negb (has "inactivity")
     && negb (has "wait_timeout")
  then [ConsoleError
          [VStr ("MySQL logger connection pool error: "
                 +:+ default "undefined" message)]]
  else [].

Definition createConnectionPool (p : Pool) : M Pool :=
  match createConnectionPool_throws rt p with
  | Some e => throw e
  | None => emit (NetCreatePool p);; ret p
  end.

Definition dispose (p : Pool) : M unit :=
  match dispose_throws rt p with
  | Some e => throw e
  | None => emit (NetDispose p)
  end.

(** [await p]: the activation is parked; [awaited] is what it sees when it
    is resumed. *)
Definition suspend (t : InitTask) : M unit :=
  modify (fun w => set_tasks (tasks w ++ [t]) w).

Definition awaited (r : Settled) : M nat :=
  match r with
  | Fulfilled rows => ret rows
  | Rejected e => throw e
  end.

(** The outer [catch] of [initializeConnection]. *)
Definition init_failed (err : JsVal) : M unit :=
  emit (ConsoleError [VStr "Failed to initialize logs database:"; err]).

(** The inner [try]/[catch] around the migration and what follows it.
    [body] answers [true] when it parked at an [await] inside the [try]. *)
Definition migration (body : M bool) : M unit :=
  let! parked :=
    try_catch body
      (fun migrationErr =>
         emit (ConsoleError [VStr "[log-lib] Migration failed (non-critical):";
                             migrationErr]);;
         ret false) in
  if parked then ret tt else modify (set_dbInitialized true).

(** The call itself: everything up to the first [await]. *)
Definition initializeConnection (config : LoggerConfig) : M unit :=
  let! w := get_world in
  match dbInitialized w, mysql config with
  | false, Some c =>
      try_catch
        (let database :=
           if str_truthy (database c) then default "logs" (database c) else "logs" in
         let! tempConn := createConnectionPool (tempPool c) in
         query tempConn (CreateDatabase database);;
         suspend (AwaitCreateDatabase c database tempConn))
        init_failed
  | _, _ => ret tt
  end.

(** The activation parked at [t] goes on with the settlement [r] of the
    promise it awaited, up to its next [await] or its end. *)
Definition initializeConnection_resume (t : InitTask) (r : Settled) : M unit :=
  try_catch
    match t with
    | AwaitCreateDatabase c db tempConn =>
        awaited r;;
        dispose tempConn;;
        suspend (AwaitDispose c db)
    | AwaitDispose c db =>
        awaited r;;
        let! pool := createConnectionPool (mainPool c db) in
        modify (set_conn (Some pool));;
        conn_query CreateTable;;
        suspend AwaitCreateTable
    | AwaitCreateTable =>
        awaited r;;
        migration (conn_query ShowColumns;; suspend AwaitShowColumns;; ret true)
    | AwaitShowColumns =>
        migration
          (let! columns := awaited r in
           if (columns =? 0)%nat then
             emit (ConsoleLog
                     [VStr "[log-lib] Running migration: Adding stacktrace column..."]);;
             conn_query AlterAddStacktrace;;
             suspend AwaitAlterTable;;
             ret true
           else ret false)
    | AwaitAlterTable =>
        migration
          (awaited r;;
           emit (ConsoleLog
                   [VStr "[log-lib] Migration complete: stacktrace column added"]);;
           ret false)
    end
    init_failed.

(** *** [createLogger] and the two loggers it returns *)

(** [frame.file && frame.line ? `${frame.file}:${frame.line}` : undefined] *)
Definition fileLocationOf (frame : Frame) : option string :=
  if str_truthy (file frame) && num_truthy (line frame)
  then Some (default "" (file frame) +:+ ":" +:+ numberToString (default 0 (line frame)))
  else None.

(** The array literal holding the cause chain. *)
Definition arrayOf (l : list string) : Obj :=
  mkObj ArrayObject
    (<["length" := VNum (Z.of_nat (length l))]>
       (list_to_map (imap (fun i s => (numberToString (Z.of_nat i), VStr s)) l)))
    {["length"]}.

(** [{stack: e.stack, name: e.name, causeChain, ...metaObj}] *)
Definition enrichMeta (e : JsVal) (causeChain : list string) (metaObj : JsVal)
    : M JsVal :=
  let! arr := alloc (arrayOf causeChain) in
  let! w := get_world in
  alloc (mkObj PlainObject
           (Js.spread (heap w) metaObj
            ∪ <["stack" := Js.get (heap w) e "stack"]>
                (<["name" := Js.get (heap w) e "name"]>
                   (<["causeChain" := arr]> ∅)))
           ∅).

Definition printCauseChain (causeChain : list string) : M unit :=
  match causeChain with
  | [] => ret tt
  | _ => emit (ConsoleLog [VStr (ansi "35" "Cause chain:" +:+ " "
                                 +:+ JsString.join " -> " causeChain)])
  end.

(** The call-site data every method but [error] on an [Error] gathers:
    the TypeScript lines of the captured stack and the location shown
    after the console line. *)
Definition callSite : M (string * option string) :=
  let callStack := captureCallStack in
  let! fullTsStack := lift (extractFullTsStacktrace (VStr callStack)) in
  let! frame := lift (extractFirstProjectFrame (VStr callStack)) in
  ret (fullTsStack, fileLocationOf frame).

(** The same for the methods that do not persist: the location only. *)
Definition callLocation : M (option string) :=
  let callStack := captureCallStack in
  let! frame := lift (extractFirstProjectFrame (VStr callStack)) in
  ret (fileLocationOf frame).

Definition logger_info (message meta : JsVal) : M unit :=
  let! metaObj := safeMeta meta in
  let! '(fullTsStack, fileLocation) := callSite in
  let! w := get_world in
  let! text := lift (safeToStringMessage (heap w) message) in
  log "info" (VStr text) metaObj fileLocation;;
  storeInDB "info" message metaObj (Some fullTsStack).

Definition logger_error (message meta : JsVal) : M unit :=
  let! metaObj := safeMeta meta in
  let! w := get_world in
  if Js.instanceofError (heap w) message then
    let! causeChain := lift (buildCauseChain (heap w) message) in
    let stack := Js.get (heap w) message "stack" in
    let! fullTsStack := lift (extractFullTsStacktrace stack) in
    let! frame := lift (extractFirstProjectFrame stack) in
    let fileLocation := fileLocationOf frame in
    log "error" (Js.get (heap w) message "message") metaObj fileLocation;;
    (if Js.truthy stack then printStackEnhanced message else ret tt);;
    printCauseChain causeChain;;
    let! enrichedMeta := enrichMeta message causeChain metaObj in
    storeInDB "error" (Js.get (heap w) message "message") enrichedMeta
      (Some fullTsStack)
  else
    let! msgStr := lift (safeToStringMessage (heap w) message) in
    let! '(fullTsStack, fileLocation) := callSite in
    log "error" (VStr msgStr) metaObj fileLocation;;
    printStackEnhanced message;;
    storeInDB "error" (VStr msgStr) metaObj (Some fullTsStack).

Definition logger_errorEnriched (message error meta : JsVal) : M unit :=
  let! metaObj := safeMeta meta in
  let! w := get_world in
  if Js.instanceofError (heap w) error then
    let! causeChain := lift (buildCauseChain (heap w) error) in
    let stack := Js.get (heap w) error "stack" in
    let! fullTsStack := lift (extractFullTsStacktrace stack) in
    let! frame := lift (extractFirstProjectFrame stack) in
    let fileLocation := fileLocationOf frame in
    let! m := lift (ToString (heap w) message) in
    let! em := lift (ToString (heap w) (Js.get (heap w) error "message")) in
    log "error" (VStr (m +:+ ": " +:+ em)) metaObj fileLocation;;
    (if Js.truthy stack then printStackEnhanced error else ret tt);;
    printCauseChain causeChain;;
    let! enrichedMeta := enrichMeta error causeChain metaObj in
    storeInDB "error" (VStr (m +:+ ": " +:+ em)) enrichedMeta (Some fullTsStack)
  else
    let! errStr := lift (safeToStringMessage (heap w) error) in
    let! '(fullTsStack, fileLocation) := callSite in
    let! m := lift (ToString (heap w) message) in
    log "error" (VStr (m +:+ ": " +:+ errStr)) metaObj fileLocation;;
    printStackEnhanced error;;
    storeInDB "error" (VStr (m +:+ ": " +:+ errStr)) metaObj (Some fullTsStack).

Definition logger_warn (message meta : JsVal) : M unit :=
  let! metaObj := safeMeta meta in
  let! '(fullTsStack, fileLocation) := callSite in
  let! w := get_world in
  let! text := lift (safeToStringMessage (heap w) message) in
  log "warn" (VStr text) metaObj fileLocation;;
  storeInDB "warn" message metaObj (Some fullTsStack).

(** do not store debug logs in DB *)
Definition logger_debug (message meta : JsVal) : M unit :=
  let! fileLocation := callLocation in
  let! w := get_world in
  let! text := lift (safeToStringMessage (heap w) message) in
  let! metaObj := safeMeta meta in
  log "debug" (VStr text) metaObj fileLocation.

(** [typeof msg === 'object' ? jsonStringify(msg) : String(msg)] *)
Definition messageString (msg : JsVal) : M JsVal :=
  let! w := get_world in
  if String.eqb (Js.typeof msg) "object"
  then let! s := lift (jsonStringify rt (heap w) msg) in ret (opt_val s)
  else let! s := lift (ToString (heap w) msg) in ret (VStr s).

Definition fastifyLogger_info (msg : JsVal) (args : list JsVal) : M unit :=
  let! messageString := messageString msg in
  let! fileLocation := callLocation in
  log "info" messageString VUndef fileLocation.

Definition fastifyLogger_error (msg : JsVal) (args : list JsVal) : M unit :=
  let! w := get_world in
  let! errorMessage :=
    (if Js.truthy msg && Js.truthy (Js.get (heap w) msg "message")
     then ret (Js.get (heap w) msg "message")
     else let! s := lift (ToString (heap w) msg) in ret (VStr s)) in
  let meta := default VUndef (head args) in
  let callStack :=
    if Js.truthy (Js.get (heap w) msg "stack") then Js.get (heap w) msg "stack"
    else VStr captureCallStack in
  let! fullTsStack := lift (extractFullTsStacktrace callStack) in
  let! frame := lift (extractFirstProjectFrame callStack) in
  let fileLocation := fileLocationOf frame in
  log "error" errorMessage meta fileLocation;;
  let! stored :=
    (if String.eqb (Js.typeof msg) "object"
     then let! s := lift (jsonStringify rt (heap w) msg) in ret (opt_val s)
     else ret errorMessage) in
  storeInDB "error" stored meta (Some fullTsStack).

Definition fastifyLogger_warn (msg : JsVal) (args : list JsVal) : M unit :=
  let! messageString := messageString msg in
  let! '(fullTsStack, fileLocation) := callSite in
  log "warn" messageString VUndef fileLocation;;
  storeInDB "warn" messageString VUndef (Some fullTsStack).

(** do not store debug logs in DB *)
Definition fastifyLogger_debug (msg : JsVal) (args : list JsVal) : M unit :=
  let! fileLocation := callLocation in
  let! w := get_world in
  let! s := lift (ToString (heap w) msg) in
  log "debug" (VStr s) VUndef fileLocation.

Definition fastifyLogger_fatal (msg : JsVal) (args : list JsVal) : M unit :=
  let! messageString := messageString msg in
  let! '(fullTsStack, fileLocation) := callSite in
  log "error" messageString VUndef fileLocation;;
  storeInDB "error" messageString VUndef (Some fullTsStack);;
  emit (SetTimeoutExit 1 100).

Definition fastifyLogger_trace (msg : JsVal) (args : list JsVal) : M unit := ret tt.

(** [child] hands back the same logger: nothing happens. *)
Definition fastifyLogger_child (bindings : JsVal) : M unit := ret tt.

(** The two process-wide handlers registered by [createLogger]. *)
Definition onUncaughtException (err : JsVal) : M unit :=
  let! w := get_world in
  emit (ConsoleError [VStr "=== UNCAUGHT EXCEPTION ==="]);;
  emit (ConsoleError [err]);;
  (if Js.truthy err && Js.truthy (Js.get (heap w) err "stack")
   then emit (ConsoleError [Js.get (heap w) err "stack"]) else ret tt);;
  try_catch (logger_error (VStr "UncaughtException") err)
    (fun logErr =>
       emit (ConsoleError [VStr "Failed to log uncaught exception:"; logErr]));;
  emit (SetTimeoutExit 1 100).

Definition onUnhandledRejection (reason : JsVal) : M unit :=
  let! w := get_world in
  emit (ConsoleError [VStr "=== UNHANDLED REJECTION ==="]);;
  emit (ConsoleError [reason]);;
  (if Js.truthy reason && Js.truthy (Js.get (heap w) reason "stack")
   then emit (ConsoleError [Js.get (heap w) reason "stack"]) else ret tt);;
  try_catch (logger_error (VStr "UnhandledRejection") reason)
    (fun logErr =>
       emit (ConsoleError [VStr "Failed to log unhandled rejection:"; logErr])).

Definition createLogger (config : LoggerConfig) : M unit :=
  let configuredLevel :=
    if str_truthy (logLevel config) then default "" (logLevel config)
    else if str_truthy (LOG_LEVEL rt) then default "" (LOG_LEVEL rt)
    else if is_dev then "debug" else "info" in
  modify (set_currentLogLevel (default (Rank 1) (LOG_LEVELS_at configuredLevel)));;
  match mysql config with
  | Some _ =>
      try_catch (initializeConnection config)
        (fun err =>
           emit (ConsoleError [VStr "Error during log database initialization:"; err]))
  | None => ret tt
  end;;
  emit (ProcessOn "uncaughtException");;
  emit (ProcessOn "unhandledRejection").

End Logger.

(** ** Calls, asynchronous steps, executions *)

(** A call of one method of [logger] or of [fastifyLogger]. *)
Inductive Call : Type :=
| LoggerInfo (message meta : JsVal)
| LoggerError (message meta : JsVal)
| LoggerErrorEnriched (message error meta : JsVal)
| LoggerWarn (message meta : JsVal)
| LoggerDebug (message meta : JsVal)
| FastifyInfo (msg : JsVal) (args : list JsVal)
| FastifyError (msg : JsVal) (args : list JsVal)
| FastifyWarn (msg : JsVal) (args : list JsVal)
| FastifyDebug (msg : JsVal) (args : list JsVal)
| FastifyFatal (msg : JsVal) (args : list JsVal)
| FastifyTrace (msg : JsVal) (args : list JsVal)
| FastifyChild (bindings : JsVal).

Definition call (rt : Runtime) (c : Call) : M unit :=
  match c with
  | LoggerInfo message meta => logger_info rt message meta
  | LoggerError message meta => logger_error rt message meta
  | LoggerErrorEnriched message error meta => logger_errorEnriched rt message error meta
  | LoggerWarn message meta => logger_warn rt message meta
  | LoggerDebug message meta => logger_debug rt message meta
  | FastifyInfo msg args => fastifyLogger_info rt msg args
  | FastifyError msg args => fastifyLogger_error rt msg args
  | FastifyWarn msg args => fastifyLogger_warn rt msg args
  | FastifyDebug msg args => fastifyLogger_debug rt msg args
  | FastifyFatal msg args => fastifyLogger_fatal rt msg args
  | FastifyTrace msg args => fastifyLogger_trace msg args
  | FastifyChild bindings => fastifyLogger_child bindings
  end.

(** The level string a call hands to [log]; [trace] and [child] log nothing. *)
Definition call_level (c : Call) : option string :=
  match c with
  | LoggerInfo _ _ | FastifyInfo _ _ => Some "info"
  | LoggerWarn _ _ | FastifyWarn _ _ => Some "warn"
  | LoggerDebug _ _ | FastifyDebug _ _ => Some "debug"
  | LoggerError _ _ | LoggerErrorEnriched _ _ _ | FastifyError _ _ | FastifyFatal _ _ =>
      Some "error"
  | FastifyTrace _ _ | FastifyChild _ => None
  end.

(** What can happen next in a process that has loaded the module. *)
Inductive Action : Type :=
| CreateLogger (config : LoggerConfig)
| Invoke (c : Call)
(** the [i]-th parked activation of [initializeConnection] is resumed *)
| Resume (i : nat) (r : Settled)
(** a detached insert settles *)
| SettleInsert (r : Settled)
| UncaughtException (err : JsVal)
| UnhandledRejection (reason : JsVal)
(** application code runs and leaves the object heap as [h] *)
| Application (h : gmap positive Obj).

Definition step (rt : Runtime) (a : Action) : M unit :=
  match a with
  | CreateLogger config => createLogger rt config
  | Invoke c => call rt c
  | Resume i r =>
      fun w =>
        match tasks w !! i with
        | Some t => initializeConnection_resume rt t r (set_tasks (delete i (tasks w)) w)
        | None => (Ret tt, w, [])
        end
  | SettleInsert r =>
      fun w =>
        match inflight w, r with
        | S n, Rejected e => storeInDB_onRejected rt e (set_inflight n w)
        | S n, Fulfilled _ => (Ret tt, set_inflight n w, [])
        | O, _ => (Ret tt, w, [])
        end
  | UncaughtException err => onUncaughtException rt err
  | UnhandledRejection reason => onUnhandledRejection rt reason
  | Application h => modify (set_heap h)
  end.

(** An execution: the final state and everything that was observable.  A
    throw that escapes a step goes to the caller and is not recorded. *)
Fixpoint run (rt : Runtime) (acts : list Action) (w : World) : World * list Event :=
  match acts with
  | [] => (w, [])
  | a :: rest =>
      let r := step rt a w in
      let r' := run rt rest (world r) in
      (r'.1, events r ++ r'.2)
  end.

(** Two states with the same module-level variables and parked activations
    (they may differ in the heap and in the count of unsettled inserts). *)
Definition same (w0 w : World) : Prop :=
  conn w = conn w0 ∧ dbInitialized w = dbInitialized w0
  ∧ currentLogLevel w = currentLogLevel w0 ∧ tasks w = tasks w0.

(** The store state of the specification, read off the module variables. *)
Definition Ready (w : World) : Prop := is_Some (conn w) ∧ dbInitialized w = true.

(** A configuration without store settings. *)
Definition no_store (a : Action) : Prop :=
  match a with
  | CreateLogger config => mysql config = None
  | _ => True
  end.

(** ** Reachability along [cause] references *)

(** [reachable h v l]: [l] is [v] itself or is met by following [cause]
    references from [v]. *)
Inductive reachable (h : gmap positive Obj) (v : JsVal) : positive -> Prop :=
| reachable_here l : v = VObj l -> reachable h v l
| reachable_cause l l' :
    reachable h v l -> Js.get h (VObj l) "cause" = VObj l' -> reachable h v l'.

(** [cause_path h v ls]: following [cause] from [v] meets exactly the objects
    [ls], in this order, and then a value that is not an object. *)
Inductive cause_path (h : gmap positive Obj) : JsVal -> list positive -> Prop :=
| cause_path_end v : (forall l, v <> VObj l) -> cause_path h v []
| cause_path_step l ls :
    cause_path h (Js.get h (VObj l) "cause") ls -> cause_path h (VObj l) (l :: ls).

(** ** The engine under the runtime, executable

    The four regular expressions of the source and the two functions of
    [path] it calls, as Node.js evaluates them, so that the logger can be
    run on concrete stacks.  The theorems do not depend on these
    definitions: they hold for every [Runtime]. *)

Module Node.

(** Regular expressions, as far as the source uses them.  Matching is
    ECMAScript's: leftmost, every quantifier greedy, backtracking into the
    shorter alternatives when what follows fails. *)
Inductive Re : Type :=
| Eps
| Lit (s : string)
| Cls (p : ascii -> bool)
(** [[...]+] *)
| Plus (p : ascii -> bool)
(** [(...)?] *)
| Opt (r : Re)
| Seq (a b : Re)
(** the [i]-th pair of capturing parentheses *)
| Grp (i : nat) (r : Re).

Definition cat (l : list Re) : Re := foldr Seq Eps l.

Fixpoint strip_prefix (p s : string) : option string :=
  match p, s with
  | EmptyString, _ => Some s
  | String a p', String b s' => if Ascii.eqb a b then strip_prefix p' s' else None
  | String _ _, EmptyString => None
  end.

(** The text of [s] that was consumed when [rest] is what is left of it. *)
Definition taken (s rest : string) : string :=
  substring 0 (String.length s - String.length rest) s.

(** [[p]+] followed by [k]: the longest run first. *)
Fixpoint longest_first {R} (p : ascii -> bool) (s : string) (k : string -> option R)
    : option R :=
  match s with
  | String a s' =>
      if p a then
        match longest_first p s' k with
        | Some x => Some x
        | None => k s'
        end
      else None
  | EmptyString => None
  end.

(** [run r s caps k]: match [r] at the head of [s] and go on with [k] on
    what is left; [caps] are the groups captured so far. *)
Fixpoint run {R} (r : Re) (s : string) (caps : list (nat * string))
    (k : string -> list (nat * string) -> option R) : option R :=
  match r with
  | Eps => k s caps
  | Lit l =>
      match strip_prefix l s with
      | Some s' => k s' caps
      | None => None
      end
  | Cls p =>
      match s with
      | String a s' => if p a then k s' caps else None
      | EmptyString => None
      end
  | Plus p => longest_first p s (fun s' => k s' caps)
  | Opt r' =>
      match run r' s caps k with
      | Some x => Some x
      | None => k s caps
      end
  | Seq a b => run a s caps (fun s' caps' => run b s' caps' k)
  | Grp i r' => run r' s caps (fun s' caps' => k s' ((i, taken s s') :: caps'))
  end.

Definition group (i : nat) (caps : list (nat * string)) : string :=
  default "" (snd <$> List.find (fun c => Nat.eqb (fst c) i) caps).

(** [s.match(r)] for a pattern without the [g] flag: the groups
    [m[1], ..., m[n]] of the leftmost match (an unset group reads as the
    empty string; the source reads none that can be unset). *)
Fixpoint exec (n : nat) (r : Re) (s : string) : option (list string) :=
  match run r s [] (fun _ caps => Some caps) with
  | Some caps => Some (map (fun i => group i caps) (seq 1 n))
  | None =>
      match s with
      | String _ s' => exec n r s'
      | EmptyString => None
      end
  end.

(** [s.replace(r, (match, g1) => f g1)] for a pattern with the [g] flag
    that matches no empty text; [skip] counts the characters of the current
    match that are still to be passed over. *)
Fixpoint replace_go (r : Re) (f : string -> string) (skip : nat) (s : string) : string :=
  match skip with
  | S k =>
      match s with
      | String _ s' => replace_go r f k s'
      | EmptyString => EmptyString
      end
  | O =>
      match s with
      | String a s' =>
          match run r s [] (fun rest caps =>
                              Some (String.length s - String.length rest, caps))%nat with
          | Some (S n, caps) => f (group 1 caps) +:+ replace_go r f n s'
          | _ => String a (replace_go r f 0 s')
          end
      | EmptyString => EmptyString
      end
  end.

Definition replace (r : Re) (f : string -> string) (s : string) : string :=
  replace_go r f 0 s.

(** The character classes of the patterns ([\s] on ASCII). *)
Definition space (c : ascii) : bool :=
  let n := nat_of_ascii c in ((9 <=? n) && (n <=? 13) || (n =? 32))%nat.
Definition digit (c : ascii) : bool := JsString.is_digit c.
Definition no_rparen (c : ascii) : bool := negb (Ascii.eqb c ")").
Definition no_paren (c : ascii) : bool := negb (Ascii.eqb c "(" || Ascii.eqb c ")").
Definition no_space (c : ascii) : bool := negb (space c).

Definition pattern (re : Regex) : Re :=
  match re with
  | RePaths => cat [Lit "("; Grp 1 (Plus no_rparen); Lit ")"]
  | ReAtPaths =>
      cat [Lit "at"; Plus space;
           Grp 1 (cat [Plus no_space; Lit ":"; Plus digit; Lit ":"; Plus digit])]
  | ReFrameParen =>
      cat [Lit "("; Grp 1 (cat [Plus no_paren; Lit ".ts"]); Lit ":";
           Grp 2 (Plus digit); Lit ":"; Grp 3 (Plus digit); Lit ")"]
  | ReFrameBare =>
      cat [Cls space; Opt (Grp 1 (cat [Lit "at"; Cls space]));
           Grp 2 (cat [Plus no_paren; Lit ".ts"]); Lit ":";
           Grp 3 (Plus digit); Lit ":"; Grp 4 (Plus digit)]
  end.

Definition groups (re : Regex) : nat :=
  match re with
  | RePaths | ReAtPaths => 1
  | ReFrameParen => 3
  | ReFrameBare => 4
  end.

Definition regex_match (re : Regex) (s : string) : option (list string) :=
  exec (groups re) (pattern re) s.

Definition regex_replace (re : Regex) (f : string -> string) (s : string) : string :=
  replace (pattern re) f s.

(** The segments of an absolute POSIX path after [path.resolve]: empty
    segments and [.] dropped, [..] applied. *)
Fixpoint resolve_go (done : list string) (segs : list string) : list string :=
  match segs with
  | [] => rev done
  | seg :: rest =>
      if String.eqb seg "" || String.eqb seg "." then resolve_go done rest
      else if String.eqb seg ".." then resolve_go (tail done) rest
      else resolve_go (seg :: done) rest
  end.

Definition resolve (p : string) : list string :=
  resolve_go [] (JsString.split "/" p).

Fixpoint common (a b : list string) : nat :=
  match a, b with
  | x :: a', y :: b' => if String.eqb x y then S (common a' b') else O
  | _, _ => O
  end.

(** [path.relative(from, to)] and [path.join(a, b)] on POSIX, for an
    absolute [from], [to] and [a]. *)
Definition relative (from to : string) : string :=
  let f := resolve from in
  let t := resolve to in
  let n := common f t in
  JsString.join "/" (replicate (length f - n) ".." ++ drop n t).

Definition join (a b : string) : string :=
  "/" +:+ JsString.join "/" (resolve (a +:+ "/" +:+ b)).

End Node.

(** ** A concrete runtime and concrete objects for the examples *)

Module Demo.

(** The source file of the application. *)
Definition app_ts : string :=
  JsString.join JsString.nl ["1"; "2"; "3"; "4"; "5"; "6"; "7"; "8"; "9"; "10"].

(** The stack of an [Error] created inside the logger when the application,
    running from [/app], calls it at [src/app.ts:7:3]. *)
Definition stack_of (message : string) : string :=
  JsString.join JsString.nl
    [(if JsString.nonempty message then "Error: " +:+ message else "Error");
     (if JsString.nonempty message
      then "    at printStackEnhanced (/app/node_modules/@gratheon/log-lib/dist/logger.js:250:23)"
      else "    at captureCallStack (/app/node_modules/@gratheon/log-lib/dist/logger.js:210:17)");
     "    at Object.log (/app/node_modules/@gratheon/log-lib/dist/logger.js:310:31)";
     "    at main (/app/src/app.ts:7:3)"].

(** A process started in [/app] on a file system that holds
    [/app/src/app.ts], with the regular expressions and paths of [Node] and
    a MySQL client that never fails on the spot.  What the serialiser
    answers is a parameter ([None] is [undefined], on which [.slice] fails);
    the examples hand it empty metadata only, for which it is ["{}"]. *)
Definition runtime (env : option string) (json : option string) : Runtime :=
  {| ENV_ID := env;
     LOG_LEVEL := None;
     cwd := "/app";
     toISOString := "2024-01-02T03:04:05.678Z";
     errorStack := fun message => Some (stack_of message);
     typeError := VStr "TypeError";
     jsonStringify := fun _ _ => Ret json;
     toStringObj := fun _ _ => Ret "[object Object]";
     path_relative := Node.relative;
     path_join := Node.join;
     existsSync := fun p => String.eqb p "/app/src/app.ts";
     readFileSync := fun p =>
       if String.eqb p "/app/src/app.ts" then Ret app_ts
       else Throw (VStr "ENOENT");
     regex_replace := Node.regex_replace;
     regex_match := Node.regex_match;
     createConnectionPool_throws := fun _ => None;
     query_throws := fun _ _ => None;
     dispose_throws := fun _ => None |}.

Definition prod : Runtime := runtime (Some "prod") (Some "{}").
Definition dev : Runtime := runtime (Some "dev") (Some "{}").

(** The same process as [prod] with a MySQL client that cannot resolve the
    host: [createConnectionPool] fails on the spot. *)
Definition offline : Runtime :=
  {| ENV_ID := ENV_ID prod;
     LOG_LEVEL := LOG_LEVEL prod;
     cwd := cwd prod;
     toISOString := toISOString prod;
     errorStack := errorStack prod;
     typeError := typeError prod;
     jsonStringify := jsonStringify prod;
     toStringObj := toStringObj prod;
     path_relative := path_relative prod;
     path_join := path_join prod;
     existsSync := existsSync prod;
     readFileSync := readFileSync prod;
     regex_replace := regex_replace prod;
     regex_match := regex_match prod;
     createConnectionPool_throws := fun _ => Some (VStr "ENOTFOUND");
     query_throws := query_throws prod;
     dispose_throws := dispose_throws prod |}.

Definition mysqlConfig : MysqlConfig := mkMysql "localhost" 3306 "root" "test" None.
Definition pool : Pool := mainPool mysqlConfig "logs".

(** Store configured and initialised; minimum level [warn]. *)
Definition ready_warn : World := mkWorld ∅ (Some pool) true (Rank 2) [] 0.

(** Store configured and initialised; minimum level [info]. *)
Definition ready_info : World := mkWorld ∅ (Some pool) true (Rank 1) [] 0.

Definition long (n : nat) : string := JsString.repeat "a" n.

(** [createLogger({mysql: ..., logLevel: 'warn'})] followed by the four
    settlements that carry the initialisation to its end. *)
Definition boot_warn : list Action :=
  [CreateLogger (mkConfig (Some mysqlConfig) (Some "warn"));
   Resume 0 (Fulfilled 0); Resume 0 (Fulfilled 0); Resume 0 (Fulfilled 0);
   Resume 0 (Fulfilled 1)].

(** [createLogger({logLevel: 'warn'})]: no store settings. *)
Definition console_only_warn : list Action :=
  [CreateLogger (mkConfig None (Some "warn"))].

(** [createLogger({})] *)
Definition console_only : list Action := [CreateLogger (mkConfig None None)].

(** The own properties the [Error] constructor installs are not enumerable. *)
Definition error_hidden : gset string := {["message"; "stack"; "cause"]}.

(** [Object.assign(new Error(message, {cause}), {name})] *)
Definition errorObj (name message : string) (cause : JsVal) : Obj :=
  mkObj ErrorObject
    (<["name" := VStr name]> (<["message" := VStr message]> (<["cause" := cause]> ∅)))
    error_hidden.

(** [A (cause: B (cause: C))] *)
Definition chainABC : gmap positive Obj :=
  <[1%positive := errorObj "A" "top" (VObj 2%positive)]>
    (<[2%positive := errorObj "B" "middle" (VObj 3%positive)]>
       (<[3%positive := errorObj "C" "root" VUndef]> ∅)).

(** [A (cause: B (cause: A))]: a cycle through the error itself. *)
Definition cycleAB : gmap positive Obj :=
  <[1%positive := errorObj "A" "top" (VObj 2%positive)]>
    (<[2%positive := errorObj "B" "middle" (VObj 1%positive)]> ∅).

(** [A (cause: {message: 'inner'})]: the cause is a plain object without a
    name. *)
Definition plainCause : gmap positive Obj :=
  <[1%positive := errorObj "A" "top" (VObj 2%positive)]>
    (<[2%positive := mkObj PlainObject (<["message" := VStr "inner"]> ∅) ∅]> ∅).

(** An error and, beside it, the metadata object
    [{name: 'shadow', requestId: 'r1'}] of a caller. *)
Definition withMeta : gmap positive Obj :=
  <[1%positive := errorObj "A" "top" VUndef]>
    (<[2%positive :=
         mkObj PlainObject
           (<["name" := VStr "shadow"]> (<["requestId" := VStr "r1"]> ∅)) ∅]> ∅).

(** An error with a stack that names an application frame. *)
Definition withStack : gmap positive Obj :=
  <[1%positive :=
      mkObj ErrorObject
        (<["message" := VStr "boom"]>
           (<["stack" := VStr ("Error: boom" +:+ JsString.nl
                               +:+ "    at f (/app/src/app.ts:7:3)")]> ∅))
        error_hidden]> ∅.

End Demo.

(** ** Vocabulary of the statements *)

(** [keeps w0 P m w]: running [m] from [w] produces only effects that
    satisfy [P] and leaves the module-level variables as they are in [w0]. *)
Definition keeps {A} (w0 : World) (P : Event -> Prop) (m : M A) (w : World) : Prop :=
  Forall P (events (m w)) ∧ same w0 (world (m w)).

(** [m] completes normally from [w]. *)
Definition returns {A} (m : M A) (w : World) : Prop :=
  exists a, outcome (m w) = Ret a.

(** If [m] throws from [w], nothing had gone to the network before. *)
Definition throws_before_net {A} (m : M A) (w : World) : Prop :=
  forall e,
    outcome (m w) = Throw e ->
    Forall (fun ev => is_net ev = false) (events (m w)).

(** The methods that hand their record to [storeInDB]. *)
Definition persists (c : Call) : bool :=
  match c with
  | LoggerInfo _ _ | LoggerError _ _ | LoggerErrorEnriched _ _ _ | LoggerWarn _ _
  | FastifyError _ _ | FastifyWarn _ _ | FastifyFatal _ _ => true
  | _ => false
  end.

(** The methods that call [printStackEnhanced] and print the cause chain. *)
Definition prints_stack (c : Call) : bool :=
  match c with
  | LoggerError _ _ | LoggerErrorEnriched _ _ _ => true
  | _ => false
  end.

(** The effects a call may have when it starts from [w0]. *)
Definition footprint (rt : Runtime) (w0 : World) (c : Call) (e : Event) : Prop :=
  match e with
  | ConsoleLog _ =>
      prints_stack c = true
      ∨ exists lv, call_level c = Some lv ∧ filtered lv w0 = false
  | ConsoleError _ => persists c = true ∧ Ready w0
  | FsExistsSync _ | FsReadFileSync _ => prints_stack c = true ∧ is_dev rt = true
  | NetQuery p (Insert _ _ _ _) =>
      persists c = true ∧ dbInitialized w0 = true ∧ conn w0 = Some p
  | SetTimeoutExit _ _ => exists msg args, c = FastifyFatal msg args
  | _ => False
  end.

(** The activations parked after [conn = createConnectionPool(...)]. *)
Definition past_assignment (t : InitTask) : bool :=
  match t with
  | AwaitCreateTable | AwaitShowColumns | AwaitAlterTable => true
  | _ => false
  end.

(** The invariant behind the readiness flag: the flag, and every activation
    parked after the assignment of [conn], imply a pool handle. *)
Definition handle_inv (w : World) : Prop :=
  (dbInitialized w = true -> is_Some (conn w))
  ∧ (forall t, t ∈ tasks w -> past_assignment t = true -> is_Some (conn w)).

(** The minimum level, when it is a number, is one of the four ranks of
    [LOG_LEVELS]. *)
Definition level_ok (w : World) : Prop :=
  forall n, currentLogLevel w = Rank n -> 0 <= n <= 3.

(** Neither variable is ever reset. *)
Definition monotone (w w' : World) : Prop :=
  (is_Some (conn w) -> is_Some (conn w'))
  ∧ (dbInitialized w = true -> dbInitialized w' = true).

(** The store has never been configured: no handle, flag down, nothing
    parked. *)
Definition store_off (w : World) : Prop :=
  conn w = None ∧ dbInitialized w = false ∧ tasks w = [].

(** The effects of a process-wide handler that reports [v]: those of the
    [logger.error] call it makes, raw console errors, and the exit timer. *)
Definition hook_footprint (rt : Runtime) (w0 : World) (v : JsVal) (e : Event) : Prop :=
  (exists m, footprint rt w0 (LoggerError m v) e)
  ∨ (exists args, e = ConsoleError args)
  ∨ (exists code delay, e = SetTimeoutExit code delay).

(** If [m] completes normally from [w], it has printed a console line. *)
Definition renders {A} (m : M A) (w : World) : Prop :=
  forall a,
    outcome (m w) = Ret a ->
    Exists (fun ev => is_console_log ev = true) (events (m w)).

(** What a call at level [lv] does when its console line is filtered: it
    prints nothing; if it throws it has done nothing at all; if it completes
    and the store was not ready it has done nothing either; and if it
    completes and the store was ready, it has sent exactly one insert at its
    level on the pool, or reported that the record could not be prepared. *)
Definition store_only (w0 : World) (lv : string) (evs : list Event) (o : Outcome unit)
    : Prop :=
  (forall e, o = Throw e -> evs = [])
  ∧ (o = Ret tt ->
     (conn w0 = None ∨ dbInitialized w0 = false -> evs = [])
     ∧ (forall p,
           conn w0 = Some p -> dbInitialized w0 = true ->
           (exists msg metaStr stackStr,
               evs = [NetQuery p (Insert lv msg metaStr stackStr)])
           ∨ (exists e,
                 evs = [ConsoleError
                          [VStr "Unexpected failure preparing log for DB"; e]]))).

(** ** Vocabulary of the further properties *)

(** The network operations among some effects, in order. *)
Definition net_events (evs : list Event) : list Event := List.filter is_net evs.

Definition is_exit (e : Event) : bool :=
  match e with SetTimeoutExit _ _ => true | _ => false end.

Definition is_process_on (e : Event) : bool :=
  match e with ProcessOn _ => true | _ => false end.

(** What a call may send: nothing, or one insert at the level of the call
    on the pool that [conn] holds, and only when the store is ready. *)
Definition one_insert (w0 : World) (c : Call) (sent : list Event) : Prop :=
  sent = []
  ∨ exists p lv msg meta st,
      call_level c = Some lv ∧ persists c = true
      ∧ conn w0 = Some p ∧ dbInitialized w0 = true
      ∧ sent = [NetQuery p (Insert lv msg meta st)].

(** The activations parked inside the migration [try]. *)
Definition in_migration (t : InitTask) : bool :=
  match t with
  | AwaitShowColumns | AwaitAlterTable => true
  | _ => false
  end.

(** A client that never fails on the spot. *)
Definition client_ok (rt : Runtime) : Prop :=
  (forall p, createConnectionPool_throws rt p = None)
  ∧ (forall p q, query_throws rt p q = None)
  ∧ (forall p, dispose_throws rt p = None).

(** The level name [createLogger] resolves:
    [config.logLevel || process.env.LOG_LEVEL || (dev ? 'debug' : 'info')] *)
Definition configuredLevel (rt : Runtime) (config : LoggerConfig) : string :=
  if str_truthy (logLevel config) then default "" (logLevel config)
  else if str_truthy (LOG_LEVEL rt) then default "" (LOG_LEVEL rt)
  else if is_dev rt then "debug" else "info".

(** [config.mysql.database || 'logs'] *)
Definition databaseName (c : MysqlConfig) : string :=
  if str_truthy (database c) then default "logs" (database c) else "logs".

Definition is_console_error (e : Event) : bool :=
  match e with ConsoleError _ => true | _ => false end.

(** What goes wrong, if anything, in the part of [initializeConnection]
    that runs inside the call: the bootstrap pool cannot be created, or the
    client refuses [CREATE DATABASE] on the spot. *)
Definition start_failure (rt : Runtime) (c : MysqlConfig) : option JsVal :=
  match createConnectionPool_throws rt (tempPool c) with
  | Some e => Some e
  | None => query_throws rt (tempPool c) (CreateDatabase (databaseName c))
  end.

(** What goes wrong when [conn.query(q)] is called in state [w]. *)
Definition conn_failure (rt : Runtime) (w : World) (q : Query) : option JsVal :=
  match conn w with
  | Some p => query_throws rt p q
  | None => Some (typeError rt)
  end.

(** What goes wrong, if anything, when the activation parked at [t] goes on
    with the settlement [r] in state [w], and the banner under which the
    [catch] that receives it reports it: a rejection of the awaited promise,
    or a call of the client that fails on the spot. *)
Definition resume_failure (rt : Runtime) (t : InitTask) (r : Settled) (w : World)
    : option (string * JsVal) :=
  let setup := "Failed to initialize logs database:" in
  let migration := "[log-lib] Migration failed (non-critical):" in
  match t, r with
  | AwaitCreateDatabase _ _ _, Rejected e
  | AwaitDispose _ _, Rejected e
  | AwaitCreateTable, Rejected e => Some (setup, e)
  | AwaitShowColumns, Rejected e
  | AwaitAlterTable, Rejected e => Some (migration, e)
  | AwaitCreateDatabase _ _ tempConn, Fulfilled _ =>
      pair setup <$> dispose_throws rt tempConn
  | AwaitDispose c db, Fulfilled _ =>
      match createConnectionPool_throws rt (mainPool c db) with
      | Some e => Some (setup, e)
      | None => pair setup <$> query_throws rt (mainPool c db) CreateTable
      end
  | AwaitCreateTable, Fulfilled _ => pair migration <$> conn_failure rt w ShowColumns
  | AwaitShowColumns, Fulfilled O =>
      pair migration <$> conn_failure rt w AlterAddStacktrace
  | AwaitShowColumns, Fulfilled (S _) => None
  | AwaitAlterTable, Fulfilled _ => None
  end.

(** [createLogger(config)] and the settlements of the four awaits that
    every initialisation goes through, the last one answering [columns] rows
    to [SHOW COLUMNS]. *)
Definition boot (config : LoggerConfig) (columns : nat) : list Action :=
  [CreateLogger config; Resume 0 (Fulfilled 0); Resume 0 (Fulfilled 0);
   Resume 0 (Fulfilled 0); Resume 0 (Fulfilled columns)].

(** [cause_walk h v ls v']: following [cause] from [v] meets the objects
    [ls], in this order, and arrives at [v']. *)
Inductive cause_walk (h : gmap positive Obj) : JsVal -> list positive -> JsVal -> Prop :=
| cause_walk_nil v : cause_walk h v [] v
| cause_walk_cons l ls v :
    cause_walk h (Js.get h (VObj l) "cause") ls v -> cause_walk h (VObj l) (l :: ls) v.

(** A value that is not a reference to an unallocated object. *)
Definition live (h : gmap positive Obj) (v : JsVal) : Prop :=
  forall l, v = VObj l -> l ∈ dom h.

Fixpoint contains_char (c : ascii) (s : string) : bool :=
  match s with
  | EmptyString => false
  | String a r => Ascii.eqb a c || contains_char c r
  end.

Fixpoint all_digits (s : string) : bool :=
  match s with
  | EmptyString => true
  | String a r => JsString.is_digit a && all_digits r
  end.

(** If [m] completes normally from [w], the last thing it did is [e0]. *)
Definition ends_with {A} (e0 : Event) (m : M A) (w : World) : Prop :=
  forall a, outcome (m w) = Ret a -> last (events (m w)) = Some e0.

(** The path [buildCodeFrame] opens for the file [f] of a frame. *)
Definition codeFramePath (rt : Runtime) (f : string) : string :=
  if JsString.startsWith "/" f then f else path_join rt (cwd rt) f.

(** * Properties *)

(** ** String facts *)

Lemma substring_0_length (n : nat) (s : string) :
  String.length (substring 0 n s) = Nat.min n (String.length s).
Proof.
  revert n. induction s as [|c s IH]; intros [|n]; simpl; auto.
Qed.

Lemma slice0_length (n : nat) (s : string) :
  String.length (JsString.slice0 n s) = Nat.min n (String.length s).
Proof. apply substring_0_length. Qed.

Lemma slice0_long (n : nat) (s : string) :
  (n <= String.length s)%nat -> String.length (JsString.slice0 n s) = n.
Proof. intros. rewrite slice0_length. lia. Qed.

Lemma repeat_length (n : nat) :
  String.length (JsString.repeat "a" n) = n.
Proof. induction n; simpl; auto. Qed.

(** ** The computation rules *)

Lemma same_refl w : same w w.
Proof. repeat split. Qed.

Lemma same_trans w0 w1 w2 : same w0 w1 -> same w1 w2 -> same w0 w2.
Proof. unfold same. intros (?&?&?&?) (?&?&?&?). repeat split; congruence. Qed.

Lemma same_set_heap w0 w h : same w0 w -> same w0 (set_heap h w).
Proof. unfold same. simpl. tauto. Qed.

Lemma same_set_inflight w0 w n : same w0 w -> same w0 (set_inflight n w).
Proof. unfold same. simpl. tauto. Qed.

Lemma filtered_same level w0 w : same w0 w -> filtered level w = filtered level w0.
Proof. unfold same, filtered. intros (_&_&->&_). reflexivity. Qed.

Section Rules.

Context {A B : Type} (w0 : World) (P : Event -> Prop).

Lemma keeps_ret (a : A) w : same w0 w -> keeps w0 P (ret a) w.
Proof. intros H. split; [constructor | exact H]. Qed.

Lemma keeps_throw e w : same w0 w -> keeps w0 P (throw (A := A) e) w.
Proof. intros H. split; [constructor | exact H]. Qed.

Lemma keeps_lift (o : Outcome A) w : same w0 w -> keeps w0 P (lift o) w.
Proof. intros H. split; [constructor | exact H]. Qed.

Lemma keeps_emit e w : P e -> same w0 w -> keeps w0 P (emit e) w.
Proof. intros He H. split; [repeat constructor; exact He | exact H]. Qed.

Lemma keeps_alloc o w : same w0 w -> keeps w0 P (alloc o) w.
Proof. intros H. split; [constructor | by apply same_set_heap]. Qed.

Lemma keeps_bind (m : M A) (k : A -> M B) w :
  keeps w0 P m w ->
  (forall a w', same w0 w' -> keeps w0 P (k a) w') ->
  keeps w0 P (bind m k) w.
Proof.
  unfold keeps, bind, events, world. intros [Hev Hs] Hk.
  destruct (m w) as [[[a|e] w1] ev1]; simpl in *; [|done].
  specialize (Hk a w1 Hs). destruct (k a w1) as [[o2 w2] ev2]; simpl in *.
  destruct Hk. split; [by apply Forall_app | done].
Qed.

Lemma keeps_get_world (k : World -> M B) w :
  keeps w0 P (k w) w -> keeps w0 P (bind get_world k) w.
Proof.
  unfold keeps, bind, get_world, events, world. simpl.
  destruct (k w w) as [[o2 w2] ev2]; simpl. done.
Qed.

Lemma keeps_try_catch (m : M A) (h : JsVal -> M A) w :
  keeps w0 P m w ->
  (forall e w', same w0 w' -> keeps w0 P (h e) w') ->
  keeps w0 P (try_catch m h) w.
Proof.
  unfold keeps, try_catch, events, world. intros [Hev Hs] Hh.
  destruct (m w) as [[[a|e] w1] ev1]; simpl in *; [done|].
  specialize (Hh e w1 Hs). destruct (h e w1) as [[o2 w2] ev2]; simpl in *.
  destruct Hh. split; [by apply Forall_app | done].
Qed.

End Rules.

Lemma keeps_weaken {A} w0 (P Q : Event -> Prop) (m : M A) w :
  (forall e, P e -> Q e) -> keeps w0 P m w -> keeps w0 Q m w.
Proof. intros HPQ [Hev Hs]. split; [by eapply Forall_impl | done]. Qed.

Ltac keeps_step :=
  lazymatch goal with
  | |- keeps _ _ (bind get_world _) _ => apply keeps_get_world
  | |- keeps _ _ (bind _ _) _ => apply keeps_bind; [ | intros ? ? ? ]
  | |- keeps _ _ (try_catch _ _) _ => apply keeps_try_catch; [ | intros ? ? ? ]
  | |- keeps _ _ (ret _) _ => apply keeps_ret; try assumption
  | |- keeps _ _ (throw _) _ => apply keeps_throw; try assumption
  | |- keeps _ _ (lift _) _ => apply keeps_lift; try assumption
  | |- keeps _ _ (alloc _) _ => apply keeps_alloc; try assumption
  | |- keeps _ _ (emit _) _ => apply keeps_emit; try assumption
  | |- keeps _ _ (if ?b then _ else _) _ => destruct b eqn:?
  | |- keeps _ _ (match ?x with _ => _ end) _ => destruct x eqn:?
  end.

Ltac keeps_auto := repeat keeps_step.

Lemma keeps_modify w0 (P : Event -> Prop) (f : World -> World) w :
  same w0 (f w) -> keeps w0 P (modify f) w.
Proof. intros H. split; [constructor | exact H]. Qed.

(** ** What each function of the logger may do *)

Section Footprints.

Variable rt : Runtime.
Context (w0 : World) (P : Event -> Prop).

Lemma keeps_safeMeta meta w : same w0 w -> keeps w0 P (safeMeta meta) w.
Proof. intros. unfold safeMeta. keeps_auto. Qed.

Lemma keeps_callSite w : same w0 w -> keeps w0 P (callSite rt) w.
Proof. intros. unfold callSite. keeps_auto. Qed.

Lemma keeps_callLocation w : same w0 w -> keeps w0 P (callLocation rt) w.
Proof. intros. unfold callLocation. keeps_auto. Qed.

Lemma keeps_messageString msg w : same w0 w -> keeps w0 P (messageString rt msg) w.
Proof. intros. unfold messageString. keeps_auto. Qed.

Lemma keeps_enrichMeta e chain metaObj w :
  same w0 w -> keeps w0 P (enrichMeta e chain metaObj) w.
Proof. intros. unfold enrichMeta. keeps_auto. Qed.

Lemma keeps_printCauseChain chain w :
  same w0 w -> (forall a, P (ConsoleLog a)) -> keeps w0 P (printCauseChain chain) w.
Proof. intros. unfold printCauseChain. keeps_auto; auto. Qed.

Lemma keeps_log level message meta loc w :
  same w0 w ->
  (filtered level w0 = false -> forall a, P (ConsoleLog a)) ->
  keeps w0 P (log rt level message meta loc) w.
Proof.
  intros Hs HP. unfold log. apply keeps_get_world.
  rewrite (filtered_same _ _ _ Hs).
  destruct (filtered level w0); keeps_auto; auto.
Qed.

Lemma keeps_buildCodeFrame frame w :
  same w0 w ->
  (forall p, P (FsExistsSync p)) -> (forall p, P (FsReadFileSync p)) ->
  keeps w0 P (buildCodeFrame rt frame) w.
Proof. intros. unfold buildCodeFrame. keeps_auto; auto. Qed.

Lemma keeps_printStackEnhanced v w :
  same w0 w ->
  (forall a, P (ConsoleLog a)) ->
  (is_dev rt = true -> (forall p, P (FsExistsSync p)) ∧ (forall p, P (FsReadFileSync p))) ->
  keeps w0 P (printStackEnhanced rt v) w.
Proof.
  intros Hs Hlog Hfs. unfold printStackEnhanced.
  repeat first
    [ apply keeps_buildCodeFrame; [assumption | by apply Hfs | by apply Hfs]
    | keeps_step ]; auto.
Qed.

Lemma keeps_conn_query q w :
  same w0 w ->
  (forall p, conn w0 = Some p -> P (NetQuery p q)) ->
  keeps w0 P (conn_query rt q) w.
Proof.
  intros Hs HP. unfold conn_query, query. keeps_auto.
  apply HP. destruct Hs as (Hc&_). congruence.
Qed.

Lemma keeps_storeInDB level message meta st w :
  same w0 w ->
  (Ready w0 -> forall a, P (ConsoleError a)) ->
  (forall p l m j s, dbInitialized w0 = true -> conn w0 = Some p ->
                     P (NetQuery p (Insert l m j s))) ->
  keeps w0 P (storeInDB rt level message meta st) w.
Proof.
  intros Hs Herr Hq. unfold storeInDB. apply keeps_get_world.
  destruct (negb (bool_decide (is_Some (conn w))) || negb (dbInitialized w)) eqn:Hg;
    [by apply keeps_ret|].
  apply orb_false_elim in Hg as [Hc Hd].
  apply negb_false_iff in Hc, Hd. apply bool_decide_eq_true in Hc.
  assert (Ready w0) as Hr.
  { destruct Hs as (Hc'&Hd'&_). split; congruence. }
  repeat first
    [ apply keeps_safeMeta
    | apply keeps_conn_query; [assumption | intros; apply Hq; [apply Hr | assumption]]
    | apply keeps_modify; apply same_set_inflight
    | keeps_step ]; auto.
Qed.

End Footprints.

Ltac call_step :=
  first
    [ apply keeps_safeMeta | apply keeps_callSite | apply keeps_callLocation
    | apply keeps_messageString | apply keeps_enrichMeta | apply keeps_printCauseChain
    | apply keeps_log | apply keeps_printStackEnhanced | apply keeps_storeInDB
    | keeps_step ].

Ltac footprint_side :=
  try assumption; try apply same_refl;
  try (intros; simpl;
       first [ by left
             | right; eexists; split; [reflexivity | assumption]
             | by repeat split
             | by eauto ]).

(** Every call stays inside its footprint and leaves the module-level
    variables alone. *)
Lemma call_footprint rt c w0 w :
  same w0 w -> keeps w0 (footprint rt w0 c) (call rt c) w.
Proof.
  intros Hs. destruct c; simpl call;
    unfold logger_info, logger_error, logger_errorEnriched, logger_warn, logger_debug,
      fastifyLogger_info, fastifyLogger_error, fastifyLogger_warn, fastifyLogger_debug,
      fastifyLogger_fatal, fastifyLogger_trace, fastifyLogger_child;
    repeat call_step; footprint_side.
Qed.

(** ** The cause-chain walker *)

Section CauseChain.

Variable rt : Runtime.
Variable h : gmap positive Obj.
Variable err : JsVal.

Lemma causeLoop_leaves fuel visited v chain :
  (forall l, v <> VObj l) -> causeLoop rt fuel h err visited v chain = Some (Ret chain).
Proof. intros Hv. destruct fuel, v; try reflexivity; by destruct (Hv l). Qed.

Lemma get_unallocated l p : h !! l = None -> Js.get h (VObj l) p = VUndef.
Proof. intros Hl. unfold Js.get. by rewrite Hl. Qed.

(** The loop leaves whenever the fuel exceeds the number of allocated objects
    that have not been visited. *)
Lemma causeLoop_total fuel visited current chain :
  (size (dom h ∖ visited) < fuel)%nat ->
  is_Some (causeLoop rt fuel h err visited current chain).
Proof.
  revert visited current chain.
  induction fuel as [|fuel IH]; intros visited current chain Hsize; [lia|].
  destruct current as [| | | | |l]; simpl; try by eexists.
  destruct (decide (l ∈ visited)) as [|Hnew]; [by eexists|].
  assert (forall c, is_Some (causeLoop rt fuel h err ({[l]} ∪ visited)
                               (Js.get h (VObj l) "cause") c)) as Hnext.
  { intros c. destruct (h !! l) as [o|] eqn:Hl.
    - apply IH.
      assert (dom h ∖ ({[l]} ∪ visited) ⊂ dom h ∖ visited) as Hsub.
      { apply elem_of_dom_2 in Hl. set_solver. }
      apply subset_size in Hsub. lia.
    - rewrite (get_unallocated _ _ Hl). rewrite causeLoop_leaves; [by eexists | done]. }
  destruct (decide (VObj l = err)); [apply Hnext|].
  destruct (causeTitle rt h (VObj l)); [apply Hnext | by eexists].
Qed.

Lemma reachable_from_cause l v l' :
  Js.get h (VObj l) "cause" = v -> reachable h v l' -> reachable h (VObj l) l'.
Proof.
  intros Hc Hr. induction Hr as [l0 Hv | l0 l1 _ IH Hstep].
  - subst v. eapply reachable_cause; [by apply reachable_here | exact Hv].
  - eapply reachable_cause; [exact IH | exact Hstep].
Qed.

(** Every title appended by the loop belongs to a distinct, so far unvisited
    object that is reachable from the current one and is not the error. *)
Lemma causeLoop_bound fuel visited current chain chain' :
  causeLoop rt fuel h err visited current chain = Some (Ret chain') ->
  exists nodes : list positive,
    NoDup nodes
    ∧ (forall l, l ∈ nodes -> (l ∉ visited) ∧ reachable h current l)
    ∧ (length chain' <= length chain + length nodes)%nat.
Proof.
  revert visited current chain.
  induction fuel as [|fuel IH]; intros visited current chain Hrun.
  - exists []. destruct current; simpl in Hrun; try case_decide; simplify_eq;
      (split; [constructor|]; split; [set_solver | simpl; lia]).
  - destruct current as [| | | | |l]; simpl in Hrun;
      try (simplify_eq; exists []; split; [constructor|];
           split; [set_solver | simpl; lia]).
    destruct (decide (l ∈ visited)) as [|Hnew].
    { simplify_eq. exists []. split; [constructor|]. split; [set_solver | simpl; lia]. }
    assert (forall c, causeLoop rt fuel h err ({[l]} ∪ visited)
                        (Js.get h (VObj l) "cause") c = Some (Ret chain') ->
             exists nodes : list positive,
               NoDup nodes
               ∧ (forall l0, l0 ∈ nodes -> (l0 ∉ visited) ∧ reachable h (VObj l) l0)
               ∧ (length chain' + 1 <= length c + length nodes)%nat) as Hnext.
    { intros c Hc. destruct (IH _ _ _ Hc) as (nodes & Hnd & Hin & Hlen).
      exists (l :: nodes). split; [|split].
      - constructor; [|done]. intros Hl. apply Hin in Hl. set_solver.
      - intros l0 [->|Hl0]%elem_of_cons.
        + split; [done | by apply reachable_here].
        + destruct (Hin _ Hl0) as [Hv Hr]. split; [set_solver|].
          by eapply reachable_from_cause.
      - simpl. lia. }
    destruct (decide (VObj l = err)).
    + destruct (Hnext _ Hrun) as (nodes & Hnd & Hin & Hlen). exists nodes.
      split; [done|]. split; [done | lia].
    + destruct (causeTitle rt h (VObj l)) as [title|]; [|discriminate].
      destruct (Hnext _ Hrun) as (nodes & Hnd & Hin & Hlen). exists nodes.
      rewrite length_app in Hlen. simpl in Hlen.
      split; [done|]. split; [done | lia].
Qed.

(** The result does not depend on how much fuel was left over. *)
Lemma causeLoop_agree fuel1 fuel2 visited current chain r1 r2 :
  causeLoop rt fuel1 h err visited current chain = Some r1 ->
  causeLoop rt fuel2 h err visited current chain = Some r2 ->
  r1 = r2.
Proof.
  revert fuel2 visited current chain.
  induction fuel1 as [|fuel1 IH]; intros fuel2 visited current chain H1 H2.
  - destruct current as [| | | | |l]; destruct fuel2; simpl in *; try congruence;
      destruct (decide (l ∈ visited)); congruence.
  - destruct current as [| | | | |l]; destruct fuel2; simpl in *; try congruence;
      destruct (decide (l ∈ visited)); try congruence.
    destruct (decide (VObj l = err)); [by eapply IH|].
    destruct (causeTitle rt h (VObj l)); [by eapply IH | congruence].
Qed.

(** On an acyclic chain the loop appends the titles of the nodes in order. *)
Lemma causeLoop_path current ls :
  cause_path h current ls ->
  forall visited chain,
    NoDup ls ->
    (forall l, l ∈ ls -> (l ∉ visited) ∧ VObj l <> err) ->
    causeLoop rt (length ls) h err visited current chain
    = Some (obind (omap (causeTitle rt h) (VObj <$> ls))
                  (fun titles => Ret (chain ++ titles))).
Proof.
  induction 1 as [v Hv | l ls Hpath IH]; intros visited chain Hnd Hfresh.
  - rewrite causeLoop_leaves by done. simpl. by rewrite app_nil_r.
  - apply NoDup_cons in Hnd as [Hl Hnd].
    destruct (Hfresh l) as [Hv Herr]; [by left|].
    simpl. rewrite decide_False by done. rewrite decide_False by done.
    change (list_fmap positive JsVal VObj ls) with (VObj <$> ls).
    destruct (causeTitle rt h (VObj l)) as [title|e]; [|done].
    rewrite IH; [|done|].
    + simpl. destruct (omap (causeTitle rt h) (VObj <$> ls)); simpl; [|done].
      by rewrite <- app_assoc.
    + intros l0 Hl0. destruct (Hfresh l0) as [? ?]; [by right|].
      split; [|done]. set_solver.
Qed.

End CauseChain.

Lemma obind_ret {A} (o : Outcome (list A)) : obind o (fun a => Ret ([] ++ a)) = o.
Proof. by destruct o. Qed.

Lemma buildCauseChain_fuel rt h err fuel r :
  causeLoop rt fuel h err ∅ err [] = Some r -> buildCauseChain rt h err = r.
Proof.
  intros Hr. unfold buildCauseChain.
  destruct (causeLoop_total rt h err (S (size h)) ∅ err []) as [r' Hr'].
  { rewrite difference_empty_L, size_dom. lia. }
  rewrite Hr'. simpl. by eapply causeLoop_agree.
Qed.

(** C6: for every error value, also one whose cause references form a
    cycle, the walk leaves its loop within the fuel it is given, and the
    chain it returns is no longer than a duplicate-free list of objects
    reachable through the cause references of the error. *)
Theorem buildCauseChain_terminates_bounded rt h err :
  exists r,
    causeLoop rt (S (size h)) h err ∅ err [] = Some r
    ∧ buildCauseChain rt h err = r
    ∧ forall chain, r = Ret chain ->
        exists nodes : list positive,
          NoDup nodes
          ∧ (forall l, l ∈ nodes -> reachable h (Js.get h err "cause") l)
          ∧ (length chain <= length nodes)%nat.
Proof.
  destruct (causeLoop_total rt h err (S (size h)) ∅ err []) as [r Hr].
  { rewrite difference_empty_L, size_dom. lia. }
  exists r. split; [exact Hr|]. split; [by eapply buildCauseChain_fuel|].
  intros chain ->.
  destruct err as [| | | | |a]; simpl in Hr;
    try (injection Hr as <-; exists []; split; [constructor|];
         split; [by intros ? ?%elem_of_nil | done]).
  rewrite decide_False in Hr by set_solver.
  rewrite decide_True in Hr by done.
  apply causeLoop_bound in Hr as (nodes & Hnd & Hin & Hlen).
  exists nodes. split; [done|]. split; [|done].
  intros l Hl. by apply Hin.
Qed.

(** C7: the walk starts at the cause of the error, not at the error: on a
    chain of causes without repetition it returns the titles of exactly the
    nodes after the error, in chain order (so none when there is no
    cause).  The title of a node with a truthy name is its name and its
    message, each converted to a string ([undefined] for a message that is
    missing), joined by a colon.  The title of a
    node without one is its best-effort string: its [message] when that is
    a non-empty string, else what the serialiser makes of the node, cut to
    2000 characters, else (when the serialiser gives no string)
    [String(node)]. *)
Theorem buildCauseChain_follows_causes rt h a ls :
  cause_path h (Js.get h (VObj a) "cause") ls ->
  NoDup (a :: ls) ->
  buildCauseChain rt h (VObj a) = omap (causeTitle rt h) (VObj <$> ls)
  ∧ (ls = [] -> buildCauseChain rt h (VObj a) = Ret [])
  ∧ (forall v n m,
        Js.get h v "name" = VStr n -> n <> "" -> Js.get h v "message" = VStr m ->
        causeTitle rt h v = Ret (n +:+ ": " +:+ m))
  ∧ (forall v n x,
        Js.get h v "name" = VStr n -> n <> "" ->
        Js.get h v "message" = x -> (forall l, x <> VObj l) ->
        causeTitle rt h v
        = Ret (n +:+ ": "
                 +:+ match x with
                     | VUndef => "undefined"
                     | VNull => "null"
                     | VBool b => if b then "true" else "false"
                     | VNum k => numberToString k
                     | VStr m => m
                     | VObj _ => ""
                     end))
  ∧ (forall v,
        Js.truthy (Js.get h v "name") = false ->
        causeTitle rt h v = safeToStringMessage rt h v)
  ∧ (forall v n m,
        Js.truthy (Js.get h v "name") = true ->
        ToString rt h (Js.get h v "name") = Ret n ->
        ToString rt h (Js.get h v "message") = Ret m ->
        causeTitle rt h v = Ret (n +:+ ": " +:+ m))
  ∧ (forall l m,
        Js.truthy (Js.get h (VObj l) "name") = false ->
        Js.get h (VObj l) "message" = VStr m -> m <> "" ->
        causeTitle rt h (VObj l) = Ret m)
  ∧ (forall l json,
        Js.truthy (Js.get h (VObj l) "name") = false ->
        (forall m, Js.get h (VObj l) "message" = VStr m -> m = "") ->
        jsonStringify rt h (VObj l) = Ret (Some json) ->
        causeTitle rt h (VObj l) = Ret (JsString.slice0 2000 json))
  ∧ (forall l,
        Js.truthy (Js.get h (VObj l) "name") = false ->
        (forall m, Js.get h (VObj l) "message" = VStr m -> m = "") ->
        (forall json, jsonStringify rt h (VObj l) <> Ret (Some json)) ->
        causeTitle rt h (VObj l) = toStringObj rt h l).
Proof.
  intros Hpath [Ha Hnd]%NoDup_cons.
  assert (buildCauseChain rt h (VObj a) = omap (causeTitle rt h) (VObj <$> ls)) as Hmain.
  { apply (buildCauseChain_fuel _ _ _ (S (length ls))).
    simpl. rewrite decide_False by set_solver. rewrite decide_True by done.
    rewrite (causeLoop_path rt h (VObj a) _ ls Hpath); [by rewrite obind_ret | done |].
    intros l Hl. split; [|congruence]. set_solver. }
  assert (forall l,
             (forall m, Js.get h (VObj l) "message" = VStr m -> m = "") ->
             safeToStringMessage rt h (VObj l)
             = match jsonStringify rt h (VObj l) with
               | Ret (Some s) => Ret (JsString.slice0 2000 s)
               | _ => toStringObj rt h l
               end) as Hvia.
  { intros l Hm. unfold safeToStringMessage.
    destruct (Js.get h (VObj l) "message") as [| | | |m|]; try reflexivity.
    by rewrite (Hm m eq_refl). }
  split; [exact Hmain|]. repeat split.
  - intros ->. by rewrite Hmain.
  - intros v n m Hn Hne Hm. unfold causeTitle. rewrite Hn, Hm. simpl.
    by destruct n.
  - intros v n x Hn Hne Hx Hprim. unfold causeTitle. rewrite Hn, Hx.
    destruct n; [done|]. destruct x; try reflexivity. by destruct (Hprim l).
  - intros v Hf. unfold causeTitle. by rewrite Hf.
  - intros v n m Ht Hn Hm. unfold causeTitle. by rewrite Ht, Hn, Hm.
  - intros l m Hf Hm Hne. unfold causeTitle, safeToStringMessage. rewrite Hf, Hm.
    by destruct m.
  - intros l json Hf Hm Hj. unfold causeTitle. rewrite Hf, (Hvia l Hm). by rewrite Hj.
  - intros l Hf Hm Hj. unfold causeTitle. rewrite Hf, (Hvia l Hm).
    destruct (jsonStringify rt h (VObj l)) as [[json|]|e]; try reflexivity.
    by destruct (Hj json).
Qed.

Lemma buildCauseChain_follows_causes_witness :
  buildCauseChain Demo.prod Demo.chainABC (VObj 1%positive)
  = Ret ["B: middle"; "C: root"]
  ∧ buildCauseChain Demo.prod Demo.plainCause (VObj 1%positive) = Ret ["inner"].
Proof.
  split.
  - refine (eq_trans
              (proj1 (buildCauseChain_follows_causes Demo.prod Demo.chainABC 1%positive
                        [2%positive; 3%positive] _ _)) _).
    + apply cause_path_step with (l := 2%positive).
      apply cause_path_step with (l := 3%positive).
      apply cause_path_end. intros l Hl. vm_compute in Hl. discriminate.
    + apply (bool_decide_unpack _). vm_compute. exact I.
    + vm_compute. reflexivity.
  - pose proof (buildCauseChain_follows_causes Demo.prod Demo.plainCause 1%positive
                  [2%positive]) as Hchain.
    destruct Hchain as (Hmain & _ & _ & _ & _ & _ & Hmessage & _).
    + apply cause_path_step with (l := 2%positive).
      apply cause_path_end. intros l Hl. vm_compute in Hl. discriminate.
    + apply (bool_decide_unpack _). vm_compute. exact I.
    + rewrite Hmain. simpl.
      rewrite (Hmessage 2%positive "inner"); [reflexivity | reflexivity | reflexivity |
                                               discriminate].
Defined.

(** ** The store write *)

Lemma try_catch_returns (m : M unit) (handler : JsVal -> M unit) w :
  (forall e w', outcome (handler e w') = Ret tt) ->
  outcome (try_catch m handler w) = Ret tt.
Proof.
  intros Hh. unfold try_catch, outcome.
  destruct (m w) as [[[[]|e] w1] ev1]; simpl; [done|].
  specialize (Hh e w1). unfold outcome in Hh.
  by destruct (handler e w1) as [[o2 w2] ev2].
Qed.

Lemma bind_get_world {B} (k : World -> M B) w : bind get_world k w = k w w.
Proof. unfold bind, get_world. by destruct (k w w) as [[o2 w2] ev2]. Qed.

Lemma storeInDB_returns rt level message meta st w :
  outcome (storeInDB rt level message meta st w) = Ret tt.
Proof.
  unfold storeInDB. rewrite bind_get_world.
  destruct (negb (bool_decide (is_Some (conn w))) || negb (dbInitialized w)); [done|].
  by apply try_catch_returns.
Qed.

Lemma storeInDB_not_ready rt level message meta st w :
  conn w = None ∨ dbInitialized w = false ->
  storeInDB rt level message meta st w = (Ret tt, w, []).
Proof.
  intros Hn. unfold storeInDB. rewrite bind_get_world.
  destruct Hn as [-> | ->]; simpl; [done|].
  by rewrite orb_true_r.
Qed.

Ltac run_cases :=
  unfold try_catch, bind, lift, ret, throw, emit, modify, get_world, alloc,
    set_heap, set_inflight, set_tasks, set_conn, set_dbInitialized, set_currentLogLevel,
    events, outcome, world in *;
  simpl in *;
  repeat (case_match; simpl in *; simplify_eq; try done);
  simpl in *; repeat simplify_eq; try done.

Lemma storeInDB_ready_events rt level message meta st w c :
  conn w = Some c -> dbInitialized w = true ->
  (exists msg metaStr stackStr,
      events (storeInDB rt level message meta st w)
      = [NetQuery c (Insert level msg metaStr stackStr)])
  ∨ (exists e,
        events (storeInDB rt level message meta st w)
        = [ConsoleError [VStr "Unexpected failure preparing log for DB"; e]]).
Proof.
  intros Hc Hd. unfold storeInDB. rewrite bind_get_world, Hc, Hd. simpl.
  unfold safeMeta, conn_query, query. run_cases; eauto 10.
Qed.

Lemma storeInDB_ready_insert rt level message meta st w c msg metaObj w1 json :
  conn w = Some c -> dbInitialized w = true ->
  safeToStringMessage rt (heap w) message = Ret msg ->
  safeMeta meta w = (Ret metaObj, w1, []) ->
  jsonStringify rt (heap w1) metaObj = Ret (Some json) ->
  query_throws rt c (Insert level msg (JsString.slice0 2000 json)
                       (if str_truthy st then default "" st else "")) = None ->
  events (storeInDB rt level message meta st w)
  = [NetQuery c (Insert level msg (JsString.slice0 2000 json)
                   (if str_truthy st then default "" st else ""))].
Proof.
  intros Hc Hd Hmsg Hmeta Hjson Hq. unfold storeInDB.
  rewrite bind_get_world, Hc, Hd. simpl.
  unfold try_catch, bind at 1. unfold lift at 1. rewrite Hmsg.
  unfold bind at 1. rewrite Hmeta.
  assert (conn w1 = Some c) as Hc1.
  { unfold safeMeta, alloc, ret in Hmeta. destruct (negb (Js.truthy meta));
      injection Hmeta as _ <-; done. }
  clear Hmeta.
  unfold conn_query, query. rewrite bind_get_world.
  unfold bind at 1. unfold lift at 1. rewrite Hjson.
  unfold bind at 1. unfold ret at 1.
  unfold bind at 1. rewrite bind_get_world, Hc1, Hq. by simpl.
Qed.

Lemma storeInDB_onRejected_quiet rt e w :
  outcome (storeInDB_onRejected rt e w) = Ret tt
  ∧ world (storeInDB_onRejected rt e w) = w
  ∧ Forall (fun ev => exists args, ev = ConsoleError args)
           (events (storeInDB_onRejected rt e w)).
Proof.
  unfold storeInDB_onRejected. destruct (is_dev rt); simpl;
    repeat split; repeat constructor. by eexists.
Qed.

(** *** A throw never comes after the store write *)

Section ThrowsBeforeNet.

Context {A B : Type}.

Lemma tb_bind (m : M A) (k : A -> M B) w :
  keeps w (fun ev => is_net ev = false) m w ->
  (forall a w', throws_before_net (k a) w') ->
  throws_before_net (bind m k) w.
Proof.
  unfold keeps, throws_before_net, bind, events, outcome. intros [Hev _] Hk e.
  destruct (m w) as [[[a|e1] w1] ev1]; simpl in *; [|done].
  specialize (Hk a w1 e). destruct (k a w1) as [[o2 w2] ev2]; simpl in *.
  intros He. apply Forall_app. split; [done | by apply Hk].
Qed.

Lemma tb_get_world (k : World -> M B) w :
  throws_before_net (k w) w -> throws_before_net (bind get_world k) w.
Proof. unfold throws_before_net. by rewrite bind_get_world. Qed.

Lemma tb_returns (m : M A) w : returns m w -> throws_before_net m w.
Proof. intros [a Ha] e He. congruence. Qed.

Lemma tb_keeps (m : M A) w :
  keeps w (fun ev => is_net ev = false) m w -> throws_before_net m w.
Proof. intros [Hev _] e _. exact Hev. Qed.

End ThrowsBeforeNet.

Lemma storeInDB_then_exit_returns rt level message meta st w :
  returns (storeInDB rt level message meta st;; emit (SetTimeoutExit 1 100)) w.
Proof.
  pose proof (storeInDB_returns rt level message meta st w) as Hr.
  unfold returns, bind, emit, outcome in *.
  destruct (storeInDB rt level message meta st w) as [[o w1] ev1]; simpl in *.
  subst o. by eexists.
Qed.

Ltac tb_step :=
  lazymatch goal with
  | |- throws_before_net (bind get_world _) _ => apply tb_get_world
  | |- throws_before_net (bind (storeInDB _ _ _ _ _) _) _ =>
      apply tb_returns, storeInDB_then_exit_returns
  | |- throws_before_net (storeInDB _ _ _ _ _) _ =>
      apply tb_returns; eexists; apply storeInDB_returns
  | |- throws_before_net (bind _ _) _ =>
      apply tb_bind; [ repeat call_step; footprint_side | intros ? ? ]
  | |- throws_before_net (if ?b then _ else _) _ => destruct b eqn:?
  | |- throws_before_net (match ?x with _ => _ end) _ => destruct x eqn:?
  | |- throws_before_net _ _ => apply tb_keeps; repeat call_step; footprint_side
  end.

Lemma call_throws_before_net rt c w : throws_before_net (call rt c) w.
Proof.
  destruct c; simpl call;
    unfold logger_info, logger_error, logger_errorEnriched, logger_warn, logger_debug,
      fastifyLogger_info, fastifyLogger_error, fastifyLogger_warn, fastifyLogger_debug,
      fastifyLogger_fatal, fastifyLogger_trace, fastifyLogger_child;
    repeat tb_step.
Qed.

(** ** Consequences of the footprint *)

Lemma is_dev_false rt : ENV_ID rt <> Some "dev" -> is_dev rt = false.
Proof. intros H. unfold is_dev. by apply bool_decide_eq_false. Qed.

Lemma call_events rt c w (Q : Event -> Prop) :
  (forall e, footprint rt w c e -> Q e) -> Forall Q (events (call rt c w)).
Proof.
  intros HQ. destruct (call_footprint rt c w w (same_refl w)) as [Hev _].
  by eapply Forall_impl.
Qed.

Lemma call_same rt c w : same w (world (call rt c w)).
Proof. by destruct (call_footprint rt c w w (same_refl w)). Qed.

Lemma call_level_known c lv : call_level c = Some lv -> exists n, LOG_LEVELS lv = Some n.
Proof. destruct c; intros [= <-]; by eexists. Qed.

Lemma prints_stack_level c : prints_stack c = true -> call_level c = Some "error".
Proof. by destruct c. Qed.

(** C5: a [debug] call, on the native logger or on the framework-compatible
    one, sends nothing to the store (indeed nothing to the network),
    whatever the readiness state, and leaves the module variables alone. *)
Theorem debug_never_persists rt message meta msg args w :
  Forall (fun e => is_net e = false) (events (logger_debug rt message meta w))
  ∧ Forall (fun e => is_net e = false) (events (fastifyLogger_debug rt msg args w))
  ∧ same w (world (logger_debug rt message meta w))
  ∧ same w (world (fastifyLogger_debug rt msg args w)).
Proof.
  split; [|split; [|split]].
  - apply (call_events rt (LoggerDebug message meta)).
    intros [] Hf; simpl in *; try done. destruct q; naive_solver.
  - apply (call_events rt (FastifyDebug msg args)).
    intros [] Hf; simpl in *; try done. destruct q; naive_solver.
  - apply (call_same rt (LoggerDebug message meta)).
  - apply (call_same rt (FastifyDebug msg args)).
Qed.

(** C9: when [ENV_ID] is not [dev], no call of the logger, and in
    particular no [error(err)], touches the file system: the code frame is
    not built even if the stack names a frame that could be resolved. *)
Theorem no_file_io_outside_dev rt c w :
  ENV_ID rt <> Some "dev" ->
  Forall (fun e => is_fs e = false) (events (call rt c w)).
Proof.
  intros Hdev%is_dev_false. apply call_events.
  intros [] Hf; simpl in *; try done; destruct Hf; congruence.
Qed.

Lemma no_file_io_outside_dev_witness :
  ENV_ID Demo.prod <> Some "dev"
  ∧ Forall (fun e => is_fs e = false)
      (events (call Demo.prod (LoggerError (VObj 1%positive) VUndef)
                 (initial Demo.withStack)))
  ∧ Exists (fun e => is_fs e = true)
      (events (call Demo.dev (LoggerError (VObj 1%positive) VUndef)
                 (initial Demo.withStack))).
Proof.
  split; [discriminate|]. split.
  - apply (no_file_io_outside_dev Demo.prod). discriminate.
  - apply (bool_decide_unpack _). vm_compute. exact I.
Defined.

(** ** Store initialisation and the readiness flag *)

Lemma LOG_LEVELS_range key n : LOG_LEVELS key = Some n -> 0 <= n <= 3.
Proof. unfold LOG_LEVELS. repeat case_match; intros [= <-]; lia. Qed.

Lemma LOG_LEVELS_at_range key n :
  default (Rank 1) (LOG_LEVELS_at key) = Rank n -> 0 <= n <= 3.
Proof.
  unfold LOG_LEVELS_at. destruct (LOG_LEVELS key) as [m|] eqn:Hm; simpl.
  - intros [= <-]. by eapply LOG_LEVELS_range.
  - case_match; simpl; intros [=]. lia.
Qed.

Ltac oracle_case :=
  match goal with
  | |- context [createConnectionPool_throws ?rt ?p] =>
      destruct (createConnectionPool_throws rt p) eqn:?
  | |- context [query_throws ?rt ?p ?q] => destruct (query_throws rt p q) eqn:?
  | |- context [dispose_throws ?rt ?p] => destruct (dispose_throws rt p) eqn:?
  | |- context [match conn ?w with _ => _ end] => destruct (conn w) eqn:?
  | |- context [if dbInitialized ?w then _ else _] => destruct (dbInitialized w) eqn:?
  | |- context [match mysql ?c with _ => _ end] => destruct (mysql c) eqn:?
  | |- context [if (?n =? 0)%nat then _ else _] => destruct (n =? 0)%nat
  end.

Ltac run_oracles :=
  unfold try_catch, bind, lift, ret, throw, emit, modify, get_world, alloc,
    set_heap, set_inflight, set_tasks, set_conn, set_dbInitialized, set_currentLogLevel,
    events, outcome, world in *;
  simpl in *;
  repeat (oracle_case; simpl in *).

Lemma createLogger_world rt config w :
  let w' := world (createLogger rt config w) in
  level_ok w'
  ∧ conn w' = conn w
  ∧ dbInitialized w' = dbInitialized w
  ∧ (tasks w' = tasks w
     ∨ exists c db p, tasks w' = tasks w ++ [AwaitCreateDatabase c db p]).
Proof.
  unfold createLogger, level_ok.
  match goal with
  | |- context [LOG_LEVELS_at ?k] =>
      generalize (LOG_LEVELS_at_range k);
      generalize (default (Rank 1) (LOG_LEVELS_at k)); intros lvl Hn
  end.
  unfold initializeConnection, createConnectionPool, query, suspend, init_failed.
  run_oracles.
  all: repeat split; eauto.
  all: match goal with H : _ = Rank _ |- _ => apply Hn in H; lia end.
Qed.

Lemma createLogger_no_store rt config w :
  mysql config = None ->
  events (createLogger rt config w)
  = [ProcessOn "uncaughtException"; ProcessOn "unhandledRejection"]
  ∧ tasks (world (createLogger rt config w)) = tasks w.
Proof. intros Hn. unfold createLogger. rewrite Hn. by run_oracles. Qed.

Lemma resume_world rt t r w :
  let w' := world (initializeConnection_resume rt t r w) in
  currentLogLevel w' = currentLogLevel w
  ∧ (is_Some (conn w) -> is_Some (conn w'))
  ∧ (dbInitialized w = true -> dbInitialized w' = true)
  ∧ (dbInitialized w' = true -> dbInitialized w = true ∨ past_assignment t = true)
  ∧ (tasks w' = tasks w
     ∨ exists t', tasks w' = tasks w ++ [t']
                  ∧ (past_assignment t' = true -> is_Some (conn w'))).
Proof.
  unfold initializeConnection_resume, migration, awaited, dispose, createConnectionPool,
    conn_query, query, suspend, init_failed.
  destruct t, r; run_oracles.
  all: repeat split; try done; try (by left); try (by right).
  all: right; eexists; split; [reflexivity | intros Hp; try discriminate Hp; by eexists].
Qed.

(** ** Whole executions *)

Lemma keeps_hooks rt w0 v w :
  same w0 w ->
  keeps w0 (hook_footprint rt w0 v) (onUncaughtException rt v) w
  ∧ keeps w0 (hook_footprint rt w0 v) (onUnhandledRejection rt v) w.
Proof.
  intros Hs. unfold onUncaughtException, onUnhandledRejection.
  split;
    repeat first
      [ match goal with
        | |- keeps _ _ (logger_error ?r ?m ?e) _ =>
            apply (keeps_weaken _ (footprint r w0 (LoggerError m e)));
            [ intros ? ?; left; by eexists
            | by apply (call_footprint r (LoggerError m e)) ]
        end
      | keeps_step ];
    try (right; left; by eexists); try (right; right; by do 2 eexists).
Qed.

Lemma same_invariants w w' :
  same w w' -> level_ok w -> handle_inv w ->
  level_ok w' ∧ handle_inv w' ∧ monotone w w'.
Proof.
  unfold same, level_ok, handle_inv, monotone.
  intros (Hc & Hd & Hl & Ht) Hlev [Hi1 Hi2]. rewrite Hc, Hd, Hl, Ht. tauto.
Qed.

Lemma step_invariants rt a w :
  level_ok w -> handle_inv w ->
  level_ok (world (step rt a w))
  ∧ handle_inv (world (step rt a w))
  ∧ monotone w (world (step rt a w)).
Proof.
  intros Hlev Hinv. destruct a as [config|c|i r|r|err|reason|h]; simpl step.
  - destruct (createLogger_world rt config w) as (Hl & Hc & Hd & Ht).
    split; [exact Hl|]. unfold handle_inv, monotone. rewrite Hc, Hd.
    destruct Hinv as [Hi1 Hi2]. split; [|tauto]. split; [exact Hi1|].
    intros t Hin Hp. destruct Ht as [Ht | (c & db & p & Ht)]; rewrite Ht in Hin.
    + by eapply Hi2.
    + apply elem_of_app in Hin as [Hin | ->%list_elem_of_singleton]; [by eapply Hi2 | done].
  - apply same_invariants; [apply call_same | done | done].
  - destruct (tasks w !! i) as [t|] eqn:Hti;
      [|by apply same_invariants; [apply same_refl | |]].
    pose proof (resume_world rt t r (set_tasks (delete i (tasks w)) w))
      as (Hl & Hc & Hd & Hd' & Ht).
    simpl in *. destruct Hinv as [Hi1 Hi2].
    assert (t ∈ tasks w) as Hin by (by eapply list_elem_of_lookup_2).
    split; [unfold level_ok in *; by rewrite Hl|].
    split; [split|split; [exact Hc | exact Hd]].
    + intros Hdb. destruct (Hd' Hdb) as [Hold | Hpast]; apply Hc; eauto.
    + intros t' Hin' Hp'.
      destruct Ht as [Ht | (t'' & Ht & Hnew)]; rewrite Ht in Hin'.
      * apply Hc. apply (Hi2 t'); [|done].
        by eapply list_elem_of_delete_inv.
      * apply elem_of_app in Hin' as [Hin' | ->%list_elem_of_singleton]; [|by apply Hnew].
        apply Hc. apply (Hi2 t'); [|done].
        by eapply list_elem_of_delete_inv.
  - destruct (inflight w) as [|n], r as [rows|e]; simpl;
      try (by apply same_invariants; [apply same_refl | |]).
    + by apply same_invariants; [apply same_set_inflight, same_refl | |].
    + destruct (storeInDB_onRejected_quiet rt e (set_inflight n w)) as (_ & -> & _).
      by apply same_invariants; [apply same_set_inflight, same_refl | |].
  - apply same_invariants; [|done|done].
    by destruct (keeps_hooks rt w err w (same_refl w)) as [[_ ?] _].
  - apply same_invariants; [|done|done].
    by destruct (keeps_hooks rt w reason w (same_refl w)) as [_ [_ ?]].
  - by apply same_invariants; [apply same_set_heap, same_refl | |].
Qed.

Lemma run_invariants rt acts w :
  level_ok w -> handle_inv w ->
  level_ok (run rt acts w).1 ∧ handle_inv (run rt acts w).1
  ∧ monotone w (run rt acts w).1.
Proof.
  revert w. induction acts as [|a acts IH]; intros w Hlev Hinv; simpl.
  - unfold monotone. tauto.
  - destruct (step_invariants rt a w Hlev Hinv) as (Hl1 & Hi1 & Hm1).
    destruct (IH _ Hl1 Hi1) as (Hl2 & Hi2 & Hm2).
    split; [done|]. split; [done|].
    unfold monotone in *. tauto.
Qed.

Lemma initial_invariants h0 : level_ok (initial h0) ∧ handle_inv (initial h0).
Proof.
  unfold level_ok, handle_inv. simpl. split; [intros n [= <-]; lia|].
  split; [done|]. by intros t ?%elem_of_nil.
Qed.

(** *** A call that passes the filter prints *)

Section Renders.

Context {A B : Type}.

Lemma rd_bind_l (m : M A) (k : A -> M B) w : renders m w -> renders (bind m k) w.
Proof.
  unfold renders, bind, outcome, events. intros Hm b.
  destruct (m w) as [[[a|e] w1] ev1]; simpl in *; [|done].
  destruct (k a w1) as [[o2 w2] ev2]; simpl. intros _.
  apply Exists_app. left. by eapply Hm.
Qed.

Lemma rd_bind_r w0 (m : M A) (k : A -> M B) w :
  keeps w0 (fun _ => True) m w ->
  (forall a w', same w0 w' -> renders (k a) w') ->
  renders (bind m k) w.
Proof.
  unfold keeps, renders, bind, outcome, events, world. intros [_ Hs] Hk b.
  destruct (m w) as [[[a|e] w1] ev1]; simpl in *; [|done].
  specialize (Hk a w1 Hs b). destruct (k a w1) as [[o2 w2] ev2]; simpl in *.
  intros Hb. apply Exists_app. right. by apply Hk.
Qed.

Lemma rd_get_world (k : World -> M B) w :
  renders (k w) w -> renders (bind get_world k) w.
Proof. unfold renders. by rewrite bind_get_world. Qed.

End Renders.

Lemma rd_log rt level message meta loc w :
  filtered level w = false -> renders (log rt level message meta loc) w.
Proof.
  intros Hf. unfold renders, log. rewrite bind_get_world, Hf.
  unfold bind, lift, ret, emit, outcome, events. simpl.
  intros a. repeat (case_match; simpl in *; simplify_eq; try done);
    intros _; repeat constructor.
Qed.

Ltac rd_step w0 :=
  lazymatch goal with
  | |- renders (bind get_world _) _ => apply rd_get_world
  | |- renders (bind (log _ _ _ _ _) _) _ =>
      apply rd_bind_l, rd_log; erewrite filtered_same by eassumption; assumption
  | |- renders (log _ _ _ _ _) _ =>
      apply rd_log; erewrite filtered_same by eassumption; assumption
  | |- renders (bind _ _) _ =>
      apply (rd_bind_r w0); [ repeat call_step; footprint_side | intros ? ? ? ]
  | |- renders (if ?b then _ else _) _ => destruct b eqn:?
  | |- renders (match ?x with _ => _ end) _ => destruct x eqn:?
  end.

Lemma call_renders rt c lv w :
  call_level c = Some lv -> filtered lv w = false -> renders (call rt c) w.
Proof.
  intros Hlv Hf. pose proof (same_refl w) as Hs.
  destruct c; simpl in Hlv; simplify_eq; simpl call;
    unfold logger_info, logger_error, logger_errorEnriched, logger_warn, logger_debug,
      fastifyLogger_info, fastifyLogger_error, fastifyLogger_warn, fastifyLogger_debug,
      fastifyLogger_fatal;
    repeat rd_step w.
Qed.

(** * The claims *)

Example boot_warn_ready :
  (run Demo.prod Demo.boot_warn (initial ∅)).1 = Demo.ready_warn.
Proof. vm_compute. reflexivity. Qed.

Lemma storeInDB_level_independent rt level message meta st k w :
  events (storeInDB rt level message meta st (set_currentLogLevel k w))
  = events (storeInDB rt level message meta st w).
Proof.
  unfold storeInDB. rewrite !bind_get_world.
  change (conn (set_currentLogLevel k w)) with (conn w).
  change (dbInitialized (set_currentLogLevel k w)) with (dbInitialized w).
  change (heap (set_currentLogLevel k w)) with (heap w).
  destruct (negb (bool_decide (is_Some (conn w))) || negb (dbInitialized w)); [done|].
  unfold safeMeta, conn_query, query.
  unfold try_catch, bind, lift, ret, throw, emit, modify, get_world, alloc,
    set_heap, set_inflight, set_currentLogLevel, events. simpl.
  destruct (safeToStringMessage rt (heap w) message); simpl; [|done].
  destruct (negb (Js.truthy meta)); simpl;
    repeat (match goal with
            | |- context [jsonStringify rt ?h ?v] =>
                destruct (jsonStringify rt h v) as [[?|]|?]
            | |- context [match conn ?w with _ => _ end] => destruct (conn w)
            | |- context [query_throws rt ?p ?q] => destruct (query_throws rt p q)
            end; simpl); done.
Qed.

Lemma Forall_False_nil {A} (l : list A) : Forall (fun _ => False) l -> l = [].
Proof. destruct l; [done|]. by intros [[] _]%Forall_cons. Qed.

Lemma log_filtered rt level message meta loc w :
  filtered level w = true -> log rt level message meta loc w = (Ret tt, w, []).
Proof. intros Hf. unfold log. rewrite bind_get_world. by rewrite Hf. Qed.

Section StoreOnly.

Context {A : Type} (w0 : World) (lv : string).

Lemma store_only_bind (m : M A) (k : A -> M unit) w :
  keeps w0 (fun _ => False) m w ->
  (forall a w', same w0 w' -> store_only w0 lv (events (k a w')) (outcome (k a w'))) ->
  store_only w0 lv (events (bind m k w)) (outcome (bind m k w)).
Proof.
  unfold keeps, bind, events, outcome, world. intros [Hev Hs] Hk.
  destruct (m w) as [[[a|e] w1] ev1]; cbn [fst snd] in *;
    apply Forall_False_nil in Hev; subst ev1.
  - specialize (Hk a w1 Hs). by destruct (k a w1) as [[o2 w2] ev2].
  - split; [done | by intros [=]].
Qed.

Lemma store_only_get_world (k : World -> M unit) w :
  store_only w0 lv (events (k w w)) (outcome (k w w)) ->
  store_only w0 lv (events (bind get_world k w)) (outcome (bind get_world k w)).
Proof. by rewrite bind_get_world. Qed.

End StoreOnly.

Lemma store_only_storeInDB rt w0 lv message meta st w :
  same w0 w ->
  store_only w0 lv (events (storeInDB rt lv message meta st w))
    (outcome (storeInDB rt lv message meta st w)).
Proof.
  intros (Hc & Hd & _). split.
  - intros e He. by rewrite storeInDB_returns in He.
  - intros _. split.
    + intros Hoff. rewrite storeInDB_not_ready; [done|]. by rewrite Hc, Hd.
    + intros p Hp Hr. apply storeInDB_ready_events; congruence.
Qed.

Ltac store_only_step :=
  lazymatch goal with
  | |- store_only _ _ (events (bind get_world _ _)) _ => apply store_only_get_world
  | |- store_only _ _ (events (storeInDB _ _ _ _ _ _)) _ =>
      apply store_only_storeInDB; assumption
  | |- store_only _ _ (events (bind (log _ _ _ _ _) _ _)) _ =>
      apply store_only_bind;
      [ apply keeps_log; [assumption | intros ?; congruence] | intros ? ? ? ]
  | |- store_only _ _ (events (bind _ _ _)) _ =>
      apply store_only_bind; [ repeat call_step; assumption | intros ? ? ? ]
  | |- store_only _ _ (events ((match ?x with _ => _ end) _)) _ => destruct x
  end.

(** C1 (as amended): in every state an execution can reach, a call whose
    level is strictly below the configured minimum prints no console line.
    The severity filter belongs to the console renderer only: a method that
    persists ([logger.info], [logger.warn], [fastifyLogger.warn]) still
    writes its record when the store is ready, sending exactly one insert at
    its level or reporting that the record could not be prepared, and
    what [storeInDB] sends does not depend on the configured minimum.  The
    methods that never persist ([debug], [fastifyLogger.info]) then do
    nothing at all. *)
Theorem filter_silences_console_only rt h0 acts c lv n m :
  call_level c = Some lv ->
  LOG_LEVELS lv = Some n ->
  currentLogLevel (run rt acts (initial h0)).1 = Rank m ->
  n < m ->
  Forall (fun e => is_console_log e = false)
    (events (call rt c (run rt acts (initial h0)).1))
  ∧ (persists c = false -> events (call rt c (run rt acts (initial h0)).1) = [])
  ∧ (persists c = true ->
     store_only (run rt acts (initial h0)).1 lv
       (events (call rt c (run rt acts (initial h0)).1))
       (outcome (call rt c (run rt acts (initial h0)).1)))
  ∧ (forall level message meta st k,
        events (storeInDB rt level message meta st
                  (set_currentLogLevel k (run rt acts (initial h0)).1))
        = events (storeInDB rt level message meta st (run rt acts (initial h0)).1)).
Proof.
  intros Hlv Hn Hm Hlt.
  destruct (initial_invariants h0) as [Hl0 Hi0].
  destruct (run_invariants rt acts (initial h0) Hl0 Hi0) as (Hlev & _ & _).
  set (w := (run rt acts (initial h0)).1) in *.
  specialize (Hlev m Hm).
  assert (JsString.stripAnsi lv = lv) as Hplain
    by (destruct c; simpl in Hlv; simplify_eq; reflexivity).
  assert (filtered lv w = true) as Hft.
  { unfold filtered, LOG_LEVELS_at. rewrite Hplain, Hn, Hm. by apply Z.ltb_lt. }
  assert (lv <> "error") as Hne.
  { intros ->. vm_compute in Hn. injection Hn as <-. lia. }
  pose proof (same_refl w) as Hs.
  split; [|split; [|split]].
  - apply call_events. intros [] Hf; simpl in *; try done.
    destruct Hf as [Hp | (lv' & Hlv' & Hf)].
    + apply prints_stack_level in Hp. congruence.
    + congruence.
  - intros Hp. apply Forall_False_nil.
    assert (keeps w (fun _ => False) (call rt c) w) as [Hev _]; [|exact Hev].
    destruct c; simpl in Hlv, Hp; simplify_eq; simpl call;
      unfold logger_debug, fastifyLogger_info, fastifyLogger_debug;
      repeat first
        [ apply keeps_log; [assumption | intros ?; congruence]
        | call_step ]; assumption.
  - intros Hp.
    destruct c; simpl in Hlv, Hp; simplify_eq; simpl call;
      unfold logger_info, logger_warn, fastifyLogger_warn;
      repeat store_only_step.
  - intros. apply storeInDB_level_independent.
Qed.

Lemma filter_silences_console_only_witness :
  Forall (fun e => is_console_log e = false)
    (events (call Demo.prod (LoggerInfo (VStr "x") VUndef)
               (run Demo.prod Demo.boot_warn (initial ∅)).1))
  ∧ ((exists msg metaStr stackStr,
         events (call Demo.prod (LoggerInfo (VStr "x") VUndef)
                   (run Demo.prod Demo.boot_warn (initial ∅)).1)
         = [NetQuery Demo.pool (Insert "info" msg metaStr stackStr)])
     ∨ (exists e,
           events (call Demo.prod (LoggerInfo (VStr "x") VUndef)
                     (run Demo.prod Demo.boot_warn (initial ∅)).1)
           = [ConsoleError [VStr "Unexpected failure preparing log for DB"; e]]))
  ∧ events (call Demo.prod (FastifyInfo (VStr "x") [])
              (run Demo.prod Demo.boot_warn (initial ∅)).1) = [].
Proof.
  pose proof (filter_silences_console_only Demo.prod ∅ Demo.boot_warn
                (LoggerInfo (VStr "x") VUndef) "info" 1 2
                eq_refl eq_refl eq_refl eq_refl) as (Hlog & _ & Hstore & _).
  pose proof (filter_silences_console_only Demo.prod ∅ Demo.boot_warn
                (FastifyInfo (VStr "x") []) "info" 1 2
                eq_refl eq_refl eq_refl eq_refl) as (_ & Hnone & _).
  split; [exact Hlog|]. split; [|by apply Hnone].
  destruct (Hstore eq_refl) as [_ Hret].
  destruct (Hret eq_refl) as [_ Hready].
  apply (Hready Demo.pool); reflexivity.
Defined.

(** C1 fails as stated: with minimum level [warn] and the store ready, an
    [info] call is below the threshold, prints nothing, and still inserts
    its record. *)
Lemma severity_filter_does_not_gate_store :
  call_level (LoggerInfo (VStr "x") VUndef) = Some "info"
  ∧ LOG_LEVELS "info" = Some 1
  ∧ currentLogLevel (run Demo.prod Demo.boot_warn (initial ∅)).1 = Rank 2
  ∧ (exists stackStr,
        events (call Demo.prod (LoggerInfo (VStr "x") VUndef)
                  (run Demo.prod Demo.boot_warn (initial ∅)).1)
        = [NetQuery Demo.pool (Insert "info" "x" "{}" stackStr)])
  ∧ ~ Forall (fun e => is_console e = false ∧ is_insert e = false)
        (events (call Demo.prod (LoggerInfo (VStr "x") VUndef)
                   (run Demo.prod Demo.boot_warn (initial ∅)).1)).
Proof.
  split; [reflexivity|]. split; [reflexivity|]. split; [by vm_compute|].
  split; [eexists; by vm_compute|].
  intros H. vm_compute in H. apply Forall_cons in H as [[_ H] _]. discriminate.
Qed.

(** A level name that the object literal only inherits ([constructor],
    [toString], ...) sets a minimum that is no rank: then no comparison
    succeeds and nothing is filtered. *)
Lemma inherited_level_filters_nothing level key w :
  currentLogLevel w = Inherited key -> filtered level w = false.
Proof.
  intros Hk. unfold filtered. rewrite Hk.
  by destruct (LOG_LEVELS_at (JsString.stripAnsi level)) as [[?|?]|].
Qed.

Example constructor_level_prints_debug :
  currentLogLevel
    (world (createLogger Demo.prod (mkConfig None (Some "constructor")) (initial ∅)))
  = Inherited "constructor"
  ∧ Exists (fun e => is_console_log e = true)
      (events (call Demo.prod (LoggerDebug (VStr "x") VUndef)
                 (world (createLogger Demo.prod (mkConfig None (Some "constructor"))
                           (initial ∅))))).
Proof. split; [by vm_compute|]. vm_compute. by left. Qed.

(** C10: in every state an execution can reach, a raised readiness flag
    comes with a pool handle; no further step takes the handle away or
    lowers the flag; and an insert that [storeInDB] issues goes through the
    handle that [conn] holds. *)
Theorem readiness_implies_handle rt h0 acts :
  (dbInitialized (run rt acts (initial h0)).1 = true ->
   is_Some (conn (run rt acts (initial h0)).1))
  ∧ (forall a,
        monotone (run rt acts (initial h0)).1
                 (world (step rt a (run rt acts (initial h0)).1)))
  ∧ (forall level message meta st,
        Forall (fun e => forall p q, e = NetQuery p q ->
                                     conn (run rt acts (initial h0)).1 = Some p)
          (events (storeInDB rt level message meta st (run rt acts (initial h0)).1))).
Proof.
  destruct (initial_invariants h0) as [Hl0 Hi0].
  destruct (run_invariants rt acts (initial h0) Hl0 Hi0) as (Hlev & Hinv & _).
  set (w := (run rt acts (initial h0)).1) in *.
  split; [apply Hinv|]. split.
  - intros a. by destruct (step_invariants rt a w Hlev Hinv) as (_ & _ & ?).
  - intros level message meta st.
    destruct (keeps_storeInDB rt w
                (fun e => forall p q, e = NetQuery p q -> conn w = Some p)
                level message meta st w (same_refl w)) as [Hev _]; [done | | exact Hev].
    intros p l m j s _ Hc p' q' [= <- _]. exact Hc.
Qed.

Lemma readiness_implies_handle_witness :
  dbInitialized (run Demo.prod Demo.boot_warn (initial ∅)).1 = true
  ∧ is_Some (conn (run Demo.prod Demo.boot_warn (initial ∅)).1).
Proof.
  split; [by vm_compute|].
  apply (proj1 (readiness_implies_handle Demo.prod ∅ Demo.boot_warn)).
  by vm_compute.
Defined.

(** *** Executions without store settings *)

Lemma step_store_off rt a w :
  no_store a -> store_off w ->
  Forall (fun e => is_net e = false) (events (step rt a w))
  ∧ store_off (world (step rt a w)).
Proof.
  intros Hno (Hc & Hd & Ht).
  assert (forall w', same w w' -> store_off w') as Hsame.
  { intros w' (Hc' & Hd' & _ & Ht'). unfold store_off. by rewrite Hc', Hd', Ht'. }
  assert (forall c e, footprint rt w c e -> is_net e = false) as Hfp.
  { intros c [] Hf; simpl in *; try done. destruct q; try done.
    destruct Hf as (_ & _ & Hp). congruence. }
  destruct a as [config|c|i r|r|err|reason|h]; simpl step.
  - simpl in Hno. destruct (createLogger_no_store rt config w Hno) as [-> Ht'].
    destruct (createLogger_world rt config w) as (_ & Hc' & Hd' & _).
    split; [by repeat constructor|]. unfold store_off. by rewrite Hc', Hd', Ht'.
  - split; [apply call_events; intros e He; by eapply Hfp | apply Hsame, call_same].
  - rewrite Ht. simpl. split; [apply Forall_nil_2 | done].
  - destruct (inflight w) as [|n], r as [rows|e]; simpl.
    + split; [apply Forall_nil_2 | by apply Hsame, same_refl].
    + split; [apply Forall_nil_2 | by apply Hsame, same_refl].
    + split; [apply Forall_nil_2 | by apply Hsame, same_set_inflight, same_refl].
    + destruct (storeInDB_onRejected_quiet rt e (set_inflight n w)) as (_ & -> & Hev).
      split; [|by apply Hsame, same_set_inflight, same_refl].
      eapply Forall_impl; [exact Hev|]. by intros ? [args ->].
  - destruct (keeps_hooks rt w err w (same_refl w)) as [[Hev Hs] _].
    split; [|by apply Hsame].
    eapply Forall_impl; [exact Hev|].
    intros e [[m Hf] | [[args ->] | (code & delay & ->)]]; [by eapply Hfp | done | done].
  - destruct (keeps_hooks rt w reason w (same_refl w)) as [_ [Hev Hs]].
    split; [|by apply Hsame].
    eapply Forall_impl; [exact Hev|].
    intros e [[m Hf] | [[args ->] | (code & delay & ->)]]; [by eapply Hfp | done | done].
  - split; [apply Forall_nil_2 | by apply Hsame, same_set_heap, same_refl].
Qed.

Lemma run_store_off rt acts w :
  Forall no_store acts -> store_off w ->
  Forall (fun e => is_net e = false) (run rt acts w).2 ∧ store_off (run rt acts w).1.
Proof.
  revert w. induction acts as [|a acts IH]; intros w Hno Hoff; simpl.
  - split; [constructor | done].
  - apply Forall_cons in Hno as [Ha Hno].
    destruct (step_store_off rt a w Ha Hoff) as [Hev1 Hoff1].
    destruct (IH _ Hno Hoff1) as [Hev2 Hoff2].
    split; [by apply Forall_app | done].
Qed.

(** C8 (as amended): in a process whose configurations carry no store
    settings, no step performs a network operation, initialisation is never
    started and the store stays off; every log call there performs no
    network operation, and a call that passes the severity filter and
    completes prints a console line. *)
Theorem no_store_settings_console_only rt h0 acts :
  Forall no_store acts ->
  Forall (fun e => is_net e = false) (run rt acts (initial h0)).2
  ∧ store_off (run rt acts (initial h0)).1
  ∧ (forall c,
        Forall (fun e => is_net e = false)
          (events (call rt c (run rt acts (initial h0)).1)))
  ∧ (forall c lv,
        call_level c = Some lv ->
        filtered lv (run rt acts (initial h0)).1 = false ->
        renders (call rt c) (run rt acts (initial h0)).1).
Proof.
  intros Hno.
  destruct (run_store_off rt acts (initial h0) Hno) as [Hev Hoff]; [done|].
  split; [exact Hev|]. split; [exact Hoff|]. split.
  - intros c.
    by destruct (step_store_off rt (Invoke c) _ I Hoff) as [? _].
  - intros c lv. apply call_renders.
Qed.

Lemma no_store_settings_console_only_witness :
  Forall no_store Demo.console_only
  ∧ Forall (fun e => is_net e = false)
      (events (call Demo.prod (LoggerInfo (VStr "x") VUndef)
                 (run Demo.prod Demo.console_only (initial ∅)).1))
  ∧ Exists (fun e => is_console_log e = true)
      (events (call Demo.prod (LoggerInfo (VStr "x") VUndef)
                 (run Demo.prod Demo.console_only (initial ∅)).1)).
Proof.
  assert (Forall no_store Demo.console_only) as Hno by (by repeat constructor).
  pose proof (no_store_settings_console_only Demo.prod ∅ Demo.console_only Hno)
    as (_ & _ & Hnet & Hlog).
  split; [exact Hno|]. split; [apply Hnet|].
  apply (Hlog (LoggerInfo (VStr "x") VUndef) "info" eq_refl eq_refl tt).
  reflexivity.
Defined.

(** C8 fails as stated: without store settings but with minimum level
    [warn], [info("x")] prints nothing at all. *)
Lemma filtered_call_does_not_render :
  Forall no_store Demo.console_only_warn
  ∧ events (call Demo.prod (LoggerInfo (VStr "x") VUndef)
              (run Demo.prod Demo.console_only_warn (initial ∅)).1) = []
  ∧ ~ Exists (fun e => is_console e = true)
        (events (call Demo.prod (LoggerInfo (VStr "x") VUndef)
                   (run Demo.prod Demo.console_only_warn (initial ∅)).1)).
Proof.
  split; [by repeat constructor|]. split; [by vm_compute|].
  intros H. vm_compute in H. by apply Exists_nil in H.
Qed.

(** C3: while the store is not ready ([conn] is null or the flag is down),
    [storeInDB] does nothing at all; once it is ready the write is
    attempted: the call ends either in exactly one insert on the pool or in
    the console report of a failed preparation, and it is the insert
    whenever the record can be prepared and the client takes the query. *)
Theorem storeInDB_gated_by_readiness rt level message meta st w :
  (conn w = None ∨ dbInitialized w = false ->
   storeInDB rt level message meta st w = (Ret tt, w, []))
  ∧ (forall c, conn w = Some c -> dbInitialized w = true ->
       (exists msg metaStr stackStr,
           events (storeInDB rt level message meta st w)
           = [NetQuery c (Insert level msg metaStr stackStr)])
       ∨ (exists e,
             events (storeInDB rt level message meta st w)
             = [ConsoleError [VStr "Unexpected failure preparing log for DB"; e]]))
  ∧ (forall c msg metaObj w1 json,
        conn w = Some c -> dbInitialized w = true ->
        safeToStringMessage rt (heap w) message = Ret msg ->
        safeMeta meta w = (Ret metaObj, w1, []) ->
        jsonStringify rt (heap w1) metaObj = Ret (Some json) ->
        query_throws rt c (Insert level msg (JsString.slice0 2000 json)
                             (if str_truthy st then default "" st else "")) = None ->
        events (storeInDB rt level message meta st w)
        = [NetQuery c (Insert level msg (JsString.slice0 2000 json)
                         (if str_truthy st then default "" st else ""))]).
Proof.
  split; [apply storeInDB_not_ready|]. split.
  - intros c. apply storeInDB_ready_events.
  - intros c msg metaObj w1 json. apply storeInDB_ready_insert.
Qed.

Lemma storeInDB_gated_by_readiness_witness :
  storeInDB Demo.prod "warn" (VStr "x") VUndef (Some "at f") (initial ∅)
  = (Ret tt, initial ∅, [])
  ∧ events (storeInDB Demo.prod "warn" (VStr "x") VUndef (Some "at f") Demo.ready_warn)
    = [NetQuery Demo.pool (Insert "warn" "x" "{}" "at f")].
Proof.
  split.
  - apply (proj1 (storeInDB_gated_by_readiness Demo.prod "warn" (VStr "x") VUndef
                    (Some "at f") (initial ∅))).
    by left.
  - refine (proj2 (proj2 (storeInDB_gated_by_readiness Demo.prod "warn" (VStr "x") VUndef
                            (Some "at f") Demo.ready_warn))
              Demo.pool "x" _ _ "{}" eq_refl eq_refl eq_refl eq_refl _ _);
      reflexivity.
Defined.

(** C4: a failure of the store write never reaches the caller.
    [storeInDB] completes normally whatever fails inside it, and besides
    the insert it produces at most the console report of the failure; the
    handler of a rejected insert completes normally, changes nothing and
    prints at most to the console; settling an insert never throws; and a
    log method that does throw has done so before anything went to the
    network. *)
Theorem store_failure_never_reaches_caller rt :
  (forall level message meta st w,
      outcome (storeInDB rt level message meta st w) = Ret tt)
  ∧ (forall level message meta st w,
        Forall (fun e => is_insert e = true ∨ exists args, e = ConsoleError args)
          (events (storeInDB rt level message meta st w)))
  ∧ (forall e w,
        outcome (storeInDB_onRejected rt e w) = Ret tt
        ∧ world (storeInDB_onRejected rt e w) = w
        ∧ Forall (fun ev => exists args, ev = ConsoleError args)
            (events (storeInDB_onRejected rt e w)))
  ∧ (forall r w, outcome (step rt (SettleInsert r) w) = Ret tt)
  ∧ (forall c w, throws_before_net (call rt c) w).
Proof.
  split; [intros; apply storeInDB_returns|]. split; [|split; [|split]].
  - intros level message meta st w.
    destruct (keeps_storeInDB rt w
                (fun e => is_insert e = true ∨ exists args, e = ConsoleError args)
                level message meta st w (same_refl w)) as [Hev _]; [| | exact Hev].
    + intros _ a. right. by eexists.
    + intros. by left.
  - intros e w. apply storeInDB_onRejected_quiet.
  - intros r w. simpl. destruct (inflight w), r; try done.
    apply storeInDB_onRejected_quiet.
  - intros c w. apply call_throws_before_net.
Qed.

Lemma safeToStringMessage_object_truncated rt h l json :
  (forall m, Js.get h (VObj l) "message" <> VStr m) ->
  jsonStringify rt h (VObj l) = Ret (Some json) ->
  safeToStringMessage rt h (VObj l) = Ret (JsString.slice0 2000 json)
  ∧ (String.length (JsString.slice0 2000 json) <= 2000)%nat.
Proof.
  intros Hm Hj. unfold safeToStringMessage. rewrite Hj. split.
  - destruct (Js.get h (VObj l) "message") eqn:Hg; try done. by destruct (Hm s).
  - rewrite slice0_length. lia.
Qed.

(** C2: what the code does with an oversized record.  The serialised
    metadata is cut to 2000 characters (exactly 2000 when it was longer) and
    nothing is raised, but a message that is a string is persisted as it
    is, whatever its length: only a message that had to be serialised from
    an object is cut. *)
Theorem string_message_is_not_truncated rt level s meta st w c metaObj w1 json :
  conn w = Some c -> dbInitialized w = true ->
  safeMeta meta w = (Ret metaObj, w1, []) ->
  jsonStringify rt (heap w1) metaObj = Ret (Some json) ->
  query_throws rt c (Insert level s (JsString.slice0 2000 json)
                       (if str_truthy st then default "" st else "")) = None ->
  events (storeInDB rt level (VStr s) meta st w)
  = [NetQuery c (Insert level s (JsString.slice0 2000 json)
                   (if str_truthy st then default "" st else ""))]
  ∧ outcome (storeInDB rt level (VStr s) meta st w) = Ret tt
  ∧ String.length (JsString.slice0 2000 json) = Nat.min 2000 (String.length json).
Proof.
  intros Hc Hd Hmeta Hjson Hq. split; [|split].
  - by eapply storeInDB_ready_insert.
  - apply storeInDB_returns.
  - apply slice0_length.
Qed.

Lemma string_message_is_not_truncated_witness :
  events (storeInDB Demo.prod "info" (VStr (Demo.long 2001)) VUndef None Demo.ready_info)
  = [NetQuery Demo.pool (Insert "info" (Demo.long 2001) "{}" "")]
  ∧ String.length (Demo.long 2001) = 2001%nat.
Proof.
  split; [|apply repeat_length].
  refine (proj1 (string_message_is_not_truncated Demo.prod "info" (Demo.long 2001) VUndef
                   None Demo.ready_info Demo.pool _ _ "{}"
                   eq_refl eq_refl eq_refl eq_refl eq_refl)).
Defined.

Example cycle_terminates :
  buildCauseChain Demo.prod Demo.cycleAB (VObj 1%positive) = Ret ["B: middle"].
Proof. vm_compute. reflexivity. Qed.

Example rejected_insert_is_silent_outside_dev :
  step Demo.prod (SettleInsert (Rejected (VStr "ECONNREFUSED")))
    (set_inflight 1 Demo.ready_info)
  = (Ret tt, Demo.ready_info, []).
Proof. vm_compute. reflexivity. Qed.

(** * Further properties of the code *)


(** ** Configuration and store initialisation *)

Lemma createLogger_level rt config w :
  currentLogLevel (world (createLogger rt config w))
  = default (Rank 1) (LOG_LEVELS_at (configuredLevel rt config)).
Proof.
  unfold createLogger. fold (configuredLevel rt config).
  generalize (default (Rank 1) (LOG_LEVELS_at (configuredLevel rt config))).
  intros n.
  unfold initializeConnection, createConnectionPool, query, suspend, init_failed.
  run_oracles; reflexivity.
Qed.

Lemma LOG_LEVELS_truthy lv n : LOG_LEVELS lv = Some n -> JsString.nonempty lv = true.
Proof. by destruct lv. Qed.

Lemma LOG_LEVELS_at_own lv n : LOG_LEVELS lv = Some n -> LOG_LEVELS_at lv = Some (Rank n).
Proof. intros Hn. unfold LOG_LEVELS_at. by rewrite Hn. Qed.

(** X1: the minimum level set by [createLogger] is the rank of
    [config.logLevel] when that names a level, whatever the environment
    says; without a configured level the environment variable [LOG_LEVEL]
    decides when it names a level, and without both the default is [debug]
    in dev mode and [info] otherwise. *)
Theorem createLogger_level_resolution rt config w :
  (forall lv n,
      logLevel config = Some lv -> LOG_LEVELS lv = Some n ->
      currentLogLevel (world (createLogger rt config w)) = Rank n)
  ∧ (forall lv n,
        str_truthy (logLevel config) = false ->
        LOG_LEVEL rt = Some lv -> LOG_LEVELS lv = Some n ->
        currentLogLevel (world (createLogger rt config w)) = Rank n)
  ∧ (str_truthy (logLevel config) = false ->
     str_truthy (LOG_LEVEL rt) = false ->
     currentLogLevel (world (createLogger rt config w))
     = if is_dev rt then Rank 0 else Rank 1).
Proof.
  rewrite createLogger_level. unfold configuredLevel. repeat split.
  - intros lv n -> Hn. simpl. rewrite (LOG_LEVELS_truthy _ _ Hn). simpl.
    by rewrite (LOG_LEVELS_at_own _ _ Hn).
  - intros lv n -> -> Hn. simpl. rewrite (LOG_LEVELS_truthy _ _ Hn). simpl.
    by rewrite (LOG_LEVELS_at_own _ _ Hn).
  - intros -> ->. by destruct (is_dev rt).
Qed.

Lemma createLogger_level_resolution_witness :
  currentLogLevel
    (world (createLogger (Demo.runtime (Some "dev") None)
              (mkConfig None (Some "error")) (initial ∅))) = Rank 3
  ∧ currentLogLevel
      (world (createLogger Demo.dev (mkConfig None None) (initial ∅))) = Rank 0.
Proof.
  split.
  - apply (proj1 (createLogger_level_resolution (Demo.runtime (Some "dev") None)
                    (mkConfig None (Some "error")) (initial ∅))
             "error" 3 eq_refl eq_refl).
  - apply (proj2 (proj2 (createLogger_level_resolution Demo.dev
                           (mkConfig None None) (initial ∅)))
             eq_refl eq_refl).
Defined.

(** X2: neither [createLogger], nor the call of [initializeConnection], nor
    any later stretch of it between two awaits ever throws, whatever the
    client does.  Every failure of the set-up, a rejected await as well as
    a client call that fails on the spot, ends in the console: the stretch
    in which it happens ends by printing it with [console.error] under the
    banner of the [catch] that received it and parks nothing; a stretch in
    which nothing fails prints no error. *)
Theorem initialization_never_throws rt :
  (forall config w, outcome (createLogger rt config w) = Ret tt)
  ∧ (forall config w, outcome (initializeConnection rt config w) = Ret tt)
  ∧ (forall t r w, outcome (initializeConnection_resume rt t r w) = Ret tt)
  ∧ (forall c lvl w e,
        dbInitialized w = false ->
        start_failure rt c = Some e ->
        last (events (initializeConnection rt (mkConfig (Some c) lvl) w))
        = Some (ConsoleError [VStr "Failed to initialize logs database:"; e])
        ∧ tasks (world (initializeConnection rt (mkConfig (Some c) lvl) w)) = tasks w)
  ∧ (forall c lvl w,
        dbInitialized w = false ->
        start_failure rt c = None ->
        Forall (fun ev => is_console_error ev = false)
          (events (initializeConnection rt (mkConfig (Some c) lvl) w)))
  ∧ (forall t r w banner e,
        resume_failure rt t r w = Some (banner, e) ->
        last (events (initializeConnection_resume rt t r w))
        = Some (ConsoleError [VStr banner; e])
        ∧ tasks (world (initializeConnection_resume rt t r w)) = tasks w)
  ∧ (forall t r w,
        resume_failure rt t r w = None ->
        Forall (fun ev => is_console_error ev = false)
          (events (initializeConnection_resume rt t r w))).
Proof.
  split; [|split; [|split; [|split; [|split; [|split]]]]].
  - intros config w. unfold createLogger. fold (configuredLevel rt config).
    generalize (default (Rank 1) (LOG_LEVELS_at (configuredLevel rt config))).
    intros n.
    unfold initializeConnection, createConnectionPool, query, suspend, init_failed.
    run_oracles; reflexivity.
  - intros config w. unfold initializeConnection. rewrite bind_get_world.
    destruct (dbInitialized w), (mysql config); try done.
    by apply try_catch_returns.
  - intros t r w. by apply try_catch_returns.
  - intros c lvl w e Hd. unfold start_failure, databaseName.
    unfold initializeConnection, createConnectionPool, query, suspend, init_failed.
    rewrite bind_get_world, Hd. cbn [mysql].
    destruct (createConnectionPool_throws rt (tempPool c)) as [e1|].
    + by intros [= <-].
    + intros Hq. unfold try_catch, bind, ret, throw, emit, events, world.
      cbn [fst snd]. by rewrite Hq.
  - intros c lvl w Hd. unfold start_failure, databaseName.
    unfold initializeConnection, createConnectionPool, query, suspend, init_failed.
    rewrite bind_get_world, Hd. cbn [mysql].
    destruct (createConnectionPool_throws rt (tempPool c)) as [e1|]; [done|].
    intros Hq. unfold try_catch, bind, ret, throw, emit, modify, events, world.
    cbn [fst snd]. rewrite Hq. cbn [fst snd]. by repeat constructor.
  - intros t r w banner e.
    unfold resume_failure, conn_failure, initializeConnection_resume, migration,
      awaited, dispose, createConnectionPool, conn_query, query, suspend, init_failed.
    destruct t, r as [[|rows]|e0]; run_oracles; intros [= <- <-]; done.
  - intros t r w.
    unfold resume_failure, conn_failure, initializeConnection_resume, migration,
      awaited, dispose, createConnectionPool, conn_query, query, suspend, init_failed.
    destruct t, r as [[|rows]|e0]; run_oracles; intros Hf; try discriminate Hf;
      by repeat constructor.
Qed.

Lemma initialization_never_throws_witness :
  last (events (initializeConnection Demo.offline
                  (mkConfig (Some Demo.mysqlConfig) None) (initial ∅)))
  = Some (ConsoleError [VStr "Failed to initialize logs database:"; VStr "ENOTFOUND"])
  ∧ Forall (fun ev => is_console_error ev = false)
      (events (initializeConnection_resume Demo.prod AwaitCreateTable
                 (Fulfilled 0) Demo.ready_info)).
Proof.
  split.
  - pose proof (initialization_never_throws Demo.offline)
      as (_ & _ & _ & Hfail & _).
    by apply (Hfail Demo.mysqlConfig None (initial ∅) (VStr "ENOTFOUND")).
  - pose proof (initialization_never_throws Demo.prod) as (_ & _ & _ & _ & _ & _ & Hclean).
    by apply Hclean.
Defined.

(** X3: a rejection of one of the awaits before the migration (database
    creation, disposal of the bootstrap pool, table creation) ends that
    initialisation: it prints one console error with the reason, changes no
    module variable (the flag stays as it was) and parks nothing, so nothing
    retries. *)
Theorem setup_failure_ends_initialisation rt t e w :
  in_migration t = false ->
  initializeConnection_resume rt t (Rejected e) w
  = (Ret tt, w, [ConsoleError [VStr "Failed to initialize logs database:"; e]]).
Proof. intros Ht. by destruct t. Qed.

Lemma setup_failure_ends_initialisation_witness :
  initializeConnection_resume Demo.prod
    (AwaitCreateDatabase Demo.mysqlConfig "logs" (tempPool Demo.mysqlConfig))
    (Rejected (VStr "ECONNREFUSED")) (initial ∅)
  = (Ret tt, initial ∅,
     [ConsoleError [VStr "Failed to initialize logs database:"; VStr "ECONNREFUSED"]]).
Proof.
  apply (setup_failure_ends_initialisation Demo.prod
           (AwaitCreateDatabase Demo.mysqlConfig "logs" (tempPool Demo.mysqlConfig))
           (VStr "ECONNREFUSED") (initial ∅) eq_refl).
Defined.

Example refused_connection_leaves_store_off :
  (run Demo.prod
     [CreateLogger (mkConfig (Some Demo.mysqlConfig) None);
      Resume 0 (Rejected (VStr "ECONNREFUSED"))] (initial ∅)).1
  = initial ∅.
Proof. vm_compute. reflexivity. Qed.

(** X4: a failure of the migration is not critical: when [SHOW COLUMNS] or
    [ALTER TABLE] is rejected, the failure is printed and the store becomes
    ready all the same. *)
Theorem migration_failure_still_ready rt t e w :
  in_migration t = true ->
  initializeConnection_resume rt t (Rejected e) w
  = (Ret tt, set_dbInitialized true w,
     [ConsoleError [VStr "[log-lib] Migration failed (non-critical):"; e]]).
Proof. intros Ht. by destruct t. Qed.

Lemma migration_failure_still_ready_witness :
  initializeConnection_resume Demo.prod AwaitAlterTable (Rejected (VStr "denied"))
    (mkWorld ∅ (Some Demo.pool) false (Rank 1) [] 0)
  = (Ret tt, Demo.ready_info,
     [ConsoleError [VStr "[log-lib] Migration failed (non-critical):"; VStr "denied"]]).
Proof.
  apply (migration_failure_still_ready Demo.prod AwaitAlterTable (VStr "denied")
           (mkWorld ∅ (Some Demo.pool) false (Rank 1) [] 0) eq_refl).
Defined.

Lemma net_events_app l1 l2 : net_events (l1 ++ l2) = net_events l1 ++ net_events l2.
Proof. unfold net_events. apply List.filter_app. Qed.

Lemma demo_client_ok env json : client_ok (Demo.runtime env json).
Proof. by repeat split. Qed.

(** *** One stretch of the initialisation at a time *)

Section InitSteps.

Variable rt : Runtime.
Hypothesis Hok : client_ok rt.

Lemma createLogger_configured c lvl w :
  dbInitialized w = false ->
  createLogger rt (mkConfig (Some c) lvl) w
  = (Ret tt,
     set_tasks (tasks w ++ [AwaitCreateDatabase c (databaseName c) (tempPool c)])
       (set_currentLogLevel
          (default (Rank 1) (LOG_LEVELS_at (configuredLevel rt (mkConfig (Some c) lvl)))) w),
     [NetCreatePool (tempPool c);
      NetQuery (tempPool c) (CreateDatabase (databaseName c));
      ProcessOn "uncaughtException"; ProcessOn "unhandledRejection"]).
Proof.
  destruct Hok as (Hp & Hq & _). intros Hd.
  unfold createLogger. fold (configuredLevel rt (mkConfig (Some c) lvl)).
  generalize (default (Rank 1) (LOG_LEVELS_at (configuredLevel rt (mkConfig (Some c) lvl)))).
  intros n.
  unfold initializeConnection, createConnectionPool, query, suspend, init_failed.
  fold (databaseName c).
  unfold try_catch, bind, lift, ret, throw, emit, modify, get_world.
  simpl. rewrite Hd. simpl. rewrite Hp. simpl. rewrite Hq. reflexivity.
Qed.

Lemma createLogger_ready config w :
  dbInitialized w = true ->
  createLogger rt config w
  = (Ret tt, set_currentLogLevel (default (Rank 1) (LOG_LEVELS_at (configuredLevel rt config))) w,
     [ProcessOn "uncaughtException"; ProcessOn "unhandledRejection"]).
Proof.
  intros Hd. unfold createLogger. fold (configuredLevel rt config).
  generalize (default (Rank 1) (LOG_LEVELS_at (configuredLevel rt config))). intros n.
  unfold initializeConnection.
  unfold try_catch, bind, lift, ret, throw, emit, modify, get_world.
  simpl. destruct (mysql config); simpl; by rewrite ?Hd.
Qed.

Lemma resume_createDatabase c db p rows w :
  initializeConnection_resume rt (AwaitCreateDatabase c db p) (Fulfilled rows) w
  = (Ret tt, set_tasks (tasks w ++ [AwaitDispose c db]) w, [NetDispose p]).
Proof.
  destruct Hok as (_ & _ & Hd).
  unfold initializeConnection_resume, awaited, dispose, suspend.
  unfold try_catch, bind, ret, emit, modify. simpl. by rewrite Hd.
Qed.

Lemma resume_dispose c db rows w :
  initializeConnection_resume rt (AwaitDispose c db) (Fulfilled rows) w
  = (Ret tt, set_tasks (tasks w ++ [AwaitCreateTable]) (set_conn (Some (mainPool c db)) w),
     [NetCreatePool (mainPool c db); NetQuery (mainPool c db) CreateTable]).
Proof.
  destruct Hok as (Hp & Hq & _).
  unfold initializeConnection_resume, awaited, createConnectionPool, conn_query, query,
    suspend.
  unfold try_catch, bind, ret, emit, modify, get_world. simpl. rewrite Hp.
  simpl. by rewrite Hq.
Qed.

Lemma resume_createTable p rows w :
  conn w = Some p ->
  initializeConnection_resume rt AwaitCreateTable (Fulfilled rows) w
  = (Ret tt, set_tasks (tasks w ++ [AwaitShowColumns]) w, [NetQuery p ShowColumns]).
Proof.
  destruct Hok as (_ & Hq & _). intros Hc.
  unfold initializeConnection_resume, migration, awaited, conn_query, query, suspend.
  unfold try_catch, bind, ret, emit, modify, get_world. simpl. rewrite Hc. simpl.
  by rewrite Hq.
Qed.

Lemma resume_showColumns_present rows w :
  initializeConnection_resume rt AwaitShowColumns (Fulfilled (S rows)) w
  = (Ret tt, set_dbInitialized true w, []).
Proof. reflexivity. Qed.

Lemma resume_showColumns_absent p w :
  conn w = Some p ->
  initializeConnection_resume rt AwaitShowColumns (Fulfilled 0) w
  = (Ret tt, set_tasks (tasks w ++ [AwaitAlterTable]) w,
     [ConsoleLog [VStr "[log-lib] Running migration: Adding stacktrace column..."];
      NetQuery p AlterAddStacktrace]).
Proof.
  destruct Hok as (_ & Hq & _). intros Hc.
  unfold initializeConnection_resume, migration, awaited, conn_query, query, suspend.
  unfold try_catch, bind, ret, emit, modify, get_world. simpl. rewrite Hc. simpl.
  by rewrite Hq.
Qed.

Lemma resume_alterTable rows w :
  initializeConnection_resume rt AwaitAlterTable (Fulfilled rows) w
  = (Ret tt, set_dbInitialized true w,
     [ConsoleLog [VStr "[log-lib] Migration complete: stacktrace column added"]]).
Proof. reflexivity. Qed.

End InitSteps.

Lemma run_cons rt a rest w :
  run rt (a :: rest) w
  = ((run rt rest (world (step rt a w))).1,
     events (step rt a w) ++ (run rt rest (world (step rt a w))).2).
Proof. reflexivity. Qed.

Lemma step_resume_head rt t ts r w :
  tasks w = t :: ts ->
  step rt (Resume 0 r) w = initializeConnection_resume rt t r (set_tasks ts w).
Proof. intros Ht. simpl. by rewrite Ht. Qed.

Arguments databaseName : simpl never.
Arguments configuredLevel : simpl never.

(** The first three settlements: the store has its pool and waits for the
    answer to [SHOW COLUMNS]. *)
Lemma boot_prefix rt c lvl h0 :
  client_ok rt ->
  run rt [CreateLogger (mkConfig (Some c) lvl); Resume 0 (Fulfilled 0);
          Resume 0 (Fulfilled 0); Resume 0 (Fulfilled 0)] (initial h0)
  = (mkWorld h0 (Some (mainPool c (databaseName c))) false
       (default (Rank 1) (LOG_LEVELS_at (configuredLevel rt (mkConfig (Some c) lvl))))
       [AwaitShowColumns] 0,
     [NetCreatePool (tempPool c);
      NetQuery (tempPool c) (CreateDatabase (databaseName c));
      ProcessOn "uncaughtException"; ProcessOn "unhandledRejection";
      NetDispose (tempPool c);
      NetCreatePool (mainPool c (databaseName c));
      NetQuery (mainPool c (databaseName c)) CreateTable;
      NetQuery (mainPool c (databaseName c)) ShowColumns]).
Proof.
  intros Hok.
  rewrite run_cons. cbn [step]. rewrite (createLogger_configured rt Hok) by done.
  cbn [world events fst snd].
  rewrite run_cons. erewrite step_resume_head by reflexivity.
  rewrite (resume_createDatabase rt Hok). cbn [world events fst snd].
  rewrite run_cons. erewrite step_resume_head by reflexivity.
  rewrite (resume_dispose rt Hok). cbn [world events fst snd].
  rewrite run_cons. erewrite step_resume_head by reflexivity.
  rewrite (resume_createTable rt Hok (mainPool c (databaseName c))) by done.
  reflexivity.
Qed.

Lemma run_app rt l1 l2 w :
  run rt (l1 ++ l2) w
  = ((run rt l2 (run rt l1 w).1).1, (run rt l1 w).2 ++ (run rt l2 (run rt l1 w).1).2).
Proof.
  revert w. induction l1 as [|a l1 IH]; intros w.
  - simpl. by destruct (run rt l2 w).
  - rewrite <- app_comm_cons, !run_cons, IH. cbn [fst snd]. by rewrite app_assoc.
Qed.

Lemma boot_run rt c lvl h0 columns :
  client_ok rt ->
  run rt (boot (mkConfig (Some c) lvl) columns) (initial h0)
  = match columns with
    | S _ =>
        (mkWorld h0 (Some (mainPool c (databaseName c))) true
           (default (Rank 1) (LOG_LEVELS_at (configuredLevel rt (mkConfig (Some c) lvl)))) [] 0,
         [NetCreatePool (tempPool c);
          NetQuery (tempPool c) (CreateDatabase (databaseName c));
          ProcessOn "uncaughtException"; ProcessOn "unhandledRejection";
          NetDispose (tempPool c);
          NetCreatePool (mainPool c (databaseName c));
          NetQuery (mainPool c (databaseName c)) CreateTable;
          NetQuery (mainPool c (databaseName c)) ShowColumns])
    | O =>
        (mkWorld h0 (Some (mainPool c (databaseName c))) false
           (default (Rank 1) (LOG_LEVELS_at (configuredLevel rt (mkConfig (Some c) lvl))))
           [AwaitAlterTable] 0,
         [NetCreatePool (tempPool c);
          NetQuery (tempPool c) (CreateDatabase (databaseName c));
          ProcessOn "uncaughtException"; ProcessOn "unhandledRejection";
          NetDispose (tempPool c);
          NetCreatePool (mainPool c (databaseName c));
          NetQuery (mainPool c (databaseName c)) CreateTable;
          NetQuery (mainPool c (databaseName c)) ShowColumns;
          ConsoleLog [VStr "[log-lib] Running migration: Adding stacktrace column..."];
          NetQuery (mainPool c (databaseName c)) AlterAddStacktrace])
    end.
Proof.
  intros Hok. unfold boot.
  change [CreateLogger (mkConfig (Some c) lvl); Resume 0 (Fulfilled 0);
          Resume 0 (Fulfilled 0); Resume 0 (Fulfilled 0); Resume 0 (Fulfilled columns)]
    with ([CreateLogger (mkConfig (Some c) lvl); Resume 0 (Fulfilled 0);
           Resume 0 (Fulfilled 0); Resume 0 (Fulfilled 0)]
          ++ [Resume 0 (Fulfilled columns)]).
  rewrite run_app, (boot_prefix rt c lvl h0 Hok). cbn [fst snd].
  rewrite run_cons. erewrite step_resume_head by reflexivity.
  destruct columns as [|k].
  - rewrite (resume_showColumns_absent rt Hok (mainPool c (databaseName c))) by done.
    reflexivity.
  - rewrite resume_showColumns_present. reflexivity.
Qed.

(** X5: with a client that does not fail, [createLogger] with store
    settings followed by the four settlements brings the store from the
    freshly loaded module to ready, with [conn] the pool on the configured
    database (['logs'] when none is named), nothing left parked, and exactly
    this traffic, in this order: the bootstrap pool, [CREATE DATABASE], its
    disposal, the main pool, [CREATE TABLE], [SHOW COLUMNS]; the [ALTER
    TABLE] of the migration is not sent when the column is there. *)
Theorem initialisation_reaches_ready rt c lvl h0 columns :
  client_ok rt ->
  (0 < columns)%nat ->
  conn (run rt (boot (mkConfig (Some c) lvl) columns) (initial h0)).1
  = Some (mainPool c (databaseName c))
  ∧ dbInitialized (run rt (boot (mkConfig (Some c) lvl) columns) (initial h0)).1 = true
  ∧ tasks (run rt (boot (mkConfig (Some c) lvl) columns) (initial h0)).1 = []
  ∧ net_events (run rt (boot (mkConfig (Some c) lvl) columns) (initial h0)).2
    = [NetCreatePool (tempPool c);
       NetQuery (tempPool c) (CreateDatabase (databaseName c));
       NetDispose (tempPool c);
       NetCreatePool (mainPool c (databaseName c));
       NetQuery (mainPool c (databaseName c)) CreateTable;
       NetQuery (mainPool c (databaseName c)) ShowColumns].
Proof.
  intros Hok Hcol. rewrite (boot_run rt c lvl h0 columns Hok).
  destruct columns as [|k]; [lia|]. by repeat split.
Qed.

Lemma initialisation_reaches_ready_witness :
  conn (run Demo.prod (boot (mkConfig (Some Demo.mysqlConfig) None) 1) (initial ∅)).1
  = Some Demo.pool
  ∧ dbInitialized
      (run Demo.prod (boot (mkConfig (Some Demo.mysqlConfig) None) 1) (initial ∅)).1
    = true.
Proof.
  pose proof (initialisation_reaches_ready Demo.prod Demo.mysqlConfig None ∅ 1
                (demo_client_ok _ _) (le_n 1)) as (Hc & Hd & _).
  split; [exact Hc | exact Hd].
Defined.

(** X6: when [SHOW COLUMNS] answers no row, the migration runs: after the
    fourth settlement the store is not yet ready, one activation is parked
    at the [ALTER TABLE] that was just sent on the pool, and the settlement
    of that statement makes the store ready and is announced on the
    console. *)
Theorem migration_adds_missing_column rt c lvl h0 rows :
  client_ok rt ->
  dbInitialized (run rt (boot (mkConfig (Some c) lvl) 0) (initial h0)).1 = false
  ∧ tasks (run rt (boot (mkConfig (Some c) lvl) 0) (initial h0)).1 = [AwaitAlterTable]
  ∧ last (net_events (run rt (boot (mkConfig (Some c) lvl) 0) (initial h0)).2)
    = Some (NetQuery (mainPool c (databaseName c)) AlterAddStacktrace)
  ∧ run rt [Resume 0 (Fulfilled rows)]
      (run rt (boot (mkConfig (Some c) lvl) 0) (initial h0)).1
    = (set_tasks [] (set_dbInitialized true
                       (run rt (boot (mkConfig (Some c) lvl) 0) (initial h0)).1),
       [ConsoleLog [VStr "[log-lib] Migration complete: stacktrace column added"]]).
Proof.
  intros Hok. rewrite (boot_run rt c lvl h0 0 Hok). cbn [fst snd].
  split; [done|]. split; [done|]. split; [done|].
  rewrite run_cons. erewrite step_resume_head by reflexivity.
  rewrite resume_alterTable. reflexivity.
Qed.

Lemma migration_adds_missing_column_witness :
  dbInitialized
    (run Demo.prod (boot (mkConfig (Some Demo.mysqlConfig) None) 0) (initial ∅)).1 = false
  ∧ dbInitialized
      (run Demo.prod [Resume 0 (Fulfilled 0)]
         (run Demo.prod (boot (mkConfig (Some Demo.mysqlConfig) None) 0) (initial ∅)).1).1
    = true.
Proof.
  pose proof (migration_adds_missing_column Demo.prod Demo.mysqlConfig None ∅ 0
                (demo_client_ok _ _)) as (Hd & _ & _ & Hlast).
  split; [exact Hd|]. by rewrite Hlast.
Defined.

(** X7: [createLogger] starts the store initialisation afresh whenever the
    flag is down, also while an earlier initialisation is still parked: it
    opens a bootstrap pool, sends [CREATE DATABASE] and parks one more
    activation.  Once the flag is up it sends nothing and parks nothing.
    Either way it registers both process handlers, at every call. *)
Theorem createLogger_restarts_until_ready rt c lvl w :
  client_ok rt ->
  (dbInitialized w = false ->
   net_events (events (createLogger rt (mkConfig (Some c) lvl) w))
   = [NetCreatePool (tempPool c);
      NetQuery (tempPool c) (CreateDatabase (databaseName c))]
   ∧ tasks (world (createLogger rt (mkConfig (Some c) lvl) w))
     = tasks w ++ [AwaitCreateDatabase c (databaseName c) (tempPool c)])
  ∧ (dbInitialized w = true ->
     net_events (events (createLogger rt (mkConfig (Some c) lvl) w)) = []
     ∧ tasks (world (createLogger rt (mkConfig (Some c) lvl) w)) = tasks w)
  ∧ List.filter is_process_on (events (createLogger rt (mkConfig (Some c) lvl) w))
    = [ProcessOn "uncaughtException"; ProcessOn "unhandledRejection"].
Proof.
  intros Hok. split; [|split].
  - intros Hd. by rewrite (createLogger_configured rt Hok).
  - intros Hd. by rewrite (createLogger_ready rt).
  - destruct (dbInitialized w) eqn:Hd.
    + by rewrite (createLogger_ready rt).
    + by rewrite (createLogger_configured rt Hok).
Qed.

Lemma createLogger_restarts_until_ready_witness :
  tasks (world (createLogger Demo.prod (mkConfig (Some Demo.mysqlConfig) None)
                  (world (createLogger Demo.prod (mkConfig (Some Demo.mysqlConfig) None)
                            (initial ∅)))))
  = [AwaitCreateDatabase Demo.mysqlConfig "logs" (tempPool Demo.mysqlConfig);
     AwaitCreateDatabase Demo.mysqlConfig "logs" (tempPool Demo.mysqlConfig)].
Proof.
  pose proof (createLogger_restarts_until_ready Demo.prod Demo.mysqlConfig None
                (world (createLogger Demo.prod (mkConfig (Some Demo.mysqlConfig) None)
                          (initial ∅)))
                (demo_client_ok _ _)) as (Hdown & _ & _).
  destruct (Hdown eq_refl) as [_ Ht].
  exact Ht.
Defined.

(** ** What the methods send and when the process is told to exit *)

Lemma net_events_quiet l : Forall (fun e => is_net e = false) l -> net_events l = [].
Proof.
  induction 1 as [|e l He _ IH]; [done|]. unfold net_events in *. simpl. by rewrite He.
Qed.

Section Sends.

Context {A B : Type} (w0 : World) (P : list Event -> Prop).

Lemma sends_bind_quiet (m : M A) (k : A -> M B) w :
  keeps w0 (fun ev => is_net ev = false) m w ->
  P [] ->
  (forall a w', same w0 w' -> P (net_events (events (k a w')))) ->
  P (net_events (events (bind m k w))).
Proof.
  unfold keeps, bind, events, world. intros [Hev Hs] Hnil Hk.
  destruct (m w) as [[[a|e] w1] ev1]; cbn [fst snd] in *.
  - specialize (Hk a w1 Hs). destruct (k a w1) as [[o2 w2] ev2]; cbn [fst snd] in *.
    by rewrite net_events_app, (net_events_quiet _ Hev).
  - by rewrite (net_events_quiet _ Hev).
Qed.

Lemma sends_get_world (k : World -> M B) w :
  P (net_events (events (k w w))) -> P (net_events (events (bind get_world k w))).
Proof. by rewrite bind_get_world. Qed.

Lemma sends_quiet (m : M A) w :
  keeps w0 (fun ev => is_net ev = false) m w -> P [] -> P (net_events (events (m w))).
Proof. intros [Hev _] Hnil. by rewrite (net_events_quiet _ Hev). Qed.

End Sends.

Lemma storeInDB_sends rt w0 c lv message meta st w :
  same w0 w -> call_level c = Some lv -> persists c = true ->
  one_insert w0 c (net_events (events (storeInDB rt lv message meta st w))).
Proof.
  intros (Hc & Hd & _) Hlv Hp.
  destruct (conn w) as [p|] eqn:Hcw, (dbInitialized w) eqn:Hdw;
    try (rewrite storeInDB_not_ready by eauto; by left).
  destruct (storeInDB_ready_events rt lv message meta st w p Hcw Hdw)
    as [(msg & metaStr & stackStr & ->) | (e & ->)]; [|by left].
  right. exists p, lv, msg, metaStr, stackStr. repeat split; congruence.
Qed.

Lemma storeInDB_then_emit_sends rt lv message meta st e w :
  is_net e = false ->
  net_events (events ((storeInDB rt lv message meta st;; emit e) w))
  = net_events (events (storeInDB rt lv message meta st w)).
Proof.
  intros He. pose proof (storeInDB_returns rt lv message meta st w) as Hr.
  unfold bind, emit, outcome, events in *.
  destruct (storeInDB rt lv message meta st w) as [[o w1] ev1]; cbn [fst snd] in *.
  subst o. cbn [fst snd].
  rewrite net_events_app. unfold net_events at 2. simpl. rewrite He. apply app_nil_r.
Qed.

Ltac sends_step w0 c :=
  lazymatch goal with
  | |- one_insert _ _ (net_events (events (bind get_world _ _))) =>
      apply (sends_get_world (one_insert w0 c))
  | |- one_insert _ _ (net_events (events (bind (storeInDB _ _ _ _ _) _ _))) =>
      rewrite storeInDB_then_emit_sends by reflexivity;
      apply storeInDB_sends; [assumption | reflexivity | reflexivity]
  | |- one_insert _ _ (net_events (events (storeInDB _ _ _ _ _ _))) =>
      apply storeInDB_sends; [assumption | reflexivity | reflexivity]
  | |- one_insert _ _ (net_events (events (bind _ _ _))) =>
      apply (sends_bind_quiet w0 (one_insert w0 c));
      [ repeat call_step; footprint_side | by left | intros ? ? ? ]
  | |- one_insert _ _ (net_events (events ((if ?b then _ else _) _))) => destruct b eqn:?
  | |- one_insert _ _ (net_events (events ((match ?x with _ => _ end) _))) =>
      destruct x eqn:?
  | |- one_insert _ _ (net_events (events _)) =>
      apply (sends_quiet w0 (one_insert w0 c));
      [ repeat call_step; footprint_side | by left ]
  end.

(** X8: every call of a logger method sends at most one statement.  If it
    sends one, the method is one of those that persist, the store is ready,
    and the statement is an [INSERT] whose level is the level of the call,
    sent on the pool that [conn] holds. *)
Theorem call_sends_at_most_one_insert rt c w :
  one_insert w c (net_events (events (call rt c w))).
Proof.
  pose proof (same_refl w) as Hs.
  destruct c; simpl call;
    unfold logger_info, logger_error, logger_errorEnriched, logger_warn, logger_debug,
      fastifyLogger_info, fastifyLogger_error, fastifyLogger_warn, fastifyLogger_debug,
      fastifyLogger_fatal, fastifyLogger_trace, fastifyLogger_child;
    repeat
      match goal with
      | |- one_insert ?w0 ?c _ => sends_step w0 c
      end.
Qed.

(** X9: [fastifyLogger.info] renders to the console but, unlike
    [logger.info], never writes to the store, ready or not; [trace] and
    [child] do nothing at all. *)
Theorem fastify_info_is_console_only rt msg args bindings w :
  Forall (fun e => is_console_log e = true) (events (fastifyLogger_info rt msg args w))
  ∧ same w (world (fastifyLogger_info rt msg args w))
  ∧ fastifyLogger_trace msg args w = (Ret tt, w, [])
  ∧ fastifyLogger_child bindings w = (Ret tt, w, []).
Proof.
  split; [|split; [|done]].
  - apply (call_events rt (FastifyInfo msg args)).
    intros [] Hf; simpl in *; try done;
      try (by destruct Hf as [[=] _]); try (by destruct Hf as (? & ? & [=])).
    destruct q; try done. by destruct Hf as [[=] _].
  - apply (call_same rt (FastifyInfo msg args)).
Qed.

Section EndsWith.

Context {A B : Type} (e0 : Event).

Lemma ends_bind (m : M A) (k : A -> M B) w :
  (forall a w', ends_with e0 (k a) w') -> ends_with e0 (bind m k) w.
Proof.
  unfold ends_with, bind, outcome, events. intros Hk b.
  destruct (m w) as [[[a|e] w1] ev1]; simpl; [|done].
  specialize (Hk a w1 b). destruct (k a w1) as [[o2 w2] ev2]; simpl in *.
  intros Hb. rewrite last_app, (Hk Hb). done.
Qed.

Lemma ends_emit w : ends_with e0 (emit e0) w.
Proof. by intros a _. Qed.

End EndsWith.

Ltac ends_step :=
  lazymatch goal with
  | |- ends_with _ (bind _ _) _ => apply ends_bind; intros ? ?
  | |- ends_with _ (emit _) _ => apply ends_emit
  | |- ends_with _ (match ?x with _ => _ end) _ => destruct x
  end.

(** X10: a [fatal] call that completes has, as the last thing it did, set
    the timer that exits the process with code 1 after 100 ms, after the
    console line and the store write; no other method of either logger ever
    sets that timer. *)
Theorem only_fatal_schedules_exit rt msg args c w :
  ends_with (SetTimeoutExit 1 100) (fastifyLogger_fatal rt msg args) w
  ∧ ((forall m a, c <> FastifyFatal m a) ->
     Forall (fun e => is_exit e = false) (events (call rt c w))).
Proof.
  split.
  - unfold fastifyLogger_fatal. repeat ends_step.
  - intros Hc. apply call_events.
    intros [] Hf; simpl in *; try done.
    destruct Hf as (m & a & ->). by destruct (Hc m a).
Qed.

Lemma only_fatal_schedules_exit_witness :
  last (events (fastifyLogger_fatal Demo.prod (VStr "x") [] Demo.ready_info))
  = Some (SetTimeoutExit 1 100)
  ∧ Forall (fun e => is_exit e = false)
      (events (call Demo.prod (LoggerError (VStr "x") VUndef) Demo.ready_info)).
Proof.
  pose proof (only_fatal_schedules_exit Demo.prod (VStr "x") []
                (LoggerError (VStr "x") VUndef) Demo.ready_info) as [Hend Hothers].
  split; [by apply (Hend tt) | by apply Hothers].
Defined.

Lemma events_bind_emit {B} e (k : unit -> M B) w :
  events (bind (emit e) k w) = e :: events (k tt w).
Proof. unfold bind, emit, events. by destruct (k tt w) as [[o2 w2] ev2]. Qed.

Lemma outcome_bind_emit {B} e (k : unit -> M B) w :
  outcome (bind (emit e) k w) = outcome (k tt w).
Proof. unfold bind, emit, outcome. by destruct (k tt w) as [[o2 w2] ev2]. Qed.

Lemma outcome_bind_returns {A B} (m : M A) (k : A -> M B) (b : B) w :
  (exists a, outcome (m w) = Ret a) ->
  (forall a w', outcome (k a w') = Ret b) ->
  outcome (bind m k w) = Ret b.
Proof.
  unfold bind, outcome. intros [a Ha] Hk.
  destruct (m w) as [[o w1] ev1]; simpl in *. subst o.
  specialize (Hk a w1). by destruct (k a w1) as [[o2 w2] ev2].
Qed.

Lemma logger_error_quiet_exit rt m v w0 w :
  same w0 w -> keeps w0 (fun e => is_exit e = false) (logger_error rt m v) w.
Proof.
  intros Hs. apply (keeps_weaken _ (footprint rt w0 (LoggerError m v))).
  - intros [] Hf; simpl in *; try done. by destruct Hf as (? & ? & ?).
  - by apply (call_footprint rt (LoggerError m v)).
Qed.

(** X11: the two process-wide handlers never throw.  Both begin with the
    raw console banner and the fault itself, before the logger is tried.
    The handler of an uncaught exception ends by setting the exit timer
    (code 1, 100 ms), whether logging worked or not; the handler of an
    unhandled rejection never sets it and leaves the module variables
    alone. *)
Theorem fault_handlers rt v w :
  outcome (onUncaughtException rt v w) = Ret tt
  ∧ take 2 (events (onUncaughtException rt v w))
    = [ConsoleError [VStr "=== UNCAUGHT EXCEPTION ==="]; ConsoleError [v]]
  ∧ last (events (onUncaughtException rt v w)) = Some (SetTimeoutExit 1 100)
  ∧ outcome (onUnhandledRejection rt v w) = Ret tt
  ∧ take 2 (events (onUnhandledRejection rt v w))
    = [ConsoleError [VStr "=== UNHANDLED REJECTION ==="]; ConsoleError [v]]
  ∧ Forall (fun e => is_exit e = false) (events (onUnhandledRejection rt v w))
  ∧ same w (world (onUnhandledRejection rt v w)).
Proof.
  assert (outcome (onUncaughtException rt v w) = Ret tt) as Hret.
  { unfold onUncaughtException. rewrite bind_get_world, !outcome_bind_emit.
    apply outcome_bind_returns; [by destruct (_ && _); eexists|]. intros _ w1.
    apply outcome_bind_returns; [|done].
    exists tt. by apply try_catch_returns. }
  split; [exact Hret|]. split; [|split; [|split; [|split; [|split]]]].
  - unfold onUncaughtException. by rewrite bind_get_world, !events_bind_emit.
  - assert (ends_with (SetTimeoutExit 1 100) (onUncaughtException rt v) w) as He.
    { unfold onUncaughtException. repeat ends_step. }
    by apply (He tt).
  - unfold onUnhandledRejection. rewrite bind_get_world, !outcome_bind_emit.
    apply outcome_bind_returns; [by destruct (_ && _); eexists|]. intros _ w1.
    by apply try_catch_returns.
  - unfold onUnhandledRejection. by rewrite bind_get_world, !events_bind_emit.
  - assert (keeps w (fun e => is_exit e = false) (onUnhandledRejection rt v) w) as [H _];
      [|exact H].
    pose proof (same_refl w) as Hs. unfold onUnhandledRejection.
    repeat first [ apply logger_error_quiet_exit | keeps_step ]; done.
  - by destruct (keeps_hooks rt w v w (same_refl w)) as [_ [_ ?]].
Qed.

(** ** The code frame and the stack printer *)

Lemma omap_length {A B} (f : A -> Outcome B) l ys :
  omap f l = Ret ys -> length ys = length l.
Proof.
  revert ys. induction l as [|x l IH]; intros ys; simpl; [by intros [= <-]|].
  destruct (f x); simpl; [|done]. destruct (omap f l); simpl; [|done].
  intros [= <-]. simpl. f_equal. by apply IH.
Qed.

(** X12: [buildCodeFrame] never throws and changes nothing.  It touches
    the file system only for a frame with a file and a line, and then at
    most twice, at one path (the file itself when absolute, else joined to
    the working directory): one existence test and, only if that succeeds,
    one read.  A missing or unreadable file gives the empty frame. *)
Theorem buildCodeFrame_is_contained rt frame w :
  world (buildCodeFrame rt frame w) = w
  ∧ (exists s, outcome (buildCodeFrame rt frame w) = Ret s)
  ∧ (file frame = None ∨ file frame = Some "" ∨ line frame = None ->
     buildCodeFrame rt frame w = (Ret "", w, []))
  ∧ (forall f ln,
        file frame = Some f -> f <> "" -> line frame = Some ln ->
        (existsSync rt (codeFramePath rt f) = false
         ∧ buildCodeFrame rt frame w
           = (Ret "", w, [FsExistsSync (codeFramePath rt f)]))
        ∨ (existsSync rt (codeFramePath rt f) = true
           ∧ events (buildCodeFrame rt frame w)
             = [FsExistsSync (codeFramePath rt f); FsReadFileSync (codeFramePath rt f)]
           ∧ (forall e, readFileSync rt (codeFramePath rt f) = Throw e ->
                        outcome (buildCodeFrame rt frame w) = Ret ""))).
Proof.
  unfold buildCodeFrame, codeFramePath.
  destruct (file frame) as [f|], (line frame) as [ln|];
    try (split; [done|]; split; [by eexists|]; split; [done|]; by intros ? ? [=]).
  destruct f as [|ch f].
  { simpl. split; [done|]. split; [by eexists|]. split; [done|]. by intros ? ? [= <-]. }
  cbn [JsString.nonempty negb].
  set (p := if JsString.startsWith "/" (String ch f) then String ch f
            else path_join rt (cwd rt) (String ch f)).
  unfold try_catch, bind, lift, ret, emit, outcome, events, world.
  destruct (existsSync rt p) eqn:Hex; simpl.
  - destruct (readFileSync rt p) as [text|e] eqn:Hread; simpl.
    + match goal with
      | |- context [omap ?g ?l] => destruct (omap g l) as [rendered|e]
      end; simpl.
      all: split; [done|]; split; [by eexists|]; split; [by intros [|[|]]|].
      all: intros f' ln' [= <-] _ [= <-]; right; fold p; rewrite Hex.
      all: split; [done|]; split; [done|]; by rewrite Hread.
    + split; [done|]. split; [by eexists|]. split; [by intros [|[|]]|].
      intros f' ln' [= <-] _ [= <-]. right. fold p. rewrite Hex.
      split; [done|]. split; [done|]. done.
  - split; [done|]. split; [by eexists|]. split; [by intros [|[|]]|].
    intros f' ln' [= <-] _ [= <-]. left. fold p. by rewrite Hex.
Qed.

Lemma buildCodeFrame_is_contained_witness :
  events (buildCodeFrame Demo.dev (mkFrame (Some "src/app.ts") (Some 7) (Some 3))
            (initial ∅))
  = [FsExistsSync "/app/src/app.ts"; FsReadFileSync "/app/src/app.ts"].
Proof.
  destruct (proj2 (proj2 (proj2 (buildCodeFrame_is_contained Demo.dev
                                   (mkFrame (Some "src/app.ts") (Some 7) (Some 3))
                                   (initial ∅))))
              "src/app.ts" 7 eq_refl ltac:(discriminate) eq_refl)
    as [[Hex _] | (_ & Hev & _)]; [discriminate Hex | exact Hev].
Defined.

Lemma buildCodeFrame_returns rt frame w :
  exists s evs, buildCodeFrame rt frame w = (Ret s, w, evs).
Proof.
  unfold buildCodeFrame.
  destruct (file frame) as [f|], (line frame) as [ln|]; try by do 2 eexists.
  destruct (negb (JsString.nonempty f)); [by do 2 eexists|].
  unfold try_catch, bind, lift, ret, emit.
  destruct (existsSync rt _); simpl; [|by do 2 eexists].
  destruct (readFileSync rt _); simpl; [|by do 2 eexists].
  match goal with
  | |- context [omap ?g ?l] => destruct (omap g l)
  end; simpl; by do 2 eexists.
Qed.




(** X14: [printStackEnhanced] never throws and changes nothing.  It does
    nothing at all for a falsy value or a value whose [stack] is not a
    string; outside dev mode it prints exactly one console line, the stack
    cut to three lines by [formatStack]. *)
Theorem printStackEnhanced_is_safe rt v w :
  outcome (printStackEnhanced rt v w) = Ret tt
  ∧ world (printStackEnhanced rt v w) = w
  ∧ (Js.truthy v = false ∨ (forall s, Js.get (heap w) v "stack" <> VStr s) ->
     events (printStackEnhanced rt v w) = [])
  ∧ (forall stack,
        is_dev rt = false -> Js.truthy v = true ->
        Js.get (heap w) v "stack" = VStr stack ->
        events (printStackEnhanced rt v w) = [ConsoleLog [VStr (formatStack rt stack 3)]]).
Proof.
  unfold printStackEnhanced. destruct (Js.truthy v) eqn:Hv; simpl.
  2:{ repeat split; try done; by intros ? ? [=]. }
  rewrite bind_get_world.
  destruct (Js.get (heap w) v "stack") as [| | | |stack|] eqn:Hst;
    try (repeat split; try done; by intros ? ? ? [=]).
  destruct (is_dev rt) eqn:Hdev; cbn [andb].
  - match goal with
    | |- context [emit (ConsoleLog [VStr (formatStack rt ?o 3)])] => set (out := o)
    end.
    split; [|split; [|split]].
    3:{ intros [[=] | Hn]. by destruct (Hn stack). }
    3:{ by intros ? [=]. }
    all: unfold extractFirstProjectFrame, stackArg, bind, emit, lift;
      cbn [fst snd Js.truthy];
      destruct (JsString.nonempty out); cbn [negb obind];
      match goal with
      | |- context [buildCodeFrame _ ?fr ?w1] =>
          destruct (buildCodeFrame_returns rt fr w1) as (s & evs & ->)
      end;
      cbn [fst snd]; by destruct (JsString.nonempty s).
  - unfold bind, emit, ret. simpl.
    split; [done|]. split; [done|]. split.
    + intros [[=] | Hn]. by destruct (Hn stack).
    + by intros ? _ _ [= <-].
Qed.

Lemma printStackEnhanced_is_safe_witness :
  events (printStackEnhanced Demo.prod (VObj 1%positive) (initial Demo.withStack))
  = [ConsoleLog [VStr (formatStack Demo.prod
                         ("Error: boom" +:+ JsString.nl
                          +:+ "    at f (/app/src/app.ts:7:3)") 3)]].
Proof.
  apply (proj2 (proj2 (proj2 (printStackEnhanced_is_safe Demo.prod (VObj 1%positive)
                                (initial Demo.withStack))))); reflexivity.
Defined.
(** ** Lines of text: [split] and [join] *)

Lemma contains_char_app c a b :
  contains_char c (a +:+ b) = contains_char c a || contains_char c b.
Proof.
  induction a as [|x a IH]; simpl; [done|]. rewrite IH. by rewrite orb_assoc.
Qed.

(** No piece of [s.split(c)] holds the separator. *)
Lemma split_pieces c s :
  Forall (fun x => contains_char c x = false) (JsString.split c s).
Proof.
  induction s as [|a s IH]; simpl; [by repeat constructor|].
  destruct (Ascii.eqb a c) eqn:Hac; [by constructor|].
  destruct (JsString.split c s) as [|x xs]; [by repeat constructor; simpl; rewrite Hac|].
  apply Forall_cons in IH as [Hx Hxs]. constructor; [|done].
  simpl. by rewrite Hac.
Qed.

Lemma split_nonempty c s : JsString.split c s <> [].
Proof.
  destruct s as [|a s]; simpl; [done|].
  destruct (Ascii.eqb a c); [done|]. by destruct (JsString.split c s).
Qed.

Lemma split_whole c x : contains_char c x = false -> JsString.split c x = [x].
Proof.
  induction x as [|a x IH]; simpl; [done|].
  intros [Hac Hx]%orb_false_elim. rewrite Hac. by rewrite (IH Hx).
Qed.

Lemma split_app_sep c x r :
  contains_char c x = false ->
  JsString.split c (x +:+ String c r) = x :: JsString.split c r.
Proof.
  induction x as [|a x IH]; simpl.
  - intros _. by rewrite Ascii.eqb_refl.
  - intros [Hac Hx]%orb_false_elim. rewrite Hac. by rewrite (IH Hx).
Qed.

(** Splitting what was joined gives the pieces back. *)
Lemma split_join c l :
  l <> [] ->
  Forall (fun x => contains_char c x = false) l ->
  JsString.split c (JsString.join (String c EmptyString) l) = l.
Proof.
  unfold JsString.join. induction l as [|x l IH]; [done|]. intros _ Hall.
  apply Forall_cons in Hall as [Hx Hl]. destruct l as [|y l].
  - simpl. by apply split_whole.
  - change (String.concat (String c EmptyString) (x :: y :: l))
      with (x +:+ String c (String.concat (String c EmptyString) (y :: l))).
    rewrite split_app_sep by done. f_equal. by apply IH.
Qed.

Lemma lines_join l :
  l <> [] ->
  Forall (fun x => contains_char "010" x = false) l ->
  JsString.lines (JsString.join JsString.nl l) = l.
Proof. apply split_join. Qed.

Lemma ansi_one_line code l :
  contains_char "010" code = false ->
  contains_char "010" l = false ->
  contains_char "010" (ansi code l) = false.
Proof.
  intros Hc Hl. unfold ansi. rewrite !contains_char_app, Hc, Hl. reflexivity.
Qed.

(** X15: [formatStack] returns at most [maxLines] lines (one, empty, when
    there is nothing to show), each of them a line of the cleaned stack in
    grey. *)
Theorem formatStack_line_limit rt stack maxLines :
  (length (JsString.lines (formatStack rt stack maxLines)) <= Nat.max 1 maxLines)%nat
  ∧ (formatStack rt stack maxLines = ""
     ∨ Forall (fun l => exists l0,
                   l = ansi "90" l0 ∧ l0 ∈ JsString.lines (cleanStackTrace rt stack))
         (JsString.lines (formatStack rt stack maxLines))).
Proof.
  unfold formatStack. destruct (JsString.nonempty stack); simpl negb; cbv iota.
  2:{ split; [simpl; lia | by left]. }
  set (ls := JsString.lines (cleanStackTrace rt stack)).
  set (shown := match ls with
                | first :: (_ :: _) as rest =>
                    if JsString.startsWith "Error" first then rest else ls
                | _ => ls
                end).
  assert (Forall (fun l => contains_char "010" l = false ∧ l ∈ ls) shown) as Hshown.
  { assert (Forall (fun l => contains_char "010" l = false ∧ l ∈ ls) ls) as Hls.
    { apply Forall_forall. intros l Hl. split; [|done].
      pose proof (split_pieces "010" (cleanStackTrace rt stack)) as Hp.
      by eapply Forall_forall in Hp. }
    subst shown. destruct ls as [|first [|second rest]]; try done.
    destruct (JsString.startsWith "Error" first); [|done].
    by apply Forall_cons in Hls as [_ ?]. }
  destruct (take maxLines shown) as [|l0 limited] eqn:Htake.
  { split; [simpl; lia | by left]. }
  assert (Forall (fun l => contains_char "010" l = false ∧ l ∈ ls) (l0 :: limited))
    as Hlim.
  { rewrite <- Htake. by apply Forall_take. }
  rewrite lines_join.
  - split.
    + rewrite length_map, <- Htake, length_take. lia.
    + right. apply Forall_map. eapply Forall_impl; [exact Hlim|].
      intros l [_ Hl]. by exists l.
  - done.
  - apply Forall_map. eapply Forall_impl; [exact Hlim|].
    intros l [Hl _]. by apply ansi_one_line.
Qed.

(** X16: the stack trace stored with a record holds TypeScript lines of
    the cleaned stack only: [extractFullTsStacktrace] answers the empty
    string for a falsy argument, fails on a truthy one that is not a
    string, and otherwise every line of a non-empty answer names a [.ts]
    file; the same holds for the call stack that [captureCallStack]
    takes. *)
Theorem stored_stacktrace_has_ts_lines_only rt :
  (forall stack,
      Js.truthy stack = false -> extractFullTsStacktrace rt stack = Ret "")
  ∧ (forall stack,
        Js.truthy stack = true -> (forall s, stack <> VStr s) ->
        extractFullTsStacktrace rt stack = Throw (typeError rt))
  ∧ (forall s,
        exists r,
          extractFullTsStacktrace rt (VStr s) = Ret r
          ∧ (r = ""
             ∨ Forall (fun l => isTsLine l = true
                                ∧ l ∈ JsString.lines (cleanStackTrace rt s))
                 (JsString.lines r)))
  ∧ (captureCallStack rt = ""
     ∨ Forall (fun l => isTsLine l = true) (JsString.lines (captureCallStack rt))).
Proof.
  assert (forall ls : list string,
             Forall (fun l => contains_char "010" l = false) ls ->
             let kept := filter (fun l => isTsLine l = true) ls in
             JsString.join JsString.nl kept = ""
             ∨ Forall (fun l => isTsLine l = true ∧ l ∈ ls)
                 (JsString.lines (JsString.join JsString.nl kept))) as Hkept.
  { intros ls Hls kept. destruct kept as [|k kept'] eqn:Hk; [by left|]. right.
    rewrite lines_join; [|done|].
    - rewrite <- Hk. apply Forall_forall. intros l Hl.
      by apply list_elem_of_filter in Hl.
    - rewrite <- Hk. apply Forall_forall. intros l Hl.
      apply list_elem_of_filter in Hl as [_ Hl].
      by eapply Forall_forall in Hls. }
  split; [|split; [|split]].
  - intros stack Hf. unfold extractFullTsStacktrace, stackArg. by rewrite Hf.
  - intros stack Ht Hs. unfold extractFullTsStacktrace, stackArg. rewrite Ht.
    destruct stack; try done. by destruct (Hs s).
  - intros s. unfold extractFullTsStacktrace, stackArg.
    destruct (Js.truthy (VStr s)); simpl; [|by eexists; split; [|left]].
    eexists. split; [done|]. apply Hkept. apply split_pieces.
  - unfold captureCallStack. destruct (errorStack rt ""); [|by left].
    destruct (JsString.nonempty s); simpl; [|by left].
    destruct (Hkept (drop 1 (JsString.lines (cleanStackTrace rt s)))) as [He | Hall].
    + apply Forall_drop, split_pieces.
    + by left.
    + right. eapply Forall_impl; [exact Hall|]. by intros l [? _].
Qed.

(** ** The level key of [log] *)

Lemma strip_go_plain s :
  contains_char "027" s = false -> JsString.strip_go 0 s = s.
Proof.
  induction s as [|a s IH]; simpl; [done|].
  intros [Ha Hs]%orb_false_elim. rewrite Ha. by rewrite (IH Hs).
Qed.

Lemma strip_go_plain_app s r :
  contains_char "027" s = false ->
  JsString.strip_go 0 (s +:+ r) = s +:+ JsString.strip_go 0 r.
Proof.
  induction s as [|a s IH]; simpl; [done|].
  intros [Ha Hs]%orb_false_elim. rewrite Ha. by rewrite (IH Hs).
Qed.

Lemma strip_go_skip p c r n :
  n = String.length p ->
  JsString.strip_go (S n) (p +:+ String c r) = JsString.strip_go 0 r.
Proof.
  intros ->. induction p as [|a p IH]; simpl; [by destruct r | exact IH].
Qed.

Lemma digits_m_code code seen r :
  all_digits code = true ->
  code <> "" ∨ seen = true ->
  JsString.digits_m seen (code +:+ String "m" r) = Some (S (String.length code)).
Proof.
  revert seen. induction code as [|a code IH]; intros seen Hd Hs.
  - destruct Hs as [Hs | Hs]; [done|]. by rewrite Hs.
  - simpl in Hd. apply andb_prop in Hd as [Ha Hd]. simpl. rewrite Ha.
    rewrite (IH true Hd) by (by right). reflexivity.
Qed.

Lemma ansi_shape code s :
  ansi code s = String "027" (String "[" (code +:+ String "m" (s +:+ String "027" "[0m"))).
Proof. reflexivity. Qed.

Lemma strip_go_esc r n :
  JsString.ansi_tail r = Some n ->
  JsString.strip_go 0 (String "027" r) = JsString.strip_go n r.
Proof. intros Hn. simpl. by rewrite Hn. Qed.

(** What the colouring of [log] adds, the pattern of its filter removes. *)
Lemma stripAnsi_ansi code s :
  code <> "" -> all_digits code = true -> contains_char "027" s = false ->
  JsString.stripAnsi (ansi code s) = s.
Proof.
  intros Hne Hd Hs. unfold JsString.stripAnsi. rewrite ansi_shape.
  rewrite (strip_go_esc _ (S (S (String.length code)))).
  2:{ cbn [JsString.ansi_tail]. rewrite digits_m_code by (done || by left). done. }
  cbn [JsString.strip_go]. rewrite strip_go_skip by done.
  rewrite strip_go_plain_app by done.
  change (JsString.strip_go 0 (String "027" "[0m")) with "".
  clear. induction s as [|a s IH]; [done|].
  change (String a (s +:+ "") = String a s). by f_equal.
Qed.

(** X17: the severity filter of [log] compares the level as written: a
    level that carries a colour code around it is filtered exactly like the
    bare one, because the code is removed before the look-up in
    [LOG_LEVELS]. *)
Theorem level_filter_ignores_colour code level w :
  code <> "" -> all_digits code = true -> contains_char "027" level = false ->
  JsString.stripAnsi (ansi code level) = level
  ∧ filtered (ansi code level) w = filtered level w.
Proof.
  intros Hne Hd Hl. pose proof (stripAnsi_ansi code level Hne Hd Hl) as Hstrip.
  split; [exact Hstrip|]. unfold filtered. rewrite Hstrip.
  unfold JsString.stripAnsi. by rewrite strip_go_plain.
Qed.

Lemma level_filter_ignores_colour_witness :
  filtered (ansi "32" "info") Demo.ready_warn = filtered "info" Demo.ready_warn.
Proof.
  apply (proj2 (level_filter_ignores_colour "32" "info" Demo.ready_warn
                  ltac:(discriminate) eq_refl eq_refl)).
Defined.
(** ** Errors are always shown *)

(** X18: whatever level was configured, in no reachable state does the
    minimum level exceed the rank of [error], so a record at that level is
    never filtered: every call at level [error] that completes has printed
    its console line. *)
Theorem error_level_is_never_filtered rt h0 acts c :
  call_level c = Some "error" ->
  filtered "error" (run rt acts (initial h0)).1 = false
  ∧ renders (call rt c) (run rt acts (initial h0)).1.
Proof.
  intros Hc. destruct (initial_invariants h0) as [Hl Hi].
  destruct (run_invariants rt acts _ Hl Hi) as (Hlev & _ & _).
  assert (filtered "error" (run rt acts (initial h0)).1 = false) as Hf.
  { unfold filtered.
    change (LOG_LEVELS_at (JsString.stripAnsi "error")) with (Some (Rank 3)).
    cbv beta iota. unfold level_lt, level_ok in *.
    destruct (currentLogLevel (run rt acts (initial h0)).1) as [m|k]; [|done].
    specialize (Hlev m eq_refl). apply Z.ltb_ge. lia. }
  split; [exact Hf|]. by eapply call_renders.
Qed.

Lemma error_level_is_never_filtered_witness :
  filtered "error"
    (run Demo.prod [CreateLogger (mkConfig None (Some "error"))] (initial ∅)).1 = false
  ∧ renders (call Demo.prod (LoggerError (VStr "x") VUndef))
      (run Demo.prod [CreateLogger (mkConfig None (Some "error"))] (initial ∅)).1.
Proof.
  apply (error_level_is_never_filtered Demo.prod ∅
           [CreateLogger (mkConfig None (Some "error"))]
           (LoggerError (VStr "x") VUndef)).
  reflexivity.
Defined.

(** ** The best-effort message text *)

(** X19: [safeToStringMessage] gives a string as it is, the non-empty
    [message] of an object as it is, and what the serialiser answers for
    any other object cut to 2000 characters.  It never fails on a value
    that is not an object, and on an object only when the serialiser gave
    no string and [String(...)], its last resort, failed as well. *)
Theorem safeToStringMessage_best_effort rt h v :
  ((forall l, v <> VObj l) ->
   exists s, safeToStringMessage rt h v = Ret s ∧ ToString rt h v = Ret s)
  ∧ (forall l m,
        v = VObj l -> Js.get h v "message" = VStr m -> m <> "" ->
        safeToStringMessage rt h v = Ret m)
  ∧ (forall l json,
        v = VObj l -> jsonStringify rt h v = Ret (Some json) ->
        exists s,
          safeToStringMessage rt h v = Ret s
          ∧ (Js.get h v "message" = VStr s
             ∨ (s = JsString.slice0 2000 json ∧ (String.length s <= 2000)%nat)))
  ∧ (forall e,
        safeToStringMessage rt h v = Throw e ->
        exists l,
          v = VObj l ∧ toStringObj rt h l = Throw e
          ∧ forall json, jsonStringify rt h v <> Ret (Some json)).
Proof.
  split; [|split; [|split]].
  - intros Hv. destruct v as [| |b|n|s|l]; simpl; try by eexists.
    by destruct (Hv l).
  - intros l m -> Hm Hne. unfold safeToStringMessage. rewrite Hm.
    by destruct m.
  - intros l json -> Hj. unfold safeToStringMessage. rewrite Hj.
    assert (String.length (JsString.slice0 2000 json) <= 2000)%nat as Hlen.
    { rewrite slice0_length. lia. }
    destruct (Js.get h (VObj l) "message") as [| | | |m|] eqn:Hm;
      try (eexists; split; [reflexivity | by right]).
    destruct (JsString.nonempty m); eexists; (split; [reflexivity|]);
      [by left | by right].
  - intros e He. destruct v as [| |b|n|s|l]; simpl in He; try discriminate.
    exists l. split; [done|].
    assert (match jsonStringify rt h (VObj l) with
            | Ret (Some s) => Ret (JsString.slice0 2000 s)
            | _ => toStringObj rt h l
            end = Throw e) as Hvia.
    { destruct (Js.get h (VObj l) "message") as [| | | |m|]; try exact He.
      by destruct (JsString.nonempty m). }
    destruct (jsonStringify rt h (VObj l)) as [[json|]|e']; try discriminate;
      (split; [exact Hvia | by intros ?]).
Qed.

Lemma safeToStringMessage_best_effort_witness :
  safeToStringMessage Demo.prod Demo.chainABC (VObj 1%positive) = Ret "top".
Proof.
  apply (proj1 (proj2 (safeToStringMessage_best_effort Demo.prod Demo.chainABC
                         (VObj 1%positive))) 1%positive "top");
    [reflexivity | reflexivity | discriminate].
Defined.

(** ** Metadata objects *)

Lemma fresh_unallocated (h : gmap positive Obj) : h !! fresh (dom h) = None.
Proof. apply not_elem_of_dom, is_fresh. Qed.

(** X20: the metadata a method goes on with is never falsy: [safeMeta]
    hands a truthy argument on untouched, and answers any falsy one with a
    new empty object, leaving every object that exists as it is. *)
Theorem safeMeta_is_never_falsy meta w :
  exists v w',
    safeMeta meta w = (Ret v, w', [])
    ∧ Js.truthy v = true
    ∧ same w w'
    ∧ (forall l o, heap w !! l = Some o -> heap w' !! l = Some o)
    ∧ (Js.truthy meta = true -> v = meta ∧ w' = w)
    ∧ (Js.truthy meta = false ->
       exists l, v = VObj l ∧ heap w !! l = None ∧ Js.spread (heap w') v = ∅).
Proof.
  unfold safeMeta. destruct (Js.truthy meta) eqn:Ht; simpl.
  - exists meta, w. split; [done|]. split; [done|]. split; [apply same_refl|].
    split; [done|]. split; [done | by intros [=]].
  - eexists _, _. split; [reflexivity|]. split; [done|].
    split; [apply same_set_heap, same_refl|].
    pose proof (fresh_unallocated (heap w)) as Hfresh.
    split; [|split; [by intros [=]|]].
    + intros l o Hl. destruct w; simpl in *.
      rewrite lookup_insert_ne; [done | congruence].
    + intros _. eexists. split; [reflexivity|]. split; [exact Hfresh|].
      destruct w; simpl. by rewrite lookup_insert_eq.
Qed.

(** X21: in the metadata stored with an [Error], the caller's own keys
    win: the new object holds every enumerable property of the caller's
    metadata object unchanged; under every other key it holds the [stack]
    and the [name] of the error and the array of the cause chain, and
    nothing else.  Properties of the metadata that are not enumerable are not
    copied.  Both objects it allocates are new. *)
Theorem enrichMeta_caller_keys_win e chain lm o w :
  heap w !! lm = Some o ->
  live (heap w) e ->
  exists l la w',
    enrichMeta e chain (VObj lm) w = (Ret (VObj l), w', [])
    ∧ same w w'
    ∧ heap w !! l = None ∧ heap w !! la = None ∧ l <> la
    ∧ (forall l0 o0, heap w !! l0 = Some o0 -> heap w' !! l0 = Some o0)
    ∧ heap w' !! la = Some (arrayOf chain)
    ∧ (forall k x,
          props o !! k = Some x -> k ∉ hidden o ->
          Js.get (heap w') (VObj l) k = x)
    ∧ (forall k,
          props o !! k = None ∨ k ∈ hidden o ->
          Js.get (heap w') (VObj l) k
          = if String.eqb k "stack" then Js.get (heap w) e "stack"
            else if String.eqb k "name" then Js.get (heap w) e "name"
            else if String.eqb k "causeChain" then VObj la
            else VUndef).
Proof.
  intros Hlm He. unfold enrichMeta, bind, alloc, get_world. cbn [fst snd].
  destruct w as [h c d lv ts n]. cbn [heap set_heap] in *.
  set (la := fresh (dom h)).
  set (h1 := <[la := arrayOf chain]> h).
  set (l := fresh (dom h1)).
  assert (h !! la = None) as Hla by apply fresh_unallocated.
  assert (h1 !! l = None) as Hl1 by apply fresh_unallocated.
  assert (l <> la) as Hne.
  { intros Heq. rewrite Heq in Hl1. unfold h1 in Hl1. by rewrite lookup_insert_eq in Hl1. }
  assert (h !! l = None) as Hl.
  { unfold h1 in Hl1. by rewrite lookup_insert_ne in Hl1. }
  assert (lm <> la) as Hlma by congruence.
  assert (forall p, Js.get h1 e p = Js.get h e p) as Hget.
  { intros p. unfold Js.get. destruct e as [| | | | |le]; try done.
    assert (le <> la) as Hle.
    { intros ->. specialize (He la eq_refl). apply elem_of_dom in He as [? He].
      congruence. }
    unfold h1. by rewrite lookup_insert_ne. }
  assert (Js.spread h1 (VObj lm) = filter (fun kv => kv.1 ∉ hidden o) (props o))
    as Hspread.
  { unfold Js.spread, h1. rewrite lookup_insert_ne by done. by rewrite Hlm. }
  exists l, la. eexists. split; [reflexivity|]. rewrite Hspread, !Hget.
  cbn [heap set_heap].
  split; [done|]. split; [done|]. split; [done|]. split; [done|].
  set (base := <["stack" := Js.get h e "stack"]>
                 (<["name" := Js.get h e "name"]>
                    (<["causeChain" := VObj la]> (∅ : gmap string JsVal)))).
  set (copied := filter (fun kv : string * JsVal => kv.1 ∉ hidden o) (props o)).
  assert (forall k,
             Js.get (<[l := mkObj PlainObject (copied ∪ base) ∅]> h1) (VObj l) k
             = match copied !! k with
               | Some x => x
               | None => default VUndef (base !! k)
               end) as Hnew.
  { intros k. unfold Js.get. rewrite lookup_insert_eq. cbn [props kind].
    rewrite lookup_union. destruct (copied !! k) as [x|] eqn:Hk; simpl.
    - by rewrite union_Some_l.
    - match goal with |- context [None ∪ ?X] => destruct X end; reflexivity. }
  split; [|split; [|split]].
  - intros l0 o0 Hl0. rewrite lookup_insert_ne by congruence.
    unfold h1. rewrite lookup_insert_ne by congruence. done.
  - rewrite lookup_insert_ne by done. unfold h1. by rewrite lookup_insert_eq.
  - intros k x Hk Hvis. rewrite Hnew.
    assert (copied !! k = Some x) as ->; [|done].
    by apply map_lookup_filter_Some.
  - intros k Hk. rewrite Hnew.
    assert (copied !! k = None) as ->.
    { apply map_lookup_filter_None. destruct Hk as [Hk | Hk]; [by left|].
      right. intros x _ Hvis. by apply Hvis. }
    unfold base.
    destruct (String.eqb_spec k "stack") as [->|H1]; [by rewrite lookup_insert_eq|].
    rewrite lookup_insert_ne by done.
    destruct (String.eqb_spec k "name") as [->|H2]; [by rewrite lookup_insert_eq|].
    rewrite lookup_insert_ne by done.
    destruct (String.eqb_spec k "causeChain") as [->|H3]; [by rewrite lookup_insert_eq|].
    by rewrite lookup_insert_ne.
Qed.

Lemma enrichMeta_caller_keys_win_witness :
  exists l la w',
    enrichMeta (VObj 1%positive) ["B: middle"] (VObj 2%positive) (initial Demo.withMeta)
    = (Ret (VObj l), w', [])
    ∧ Js.get (heap w') (VObj l) "name" = VStr "shadow"
    ∧ Js.get (heap w') (VObj l) "requestId" = VStr "r1"
    ∧ Js.get (heap w') (VObj l) "causeChain" = VObj la
    ∧ heap w' !! la = Some (arrayOf ["B: middle"]).
Proof.
  destruct (enrichMeta_caller_keys_win (VObj 1%positive) ["B: middle"] 2%positive
              (mkObj PlainObject
                 (<["name" := VStr "shadow"]> (<["requestId" := VStr "r1"]> ∅)) ∅)
              (initial Demo.withMeta) eq_refl)
    as (l & la & w' & Hrun & _ & _ & _ & _ & _ & Harr & Hkeys & Hrest).
  - intros l0 [= <-]. apply elem_of_dom. by eexists.
  - exists l, la, w'. split; [exact Hrun|]. split; [|split; [|split]].
    + by apply Hkeys.
    + by apply Hkeys.
    + apply (Hrest "causeChain"). by left.
    + exact Harr.
Defined.

(** ** Cause chains that run into a cycle *)

Lemma causeLoop_walk rt h err current ls last :
  cause_walk h current ls last ->
  forall visited chain,
    NoDup ls ->
    (forall l, l ∈ ls -> (l ∉ visited) ∧ VObj l <> err) ->
    (forall l, last = VObj l -> l ∈ visited ∨ l ∈ ls) ->
    causeLoop rt (length ls) h err visited current chain
    = Some (obind (omap (causeTitle rt h) (VObj <$> ls))
                  (fun titles => Ret (chain ++ titles))).
Proof.
  induction 1 as [v | l ls v Hwalk IH]; intros visited chain Hnd Hfresh Hlast.
  - simpl. rewrite app_nil_r. destruct v as [| | | | |l]; try done.
    destruct (Hlast l eq_refl) as [Hv | Hin]; [|by apply elem_of_nil in Hin].
    by rewrite decide_True.
  - apply NoDup_cons in Hnd as [Hl Hnd].
    destruct (Hfresh l) as [Hv Herr]; [by left|].
    simpl. rewrite decide_False by done. rewrite decide_False by done.
    change (list_fmap positive JsVal VObj ls) with (VObj <$> ls).
    destruct (causeTitle rt h (VObj l)) as [title|e]; [|done].
    rewrite IH; [|done| |].
    + simpl. destruct (omap (causeTitle rt h) (VObj <$> ls)); simpl; [|done].
      by rewrite <- app_assoc.
    + intros l0 Hl0. destruct (Hfresh l0) as [? ?]; [by right|].
      split; [|done]. set_solver.
    + intros l0 Hl0. destruct (Hlast l0 Hl0) as [? | [-> | ?]%elem_of_cons];
        [left | left | by right]; set_solver.
Qed.

(** X22: on a chain of causes that runs back into itself (into the error
    or into one of its causes) the walk stops where it would meet an object
    for the second time: the result holds the title of every cause once,
    in chain order, and the error itself is left out. *)
Theorem buildCauseChain_on_a_cycle rt h a ls b :
  cause_walk h (Js.get h (VObj a) "cause") ls (VObj b) ->
  NoDup (a :: ls) ->
  b ∈ a :: ls ->
  buildCauseChain rt h (VObj a) = omap (causeTitle rt h) (VObj <$> ls).
Proof.
  intros Hwalk [Ha Hnd]%NoDup_cons Hb.
  apply (buildCauseChain_fuel _ _ _ (S (length ls))).
  simpl. rewrite decide_False by set_solver. rewrite decide_True by done.
  rewrite (causeLoop_walk rt h (VObj a) _ ls (VObj b) Hwalk); [by rewrite obind_ret | done | |].
  - intros l Hl. split; [set_solver | congruence].
  - intros l [= <-]. apply elem_of_cons in Hb as [-> | Hb]; [left | by right].
    set_solver.
Qed.

Lemma buildCauseChain_on_a_cycle_witness :
  buildCauseChain Demo.prod Demo.cycleAB (VObj 1%positive) = Ret ["B: middle"].
Proof.
  refine (eq_trans
            (buildCauseChain_on_a_cycle Demo.prod Demo.cycleAB 1%positive
               [2%positive] 1%positive _ _ _) _).
  - apply cause_walk_cons with (l := 2%positive). apply cause_walk_nil.
  - apply (bool_decide_unpack _). vm_compute. exact I.
  - by left.
  - vm_compute. reflexivity.
Defined.
(** ** The frame a location is taken from *)

Lemma firstFrame_first rt ls :
  (firstFrame rt ls = noFrame
   ∧ Forall (fun l => regex_match rt ReFrameParen l = None
                      ∧ regex_match rt ReFrameBare l = None) ls)
  ∨ exists (i : nat) l,
      ls !! i = Some l
      ∧ (forall (j : nat) l',
            (j < i)%nat -> ls !! j = Some l' ->
            regex_match rt ReFrameParen l' = None
            ∧ regex_match rt ReFrameBare l' = None)
      ∧ ((exists m,
             regex_match rt ReFrameParen l = Some m
             ∧ firstFrame rt ls
               = mkFrame (m !! 0%nat) (parseInt <$> m !! 1%nat) (parseInt <$> m !! 2%nat))
         ∨ (regex_match rt ReFrameParen l = None
            ∧ exists m2,
                regex_match rt ReFrameBare l = Some m2
                ∧ firstFrame rt ls
                  = mkFrame (m2 !! 1%nat) (parseInt <$> m2 !! 2%nat)
                      (parseInt <$> m2 !! 3%nat))).
Proof.
  induction ls as [|l ls IH]; [by left|]. simpl.
  destruct (regex_match rt ReFrameParen l) as [m|] eqn:Hp.
  { right. exists 0%nat, l. split; [done|]. split; [intros j l' Hj; lia|].
    left. exists m. by rewrite Hp. }
  destruct (regex_match rt ReFrameBare l) as [m2|] eqn:Hb.
  { right. exists 0%nat, l. split; [done|]. split; [intros j l' Hj; lia|].
    right. split; [done|]. exists m2. by rewrite Hb. }
  destruct IH as [[Hnone Hall] | (i & l0 & Hi & Hmin & Hmatch)].
  - left. split; [done|]. by constructor.
  - right. exists (S i), l0. split; [done|]. split; [|exact Hmatch].
    intros [|j] l' Hj Hl'.
    + injection Hl' as <-. done.
    + apply (Hmin j); [lia | done].
Qed.

(** X23: [extractFirstProjectFrame] answers the empty frame for a falsy
    stack and fails on a truthy one that is not a string.  On a string it
    answers with the frame of the first line of the cleaned stack that
    matches one of its two patterns, the parenthesised pattern being tried
    first on that line: no line before it matches either pattern; and it
    answers the empty frame when no line matches at all. *)
Theorem firstFrame_takes_first_match rt stack :
  (Js.truthy stack = false -> extractFirstProjectFrame rt stack = Ret noFrame)
  ∧ (Js.truthy stack = true -> (forall s, stack <> VStr s) ->
     extractFirstProjectFrame rt stack = Throw (typeError rt))
  ∧ (forall s,
        stack = VStr s -> s <> "" ->
        exists f,
          extractFirstProjectFrame rt stack = Ret f
          ∧ ((f = noFrame
              ∧ Forall (fun l => regex_match rt ReFrameParen l = None
                                 ∧ regex_match rt ReFrameBare l = None)
                  (JsString.lines (cleanStackTrace rt s)))
             ∨ exists (i : nat) l,
                 JsString.lines (cleanStackTrace rt s) !! i = Some l
                 ∧ (forall (j : nat) l',
                       (j < i)%nat ->
                       JsString.lines (cleanStackTrace rt s) !! j = Some l' ->
                       regex_match rt ReFrameParen l' = None
                       ∧ regex_match rt ReFrameBare l' = None)
                 ∧ ((exists m,
                        regex_match rt ReFrameParen l = Some m
                        ∧ f = mkFrame (m !! 0%nat) (parseInt <$> m !! 1%nat)
                                (parseInt <$> m !! 2%nat))
                    ∨ (regex_match rt ReFrameParen l = None
                       ∧ exists m2,
                           regex_match rt ReFrameBare l = Some m2
                           ∧ f = mkFrame (m2 !! 1%nat) (parseInt <$> m2 !! 2%nat)
                                   (parseInt <$> m2 !! 3%nat))))).
Proof.
  split; [|split].
  - intros Hf. unfold extractFirstProjectFrame, stackArg. by rewrite Hf.
  - intros Ht Hs. unfold extractFirstProjectFrame, stackArg. rewrite Ht.
    destruct stack; try done. by destruct (Hs s).
  - intros s -> Hne. unfold extractFirstProjectFrame, stackArg.
    destruct s as [|ch s]; [done|]. cbn [Js.truthy JsString.nonempty negb obind].
    eexists. split; [reflexivity|].
    destruct (firstFrame_first rt (JsString.lines (cleanStackTrace rt (String ch s))))
      as [[Hnone Hall] | (i & l & Hi & Hmin & Hmatch)].
    + by left.
    + right. exists i, l. split; [done|]. split; [done|]. exact Hmatch.
Qed.

Lemma demo_stack_lines :
  JsString.lines (cleanStackTrace Demo.prod (Demo.stack_of ""))
  = ["Error";
     "    at captureCallStack (node_modules/@gratheon/log-lib/dist/logger.js:210:17)";
     "    at Object.log (node_modules/@gratheon/log-lib/dist/logger.js:310:31)";
     "    at main (src/app.ts:7:3)"].
Proof. vm_compute. reflexivity. Qed.

Lemma demo_stack_matches :
  Forall (fun l => regex_match Demo.prod ReFrameParen l = None
                   ∧ regex_match Demo.prod ReFrameBare l = None)
    ["Error";
     "    at captureCallStack (node_modules/@gratheon/log-lib/dist/logger.js:210:17)";
     "    at Object.log (node_modules/@gratheon/log-lib/dist/logger.js:310:31)"]
  ∧ regex_match Demo.prod ReFrameParen "    at main (src/app.ts:7:3)"
    = Some ["src/app.ts"; "7"; "3"].
Proof. split; [repeat constructor; by vm_compute | by vm_compute]. Qed.

Lemma firstFrame_takes_first_match_witness :
  extractFirstProjectFrame Demo.prod (VStr (Demo.stack_of ""))
  = Ret (mkFrame (Some "src/app.ts") (Some 7) (Some 3))
  ∧ JsString.lines (cleanStackTrace Demo.prod (Demo.stack_of "")) !! 3%nat
    = Some "    at main (src/app.ts:7:3)".
Proof.
  destruct demo_stack_matches as [Hbefore Hframe].
  apply Forall_cons in Hbefore as [[H0 H0'] Hbefore].
  apply Forall_cons in Hbefore as [[H1 H1'] Hbefore].
  apply Forall_cons in Hbefore as [[H2 H2'] _].
  destruct (proj2 (proj2 (firstFrame_takes_first_match Demo.prod
                            (VStr (Demo.stack_of ""))))
              (Demo.stack_of "") eq_refl ltac:(discriminate))
    as (f & Hf & Hcases).
  rewrite Hf, demo_stack_lines. split; [|reflexivity].
  rewrite demo_stack_lines in Hcases.
  destruct Hcases as [[_ Hall] | (i & l & Hi & Hmin & Hmatch)].
  { apply Forall_cons in Hall as [_ Hall]. apply Forall_cons in Hall as [_ Hall].
    apply Forall_cons in Hall as [_ Hall]. apply Forall_cons in Hall as [[Hp _] _].
    congruence. }
  destruct i as [|[|[|[|i]]]]; simpl in Hi; try discriminate Hi; injection Hi as <-.
  - destruct Hmatch as [(m & Hm & _) | (_ & m & Hm & _)]; congruence.
  - destruct Hmatch as [(m & Hm & _) | (_ & m & Hm & _)]; congruence.
  - destruct Hmatch as [(m & Hm & _) | (_ & m & Hm & _)]; congruence.
  - destruct Hmatch as [(m & Hm & ->) | (Hp & _)]; [|congruence].
    rewrite Hframe in Hm. injection Hm as <-. reflexivity.
Defined.

(** ** The console line *)

(** X24: [log] changes nothing and prints one line or none.  A filtered
    record prints nothing; a record that passes the filter prints exactly
    one console line, unless serialising the metadata or turning the
    message into text fails, in which case nothing is printed and that
    failure is what the caller gets. *)
Theorem log_prints_one_line_or_fails rt level message meta loc w :
  world (log rt level message meta loc w) = w
  ∧ (filtered level w = true -> log rt level message meta loc w = (Ret tt, w, []))
  ∧ (filtered level w = false ->
     outcome (log rt level message meta loc w) = Ret tt ->
     exists text, events (log rt level message meta loc w) = [ConsoleLog [VStr text]])
  ∧ (forall e,
        outcome (log rt level message meta loc w) = Throw e ->
        events (log rt level message meta loc w) = []
        ∧ ((Js.truthy meta = true ∧ jsonStringify rt (heap w) meta = Throw e)
           ∨ exists l, message = VObj l ∧ toStringObj rt (heap w) l = Throw e)).
Proof.
  unfold log. rewrite bind_get_world.
  destruct (filtered level w) eqn:Hf.
  { split; [done|]. split; [done|]. split; [done|]. by intros e [=]. }
  unfold bind, lift, ret, emit, outcome, events, world.
  destruct (Js.truthy meta) eqn:Hm; cbn [fst snd].
  - destruct (jsonStringify rt (heap w) meta) as [json|e] eqn:Hj; cbn [fst snd].
    2:{ split; [done|]. split; [done|]. split; [done|].
        intros e' [= <-]. split; [done|]. by left. }
    assert (exists metaText, ToString rt (heap w) (opt_val json) = Ret metaText)
      as [metaText ->] by (destruct json; by eexists).
    cbn [fst snd].
    destruct (ToString rt (heap w) message) as [messageText|e] eqn:Ht; cbn [fst snd].
    + repeat match goal with
             | |- context [if ?b then _ else _] => destruct b
             end; cbn [fst snd];
        (split; [done|]; split; [done|]; split; [by eexists | by intros e [=]]).
    + split; [done|]. split; [done|]. split; [done|].
      intros e' [= <-]. split; [done|]. right.
      destruct message; try discriminate. by eexists.
  - destruct (ToString rt (heap w) message) as [messageText|e] eqn:Ht; cbn [fst snd].
    + repeat match goal with
             | |- context [if ?b then _ else _] => destruct b
             end; cbn [fst snd];
        (split; [done|]; split; [done|]; split; [by eexists | by intros e [=]]).
    + split; [done|]. split; [done|]. split; [done|].
      intros e' [= <-]. split; [done|]. right.
      destruct message; try discriminate. by eexists.
Qed.

Lemma log_prints_one_line_or_fails_witness :
  exists text,
    events (log Demo.prod "warn" (VStr "x") VUndef None Demo.ready_warn)
    = [ConsoleLog [VStr text]].
Proof.
  apply (proj1 (proj2 (proj2 (log_prints_one_line_or_fails Demo.prod "warn" (VStr "x")
                                VUndef None Demo.ready_warn))));
    reflexivity.
Defined.
